(** * CTLungSeg.segmentation: a shallow embedding and its verification

    The module [CTLungSeg/segmentation.py] post-processes stacks of 8-bit
    CT slices.  Arrays are embedded as nested lists of integers, pandas
    data frames as association lists from index labels to rows, Python
    exceptions as an error monad, and the in-place array updates of
    [reconstruct_gg_areas] as a state monad over a store of arrays. *)

From Stdlib Require Import ZArith Lia.
From stdpp Require Import base tactics option list sorting gmap.

(** ** Exceptions *)

Inductive exn : Set := IndexError | KeyError | ValueError | NameError.

Inductive result (A : Type) : Type :=
  | Ok (a : A)
  | Raise (e : exn).
Arguments Ok {A} a.
Arguments Raise {A} e.

#[global] Instance result_ret : MRet result := @Ok.
#[global] Instance result_bind : MBind result :=
  λ A B f m, match m with Ok a => f a | Raise e => Raise e end.

Fixpoint foldlM {A B : Type} (f : A → B → result A) (l : list B) (a : A)
  : result A :=
  match l with
  | [] => Ok a
  | b :: l => a' ← f a b; foldlM f l a'
  end.

(** ** numpy arrays

    A slice is a two-dimensional array (a list of rows), a stack a list of
    slices.  Samples are integers; the dtype casts of the source are
    written out where the source has them. *)

Abbreviation image := (list (list Z)).
Abbreviation volume := (list (list (list Z))).

Definition np_uint8 (z : Z) : Z := (z `mod` 256)%Z.
Definition astype_int16 (z : Z) : Z := ((z + 32768) `mod` 65536 - 32768)%Z.

Definition imap2 (f : Z → Z) (a : image) : image := map (map f) a.
Definition vmap (f : Z → Z) (v : volume) : volume := map (imap2 f) v.
Definition izip (f : Z → Z → Z) (a b : image) : image :=
  zip_with (zip_with f) a b.

(** [np.bitwise_or(a, b, dtype=np.uint8)] and [np.bitwise_and]: the
    operands are uint8 arrays, on which [Z.lor] and [Z.land] stay in range. *)
Definition bitwise_or (a b : image) : image := izip Z.lor a b.
Definition bitwise_and (a b : image) : image := izip Z.land a b.

Definition pix (a : image) (r c : nat) : option Z :=
  row ← a !! r; row !! c.
Definition voxel (v : volume) (i r c : nat) : option Z :=
  a ← v !! i; pix a r c.

(** [a] is a genuine [h] x [w] array, [v] a genuine [n] x [h] x [w] one. *)
Definition is_image (h w : nat) (a : image) : Prop :=
  length a = h ∧ Forall (λ row, length row = w) a.
Definition is_volume (n h w : nat) (v : volume) : Prop :=
  length v = n ∧ Forall (is_image h w) v.

#[global] Instance is_image_dec h w a : Decision (is_image h w a).
Proof. unfold is_image. apply _. Defined.
#[global] Instance is_volume_dec n h w v : Decision (is_volume n h w v).
Proof. unfold is_volume. apply _. Defined.

(** The shape as nested lengths; equal for two arrays of one shape. *)
Definition ishape (a : image) : list nat := length <$> a.
Definition vshape (v : volume) : list (list nat) := ishape <$> v.

(** A sample is foreground when it is not zero. *)
Definition foreground (v : volume) (i r c : nat) : Prop :=
  ∃ x, voxel v i r c = Some x ∧ x ≠ 0%Z.

#[global] Instance foreground_dec v i r c : Decision (foreground v i r c).
Proof.
  unfold foreground. destruct (voxel v i r c) as [x|].
  - destruct (decide (x = 0%Z)) as [E|E].
    + right. intros (y & Hy & Hne). congruence.
    + left. eauto.
  - right. intros (y & Hy & Hne). congruence.
Defined.

(** Every sample is the background value 0 or the one foreground value. *)
Definition binary_image (fg : Z) (a : image) : Prop :=
  Forall (Forall (λ x, x = 0%Z ∨ x = fg)) a.
Definition binary_volume (fg : Z) (v : volume) : Prop :=
  Forall (binary_image fg) v.

#[global] Instance binary_image_dec fg a : Decision (binary_image fg a).
Proof. unfold binary_image. apply _. Defined.
#[global] Instance binary_volume_dec fg v : Decision (binary_volume fg v).
Proof. unfold binary_volume. apply _. Defined.

(** ** pandas data frames of region statistics *)

Record stat_row : Set :=
  { LEFT : Z; TOP : Z; WIDTH : Z; HEIGHT : Z; AREA : Z }.

(** Rows in frame order, each with its index label. *)
Abbreviation DataFrame := (list (Z * stat_row)).

Definition df_index (df : DataFrame) : list Z := fst <$> df.

(** [df.drop(index=lbl)]: every row labelled [lbl] goes; [KeyError] when
    there is none. *)
Definition df_drop (lbl : Z) (df : DataFrame) : result DataFrame :=
  if decide (lbl ∈ df_index df)
  then Ok (filter (λ r, r.1 ≠ lbl) df)
  else Raise KeyError.

(** Reductions: the minimum or maximum of an empty column is NaN, [None]. *)
Definition reduce_min (l : list Z) : option Z :=
  match l with
  | [] => None
  | x :: l => Some (foldl Z.min x l)
  end.
Definition reduce_max (l : list Z) : option Z :=
  match l with
  | [] => None
  | x :: l => Some (foldl Z.max x l)
  end.
Definition nan_to_num (x : option Z) : Z := default 0%Z x.

Definition column (f : stat_row → Z) (df : DataFrame) : list Z :=
  (λ r, f r.2) <$> df.

(** ** find_ROI

    The columns of the table are integer columns of pandas, of dtype int64,
    and their cells are int64 values.  The sums [stats['LEFT'] +
    stats['WIDTH']] and [stats['TOP'] + stats['HEIGHT']] are int64 columns
    again: a sum that leaves the 64-bit range wraps around, before the
    maximum is taken.  The last cast of the source, [astype('int16')],
    wraps once more. *)

Definition int64_add (a b : Z) : Z :=
  ((a + b + 2 ^ 63) `mod` 2 ^ 64 - 2 ^ 63)%Z.

Definition find_ROI (stats : DataFrame) : result (list Z) :=
  stats ← df_drop 0 stats;
  let corner :=
    [ reduce_min (column LEFT stats);
      reduce_min (column TOP stats);
      reduce_max (column (λ r, int64_add (LEFT r) (WIDTH r)) stats);
      reduce_max (column (λ r, int64_add (TOP r) (HEIGHT r)) stats) ] in
  mret ((λ x, astype_int16 (nan_to_num x)) <$> corner).

(** [df.sort_values(by=['AREA'], ascending=False)].  The order pandas gives
    to rows of equal AREA is not fixed by its interface; the embedding
    keeps them in frame order (a stable sort), which is what the default
    sort does on frames of fewer than sixteen rows. *)
Fixpoint insert_desc (r : Z * stat_row) (df : DataFrame) : DataFrame :=
  match df with
  | [] => [r]
  | x :: df' =>
      if (AREA r.2 <? AREA x.2)%Z then x :: insert_desc r df'
      else r :: x :: df'
  end.
Definition sort_values_AREA_desc (df : DataFrame) : DataFrame :=
  foldr insert_desc [] df.

(** [df.query('AREA == a')] and [df.query('AREA < a')]. *)
Definition query_AREA_eq (a : Z) (df : DataFrame) : DataFrame :=
  filter (λ r, AREA r.2 = a) df.
Definition query_AREA_lt (a : Z) (df : DataFrame) : DataFrame :=
  filter (λ r, (AREA r.2 < a)%Z) df.

(** ** The component analyzer *)

Definition count_label (lab : image) (j : Z) : nat :=
  length (filter (λ x, x = j) (concat lab)).

(** Modelled from the spec: [connected_components_wStats] lives in
    [CTLungSeg.method], outside the sources at hand.  Its contract, for one
    slice [a] with label map [lab] and statistics [stat]: the label map has
    the shape of the slice; label 0 marks exactly the background; the rows
    of the table are indexed 0, 1, ..., one per label, the background row
    first; every label of the map has its row; AREA is the pixel count of
    the label, positive for a region. *)
Definition slice_contract (a lab : image) (stat : DataFrame) : Prop :=
  ishape lab = ishape a
  ∧ Forall2 (Forall2 (λ x l, l = 0%Z ↔ x = 0%Z)) a lab
  ∧ df_index stat = Z.of_nat <$> seq 0 (length stat)
  ∧ 1 ≤ length stat
  ∧ Forall (Forall (λ l, 0 ≤ l < Z.of_nat (length stat))%Z) lab
  ∧ Forall (λ r, AREA r.2 = Z.of_nat (count_label lab r.1)
                 ∧ (r.1 ≠ 0%Z → 1 ≤ AREA r.2)%Z) stat.

Definition analyzer_contract (img : volume)
    (out : list image * list DataFrame) : Prop :=
  Forall2 (λ a ls, slice_contract a ls.1 ls.2) img (zip out.1 out.2)
  ∧ length out.1 = length img ∧ length out.2 = length img.

(** ** Boolean-mask assignment on a label map *)

Definition img_width (a : image) : nat :=
  match a with
  | [] => 0
  | row :: _ => length row
  end.

(** [lab == idx] for a 2-d array [lab] and a 1-d array [idx], by numpy's
    broadcasting: a one-element [idx] is compared with every sample; an
    [idx] as long as the rows is compared column by column; other lengths
    do not broadcast ([ValueError]), except against one-column rows, where
    the comparison has a shape the later mask assignment refuses
    ([IndexError]). *)
Definition eq_broadcast (lab : image) (idx : list Z)
  : result (list (list bool)) :=
  match idx with
  | [j] => Ok (map (map (λ x, bool_decide (x = j))) lab)
  | _ =>
      if decide (img_width lab = length idx)
      then Ok (map (λ row, zip_with (λ x j, bool_decide (x = j)) row idx) lab)
      else if decide (img_width lab = 1) then Raise IndexError
      else Raise ValueError
  end.

(** [lab[mask] = v] *)
Definition setitem_mask (lab : image) (mask : list (list bool)) (v : Z)
  : image :=
  zip_with (zip_with (λ x (b : bool), if b then v else x)) lab mask.

(** [lab[lab == j] = v] for a scalar [j], [lab[lab != j] = v] *)
Definition set_where_eq (j v : Z) (lab : image) : image :=
  imap2 (λ x, if decide (x = j) then v else x) lab.
Definition set_where_ne (j v : Z) (lab : image) : image :=
  imap2 (λ x, if decide (x ≠ j) then v else x) lab.

(** The [i]-th row of a frame, [IndexError] out of range ([DataFrame.iat]). *)
Definition df_iat_AREA (df : DataFrame) (i : nat) : result Z :=
  match df !! i with
  | Some r => Ok (AREA r.2)
  | None => Raise IndexError
  end.

(** [range(n)] for a Python integer [n]. *)
Definition range (n : Z) : list nat := seq 0 (Z.to_nat n).

Section Segmentation.

(** The analyzer, reduced to the two results the module reads: the label
    maps and the statistics tables, one per slice. *)
Variable connected_components_wStats :
  volume → list image * list DataFrame.

(** ** remove_spots *)

Definition erase_small (area : Z) (lab : volume) (ist : nat * DataFrame)
  : result volume :=
  foldlM (λ lab j,
            match lab !! ist.1 with
            | Some a => Ok (<[ist.1 := set_where_eq j 0 a]> lab)
            | None => Raise IndexError
            end)
         (df_index (query_AREA_lt area ist.2)) lab.

Definition remove_spots (img : volume) (area : Z) : result volume :=
  let '(lab, stats) := connected_components_wStats img in
  lab ← foldlM (erase_small area) (imap pair stats) lab;
  mret (vmap (λ x, if decide (x ≠ 0%Z) then 1%Z else 0%Z) lab).

(** ** select_greater_connected_regions *)

Definition select_slice (n_reg : Z) (sl : DataFrame * image)
  : result image :=
  let '(stat, lab) := sl in
  stat ← df_drop 0 stat;
  let stat := sort_values_AREA_desc stat in
  if decide (Z.of_nat (length stat) > n_reg - 1)%Z then
    lab ← foldlM (λ lab i,
                    a ← df_iat_AREA stat i;
                    let index := df_index (query_AREA_eq a stat) in
                    mask ← eq_broadcast lab (np_uint8 <$> index);
                    mret (setitem_mask lab mask 255))
                 (range n_reg) lab;
    mret (set_where_ne 255 0 lab)
  else
    mret (set_where_ne 0 0 lab).

Definition select_greater_connected_regions (img : volume) (n_reg : Z)
  : result volume :=
  let '(labs, stats) := connected_components_wStats img in
  m ← mapM (select_slice n_reg) (zip stats labs);
  mret (vmap np_uint8 m).

End Segmentation.

(** ** The store of arrays

    [reconstruct_gg_areas] copies its argument three times and then updates
    the copies in place, so arrays are held by reference: a store maps
    references to the arrays they hold, and a computation threads the store
    and may raise. *)

Definition loc : Set := positive.
Abbreviation store := (gmap loc volume).

Definition M (A : Type) : Type := store → result (A * store).

#[global] Instance M_ret : MRet M := λ A a h, Ok (a, h).
#[global] Instance M_bind : MBind M :=
  λ A B f m h, match m h with Ok (a, h') => f a h' | Raise e => Raise e end.

Definition raise {A : Type} (e : exn) : M A := λ _, Raise e.

(** [a.copy()]: a fresh reference holding the same samples. *)
Definition ndarray_copy (a : loc) : M loc :=
  λ h, match h !! a with
       | Some v => let l := fresh (dom h) in Ok (l, <[l := v]> h)
       | None => Raise NameError
       end.

(** [a.shape[0]] *)
Definition shape0 (a : loc) : M nat :=
  λ h, match h !! a with
       | Some v => Ok (length v, h)
       | None => Raise NameError
       end.

(** [a[i]] for a natural index [i] *)
Definition getitem (a : loc) (i : nat) : M image :=
  λ h, match h !! a with
       | Some v =>
           match v !! i with
           | Some x => Ok (x, h)
           | None => Raise IndexError
           end
       | None => Raise NameError
       end.

(** [a[i] = x], in place *)
Definition setitem (a : loc) (i : nat) (x : image) : M unit :=
  λ h, match h !! a with
       | Some v =>
           if decide (i < length v) then Ok (tt, <[a := <[i := x]> v]> h)
           else Raise IndexError
       | None => Raise NameError
       end.

Fixpoint for_each {A : Type} (l : list A) (body : A → M unit) : M unit :=
  match l with
  | [] => mret tt
  | i :: l => body i;; for_each l body
  end.

(** ** reconstruct_gg_areas *)

Definition reconstruct_gg_areas (mask : loc) : M loc :=
  first ← ndarray_copy mask;
  second ← ndarray_copy mask;
  reconstructed ← ndarray_copy mask;
  n ← shape0 first;
  for_each (seq 0 (n - 1)) (λ i,
    a ← getitem first i;
    b ← getitem first (i + 1);
    setitem first (i + 1) (bitwise_or a b));;
  n ← shape0 second;
  for_each (reverse (seq 1 (n - 1))) (λ i,
    a ← getitem second (i - 1);
    b ← getitem second i;
    setitem second (i - 1) (bitwise_or a b));;
  n ← shape0 reconstructed;
  for_each (seq 0 n) (λ i,
    a ← getitem first i;
    b ← getitem second i;
    setitem reconstructed i (bitwise_and a b));;
  mret reconstructed.

(** The same call on a value: the store holds the argument alone, and the
    result is read back together with the final content of the argument. *)
Definition run_reconstruct (mask : volume) : result (volume * volume) :=
  match reconstruct_gg_areas 1%positive {[ 1%positive := mask ]} with
  | Ok (l, h) =>
      match h !! l, h !! 1%positive with
      | Some out, Some mask' => Ok (out, mask')
      | _, _ => Raise NameError
      end
  | Raise e => Raise e
  end.

(** ** bit_plane_slices *)

(** Modelled from the spec: [gl2bit] lives in [CTLungSeg.method], outside
    the sources at hand.  It decomposes every sample of an 8-bit stack into
    its 8 binary planes, ordered from the most significant bit (plane 0) to
    the least significant one (plane 7). *)
Definition gl2bit (stack : volume) : list volume :=
  (λ k, vmap (λ x, Z.b2z (Z.testbit x (7 - Z.of_nat k))) stack) <$> seq 0 8.

(** [binary[k]] for one integer [k] of an index array: negative indices
    count from the end, anything outside [-len, len) is an [IndexError]. *)
Definition take_index {A : Type} (l : list A) (k : Z) : result A :=
  let n := Z.of_nat (length l) in
  let k' := if decide (k < 0)%Z then (k + n)%Z else k in
  if decide (0 ≤ k' < n)%Z then
    match l !! Z.to_nat k' with
    | Some x => Ok x
    | None => Raise IndexError
    end
  else Raise IndexError.

(** [a.reshape(3, 1, 1, 1)]: only an array of three elements fits. *)
Definition reshape_3111 (a : list Z) : result (list Z) :=
  if decide (length a = 3) then Ok a else Raise ValueError.

Definition vzip (f : Z → Z → Z) (u v : volume) : volume :=
  zip_with (izip f) u v.

(** [np.sum(planes, axis=0)] *)
Definition sum_axis0 (planes : list volume) : volume :=
  match planes with
  | [] => []
  | p :: ps => foldl (vzip Z.add) p ps
  end.

(** [binary[idx, ...]] for an index array [idx]: an empty tuple of
    positions makes a float array, which numpy refuses as an index. *)
Definition take_indices {A : Type} (l : list A) (idx : list Z)
  : result (list A) :=
  match idx with
  | [] => Raise IndexError
  | _ => mapM (take_index l) idx
  end.

Definition bit_plane_slices (stack : volume) (bits : list Z)
  : result volume :=
  let binary := gl2bit stack in
  selection ← take_indices binary ((λ b, 8 - b)%Z <$> bits);
  significance ← reshape_3111 ((λ i, 2 ^ (i - 1))%Z <$> bits);
  let weighted :=
    zip_with (λ plane s, vmap (λ x, x * s)%Z plane) selection significance in
  mret (vmap np_uint8 (sum_axis0 weighted)).

(** ** The sweeps of the gap reconstruction, slice by slice

    [or_upto v j] is the OR of slices 0..j, [or_from v j] the OR of slices
    j..last; the swept stacks hold them at index j, and the merge is their
    slice-wise AND. *)

Fixpoint or_upto (v : volume) (j : nat) : image :=
  match j with
  | 0 => v !!! 0
  | S j' => bitwise_or (or_upto v j') (v !!! j)
  end.

Fixpoint or_from_dist (v : volume) (j d : nat) : image :=
  match d with
  | 0 => v !!! j
  | S d' => bitwise_or (v !!! j) (or_from_dist v (S j) d')
  end.
Definition or_from (v : volume) (j : nat) : image :=
  or_from_dist v j (length v - 1 - j).

Definition forward_swept (v : volume) : volume :=
  imap (λ j _, or_upto v j) v.
Definition backward_swept (v : volume) : volume :=
  imap (λ j _, or_from v j) v.
Definition merged (v : volume) : volume :=
  zip_with bitwise_and (forward_swept v) (backward_swept v).

(** One iteration of each loop of [reconstruct_gg_areas], on the array it
    writes. *)
Definition forward_step (i : nat) (u : volume) : volume :=
  <[i + 1 := bitwise_or (u !!! i) (u !!! (i + 1))]> u.
Definition backward_step (i : nat) (u : volume) : volume :=
  <[i - 1 := bitwise_or (u !!! (i - 1)) (u !!! i)]> u.
Definition merge_step (f s : volume) (i : nat) (u : volume) : volume :=
  <[i := bitwise_and (f !!! i) (s !!! i)]> u.

(** What a call leaves in the store [h'], started in [h] on the array [v]:
    three fresh arrays, the forward-swept one at [first], the
    backward-swept one at [second] and the returned merge at [out], and
    every array of [h] as it was. *)
Record reconstruct_post (h : store) (v : volume) (first second out : loc)
    (h' : store) : Prop :=
  { post_fresh : (first ∉ dom h) ∧ (second ∉ dom h) ∧ (out ∉ dom h);
    post_distinct : first ≠ second ∧ first ≠ out ∧ second ≠ out;
    post_first_is : h' !! first = Some (forward_swept v);
    post_second_is : h' !! second = Some (backward_swept v);
    post_out_is : h' !! out = Some (merged v);
    post_frame : ∀ l, l ∈ dom h → h' !! l = h !! l }.

(** No gaps along the slice axis: between two slices that are foreground at
    a pixel, every slice is foreground at that pixel. *)
Definition no_gaps (v : volume) : Prop :=
  ∀ r c j i j', j ≤ i → i ≤ j' →
    foreground v j r c → foreground v j' r c → foreground v i r c.

(** The same with every index bounded by the array, which can be checked
    by evaluation. *)
Definition no_gaps_bounded (v : volume) : Prop :=
  let n := length v in
  Forall (λ j, Forall (λ j', Forall (λ i,
    j ≤ i → i ≤ j' →
    Forall (λ r, Forall (λ c,
      foreground v j r c → foreground v j' r c → foreground v i r c)
      (seq 0 (length ((v !!! j) !!! r))))
      (seq 0 (length (v !!! j))))
    (seq 0 n)) (seq 0 n)) (seq 0 n).

(** ** Minimum and maximum of a column, as the spec words them *)

Definition is_min (x : Z) (l : list Z) : Prop :=
  x ∈ l ∧ ∀ y, y ∈ l → (x ≤ y)%Z.
Definition is_max (x : Z) (l : list Z) : Prop :=
  x ∈ l ∧ ∀ y, y ∈ l → (y ≤ x)%Z.

(** The rows of a table that are not the background row. *)
Definition foreground_rows (stats : DataFrame) : DataFrame :=
  filter (λ r, r.1 ≠ 0%Z) stats.

(** Erasing the labels [js] from a label map, one after the other, as the
    inner loop of [remove_spots] does. *)
Definition erase_labels (js : list Z) (a : image) : image :=
  foldl (λ a j, set_where_eq j 0%Z a) a js.

(** The labels [remove_spots] erases from a slice with table [stat]. *)
Definition small_labels (area : Z) (stat : DataFrame) : list Z :=
  df_index (query_AREA_lt area stat).

#[global] Instance slice_contract_dec a lab stat :
  Decision (slice_contract a lab stat).
Proof. unfold slice_contract. apply _. Defined.
#[global] Instance analyzer_contract_dec img out :
  Decision (analyzer_contract img out).
Proof. unfold analyzer_contract. apply _. Defined.

(** ** Top-N selection, as the spec words it *)

(** No two regions of the slice have the same AREA. *)
Definition distinct_areas (stat : DataFrame) : Prop :=
  NoDup (column AREA (foreground_rows stat)).

#[global] Instance distinct_areas_dec stat : Decision (distinct_areas stat).
Proof. unfold distinct_areas. apply _. Defined.

(** The labels of the [n_reg] regions of largest AREA. *)
Definition largest_labels (n_reg : Z) (stat : DataFrame) : list Z :=
  df_index (take (Z.to_nat n_reg)
              (sort_values_AREA_desc (foreground_rows stat))).

(** The label the [i]-th pass of the selection loop looks for, after the
    cast to uint8. *)
Definition pass_label (sorted : DataFrame) (i : nat) : Z :=
  np_uint8 (default 0%Z (fst <$> sorted !! i)).

(** ** Sample inputs

    One slice with two isolated pixels, its label map and statistics as the
    analyzer gives them; and a stack of a slice with a two-pixel and a
    one-pixel region followed by an empty slice. *)

Definition two_spots : volume :=
  [ [ [255; 0]; [0; 0]; [0; 255] ] ]%Z.
Definition two_spots_analysis : list image * list DataFrame :=
  ( [ [ [1; 0]; [0; 0]; [0; 2] ] ]%Z,
    [ [ (0, {| LEFT := 0; TOP := 0; WIDTH := 2; HEIGHT := 3; AREA := 4 |});
        (1, {| LEFT := 0; TOP := 0; WIDTH := 1; HEIGHT := 1; AREA := 1 |});
        (2, {| LEFT := 1; TOP := 2; WIDTH := 1; HEIGHT := 1; AREA := 1 |})
      ] ]%Z ).

Definition ones_stack : volume :=
  [ [ [1; 1; 0; 1] ]; [ [0; 0; 0; 0] ] ]%Z.
Definition ones_stack_analysis : list image * list DataFrame :=
  ( [ [ [1; 1; 0; 2] ]; [ [0; 0; 0; 0] ] ]%Z,
    [ [ (0, {| LEFT := 2; TOP := 0; WIDTH := 1; HEIGHT := 1; AREA := 1 |});
        (1, {| LEFT := 0; TOP := 0; WIDTH := 2; HEIGHT := 1; AREA := 2 |});
        (2, {| LEFT := 3; TOP := 0; WIDTH := 1; HEIGHT := 1; AREA := 1 |}) ];
      [ (0, {| LEFT := 0; TOP := 0; WIDTH := 4; HEIGHT := 1; AREA := 4 |}) ]
    ]%Z ).

(** The passes of the selection loop for labels [js], on the label map. *)
Definition mark_labels (js : list Z) (lab : image) : image :=
  foldl (λ lab j, set_where_eq j 255%Z lab) lab js.

(** What [select_slice] computes when every pass finds one label. *)
Definition selected_slice (n_reg : Z) (sl : DataFrame * image) : image :=
  let sorted := sort_values_AREA_desc (foreground_rows sl.1) in
  if decide (Z.of_nat (length sorted) > n_reg - 1)%Z
  then set_where_ne 255 0 (mark_labels (pass_label sorted <$> range n_reg) sl.2)
  else set_where_ne 0 0 sl.2.

(** ** Bit planes, sample by sample *)

(** The contribution of bit position [b] to a sample [x]: the plane picked
    by the index [8 - b] (counted from the end when negative), times the
    weight [2^(b-1)]. *)
Definition weighted_bit (b x : Z) : Z :=
  (Z.b2z (Z.testbit x (7 - (8 - b) `mod` 8)) * 2 ^ (b - 1))%Z.

(** ** Connected regions

    A region is a maximal connected set of foreground pixels.  Which pixels
    count as neighbours (4 or 8 of them) is the analyzer's choice, so the
    neighbourhood is a parameter; [adjacent8] is OpenCV's default. *)

Abbreviation pixel := (nat * nat)%type.

Definition fg_at (a : image) (p : pixel) : Prop :=
  ∃ x, pix a p.1 p.2 = Some x ∧ x ≠ 0%Z.

#[global] Instance fg_at_dec a p : Decision (fg_at a p).
Proof.
  unfold fg_at. destruct (pix a p.1 p.2) as [x|].
  - destruct (decide (x = 0%Z)) as [E|E].
    + right. intros (y & Hy & Hne). congruence.
    + left. eauto.
  - right. intros (y & Hy & Hne). congruence.
Defined.

Definition adjacent8 (p q : pixel) : Prop :=
  p ≠ q ∧ p.1 ≤ q.1 + 1 ∧ q.1 ≤ p.1 + 1 ∧ p.2 ≤ q.2 + 1 ∧ q.2 ≤ p.2 + 1.

#[global] Instance adjacent8_dec p q : Decision (adjacent8 p q).
Proof. unfold adjacent8. apply _. Defined.

(** Two neighbouring foreground pixels, and the pixels joined by a chain of
    such pairs. *)
Definition linked (adj : relation pixel) (a : image) (p q : pixel) : Prop :=
  adj p q ∧ fg_at a p ∧ fg_at a q.
Definition connected (adj : relation pixel) (a : image) : relation pixel :=
  rtc (linked adj a).

(** Modelled from the spec: the label map of the analyzer gives two
    foreground pixels the same label exactly when they lie in one region. *)
Definition labels_are_components (adj : relation pixel) (a lab : image)
  : Prop :=
  ∀ p q, fg_at a p → fg_at a q →
    (pix lab p.1 p.2 = pix lab q.1 q.2 ↔ connected adj a p q).

(** A check of it by evaluation, for label maps whose regions are so small
    that any two of their pixels are neighbours. *)
Definition positions (a : image) : list pixel :=
  mjoin (imap (λ r row, pair r <$> seq 0 (length row)) a).

Definition components_check (adj : relation pixel) (a lab : image) : Prop :=
  Forall (λ p, Forall (λ q,
    fg_at a p → fg_at a q →
    (adj p q → pix lab p.1 p.2 = pix lab q.1 q.2)
    ∧ (pix lab p.1 p.2 = pix lab q.1 q.2 → p = q ∨ adj p q))
    (positions a)) (positions a).

#[global] Instance components_check_dec adj `{∀ p q, Decision (adj p q)}
    a lab : Decision (components_check adj a lab).
Proof. unfold components_check. apply _. Defined.


(** ** Bit planes of a stack *)

(** Bit [k] of the sample at slice [i], pixel [(r, c)], is set. *)
Definition bit_at (v : volume) (i r c : nat) (k : Z) : Prop :=
  ∃ y, voxel v i r c = Some y ∧ Z.testbit y k = true.

(** The foreground of [v] lies within the foreground of [w]. *)
Definition foreground_within (v w : volume) : Prop :=
  ∀ i r c, foreground v i r c → foreground w i r c.

(** Every corner a region of the table contributes fits a signed 16-bit
    integer. *)
Definition corners_fit_int16 (stats : DataFrame) : Prop :=
  Forall (λ r : Z * stat_row,
            (-32768 ≤ LEFT r.2 < 32768)%Z
            ∧ (-32768 ≤ TOP r.2 < 32768)%Z
            ∧ (-32768 ≤ LEFT r.2 + WIDTH r.2 < 32768)%Z
            ∧ (-32768 ≤ TOP r.2 + HEIGHT r.2 < 32768)%Z)
         (foreground_rows stats).

#[global] Instance corners_fit_int16_dec stats :
  Decision (corners_fit_int16 stats).
Proof. unfold corners_fit_int16. apply _. Defined.

(** ** A sample analyzer

    The analysis of [ones_stack] and, for any other stack, the analysis of
    what [remove_spots] leaves of it with [area = 2]: the two-pixel region
    alone. *)
Definition ones_stack_analyzer (v : volume) : list image * list DataFrame :=
  if decide (v = ones_stack) then ones_stack_analysis
  else
    ( [ [ [1; 1; 0; 0] ]; [ [0; 0; 0; 0] ] ]%Z,
      [ [ (0, {| LEFT := 2; TOP := 0; WIDTH := 2; HEIGHT := 1; AREA := 2 |});
          (1, {| LEFT := 0; TOP := 0; WIDTH := 2; HEIGHT := 1; AREA := 2 |})
        ];
        [ (0, {| LEFT := 0; TOP := 0; WIDTH := 4; HEIGHT := 1; AREA := 4 |}) ]
      ]%Z ).

(** * Verification *)

(** ** Arrays: shapes and samples *)

Lemma izip_is_image f h w a b :
  is_image h w a → is_image h w b → is_image h w (izip f a b).
Proof.
  intros [Ha Hra] [Hb Hrb]. split.
  - unfold izip. rewrite length_zip_with. lia.
  - apply Forall_forall. intros row Hrow.
    apply list_elem_of_lookup in Hrow as [r Hr].
    unfold izip in Hr. rewrite lookup_zip_with in Hr.
    destruct (a !! r) as [x|] eqn:Hx; simpl in Hr; [|done].
    destruct (b !! r) as [y|] eqn:Hy; simpl in Hr; [|done].
    injection Hr as <-.
    rewrite length_zip_with.
    rewrite (Forall_lookup_1 _ _ _ _ Hra Hx), (Forall_lookup_1 _ _ _ _ Hrb Hy).
    lia.
Qed.

Lemma pix_is_Some h w a r c :
  is_image h w a → r < h → c < w → is_Some (pix a r c).
Proof.
  intros [Ha Hra] Hr Hc. unfold pix.
  destruct (lookup_lt_is_Some_2 a r) as [row Hrow]; [lia|].
  rewrite Hrow. simpl. apply lookup_lt_is_Some_2.
  rewrite (Forall_lookup_1 _ _ _ _ Hra Hrow). lia.
Qed.

Lemma pix_izip f a b r c :
  pix (izip f a b) r c = (x ← pix a r c; y ← pix b r c; Some (f x y)).
Proof.
  unfold pix, izip. rewrite lookup_zip_with.
  destruct (a !! r) as [ra|]; [|done]. simpl.
  destruct (b !! r) as [rb|]; simpl.
  - rewrite lookup_zip_with. by destruct (ra !! c).
  - by destruct (ra !! c).
Qed.

Lemma pix_ext h w a b :
  is_image h w a → is_image h w b →
  (∀ r c, r < h → c < w → pix a r c = pix b r c) → a = b.
Proof.
  intros [Ha Hra] [Hb Hrb] Hpix.
  apply (list_eq_same_length _ _ h); [done..|].
  intros r x y Hr Hx Hy.
  apply (list_eq_same_length _ _ w).
  - apply (Forall_lookup_1 _ _ _ _ Hrb Hy).
  - apply (Forall_lookup_1 _ _ _ _ Hra Hx).
  - intros c p q Hc Hp Hq. specialize (Hpix r c Hr Hc).
    unfold pix in Hpix. rewrite Hx, Hy in Hpix. simpl in Hpix. congruence.
Qed.

Lemma is_volume_lookup n h w v i :
  is_volume n h w v → i < n → v !! i = Some (v !!! i) ∧ is_image h w (v !!! i).
Proof.
  intros [Hn Hv] Hi.
  assert (v !! i = Some (v !!! i)) as E
    by (apply list_lookup_lookup_total_lt; lia).
  split; [done|]. apply (Forall_lookup_1 _ _ _ _ Hv E).
Qed.

(** ** The three loops, on the array they write *)

Lemma forward_fold_inv (v : volume) k :
  k ≤ length v - 1 →
  let u := foldl (λ u i, forward_step i u) v (seq 0 k) in
  length u = length v
  ∧ ∀ j, j < length v →
      u !!! j = if decide (j ≤ k) then or_upto v j else v !!! j.
Proof.
  induction k as [|k IH]; intros Hk; cbv zeta.
  - simpl. split; [done|]. intros j Hj. case_decide; [|done].
    by replace j with 0 by lia.
  - rewrite seq_S, foldl_app. simpl.
    destruct IH as [Hlen IH]; [lia|].
    set (u := foldl (λ u i, forward_step i u) v (seq 0 k)) in *.
    unfold forward_step. split; [by rewrite length_insert|].
    intros j Hj. rewrite list_lookup_total_insert.
    case_decide as Hd.
    + destruct Hd as [<- _]. rewrite decide_True by lia.
      rewrite !IH by lia. rewrite decide_True by lia.
      rewrite decide_False by lia. by replace (k + 1) with (S k) by lia.
    + rewrite IH by done. repeat case_decide; try done; lia.
Qed.

Lemma forward_fold (v : volume) :
  foldl (λ u i, forward_step i u) v (seq 0 (length v - 1)) = forward_swept v.
Proof.
  destruct (forward_fold_inv v (length v - 1)) as [Hlen Hu]; [done|].
  apply (list_eq_same_length _ _ (length v)); [|done|].
  - unfold forward_swept. by rewrite length_imap.
  - intros j x y Hj Hx Hy.
    apply list_lookup_total_correct in Hx. rewrite Hu in Hx by done.
    rewrite decide_True in Hx by lia.
    unfold forward_swept in Hy. rewrite list_lookup_imap in Hy.
    destruct (v !! j); simpl in Hy; congruence.
Qed.

Lemma backward_fold_inv (v : volume) k : ∀ m,
  m + k = length v - 1 →
  let u := foldl (λ u i, backward_step i u) v (reverse (seq (m + 1) k)) in
  length u = length v
  ∧ ∀ j, j < length v →
      u !!! j = if decide (m ≤ j) then or_from v j else v !!! j.
Proof.
  induction k as [|k IH]; intros m Hm; cbv zeta.
  - simpl. split; [done|]. intros j Hj. case_decide; [|done].
    unfold or_from. by replace (length v - 1 - j) with 0 by lia.
  - rewrite <- cons_seq, reverse_cons, foldl_app. simpl.
    destruct (IH (m + 1)) as [Hlen Hu]; [lia|].
    replace (S (m + 1)) with (m + 1 + 1) by lia.
    set (u := foldl (λ u i, backward_step i u) v
                (reverse (seq (m + 1 + 1) k))) in *.
    unfold backward_step. replace (m + 1 - 1) with m by lia.
    split; [by rewrite length_insert|].
    intros j Hj. rewrite list_lookup_total_insert.
    case_decide as Hd.
    + destruct Hd as [<- _]. rewrite decide_True by lia.
      rewrite !Hu by lia. rewrite decide_False by lia.
      rewrite decide_True by lia. unfold or_from.
      replace (length v - 1 - m) with (S (length v - 1 - (m + 1))) by lia.
      simpl. by replace (S m) with (m + 1) by lia.
    + rewrite Hu by done. repeat case_decide; try done; lia.
Qed.

Lemma backward_fold (v : volume) :
  foldl (λ u i, backward_step i u) v (reverse (seq 1 (length v - 1)))
  = backward_swept v.
Proof.
  pose proof (backward_fold_inv v (length v - 1) 0) as H.
  cbv zeta in H. change (0 + 1) with 1 in H.
  destruct H as [Hlen Hu]; [lia|].
  apply (list_eq_same_length _ _ (length v)); [|done|].
  - unfold backward_swept. by rewrite length_imap.
  - intros j x y Hj Hx Hy.
    apply list_lookup_total_correct in Hx. rewrite Hu in Hx by done.
    rewrite decide_True in Hx by lia.
    unfold backward_swept in Hy. rewrite list_lookup_imap in Hy.
    destruct (v !! j); simpl in Hy; congruence.
Qed.

Lemma merge_fold_inv (f s v : volume) k :
  k ≤ length v →
  let u := foldl (λ u i, merge_step f s i u) v (seq 0 k) in
  length u = length v
  ∧ ∀ j, j < length v →
      u !!! j = if decide (j < k) then bitwise_and (f !!! j) (s !!! j)
                else v !!! j.
Proof.
  induction k as [|k IH]; intros Hk; cbv zeta.
  - split; [done|]. intros j Hj. destruct (decide (j < 0)); [lia|done].
  - rewrite seq_S, foldl_app. simpl.
    destruct IH as [Hlen IH]; [lia|].
    set (u := foldl (λ u i, merge_step f s i u) v (seq 0 k)) in *.
    unfold merge_step. split; [by rewrite length_insert|].
    intros j Hj. rewrite list_lookup_total_insert.
    case_decide as Hd.
    + destruct Hd as [<- _]. by rewrite decide_True by lia.
    + rewrite IH by done. repeat case_decide; try done; lia.
Qed.

Lemma merge_fold (f s v : volume) :
  length f = length v → length s = length v →
  foldl (λ u i, merge_step f s i u) v (seq 0 (length v))
  = zip_with bitwise_and f s.
Proof.
  intros Hf Hs.
  destruct (merge_fold_inv f s v (length v)) as [Hlen Hu]; [done|].
  apply (list_eq_same_length _ _ (length v)); [|done|].
  - rewrite length_zip_with. lia.
  - intros j x y Hj Hx Hy.
    apply list_lookup_total_correct in Hx. rewrite Hu in Hx by done.
    rewrite decide_True in Hx by lia.
    rewrite lookup_zip_with in Hy.
    rewrite (list_lookup_lookup_total_lt f j) in Hy by lia.
    rewrite (list_lookup_lookup_total_lt s j) in Hy by lia.
    simpl in Hy. congruence.
Qed.

(** ** The loops in the store *)

Lemma for_each_fold (l : loc) (body : nat → M unit)
    (step : nat → volume → volume) (P : store → Prop) (bound : nat → nat)
    (n : nat) :
  (∀ i u, length (step i u) = length u) →
  (∀ (h : store) u, P h → P (<[l := u]> h)) →
  (∀ i (h : store) u, P h → h !! l = Some u → length u = n → bound i < n →
     body i h = Ok (tt, <[l := step i u]> h)) →
  ∀ idxs (h : store) u,
    P h → h !! l = Some u → length u = n →
    Forall (λ i, bound i < n) idxs →
    for_each idxs body h
    = Ok (tt, <[l := foldl (λ u i, step i u) u idxs]> h).
Proof.
  intros Hlen HP Hbody idxs.
  induction idxs as [|i idxs IH]; intros h u Hh Hu Hn Hall; simpl.
  - unfold mret, M_ret. by rewrite insert_id.
  - apply Forall_cons in Hall as [Hi Hall].
    unfold mbind, M_bind. rewrite (Hbody i h u) by done.
    rewrite (IH (<[l := step i u]> h) (step i u)).
    + by rewrite insert_insert_eq.
    + by apply HP.
    + apply lookup_insert_eq.
    + by rewrite Hlen.
    + done.
Qed.

Lemma forward_body (first : loc) i (h : store) u :
  h !! first = Some u → i + 1 < length u →
  (a ← getitem first i; b ← getitem first (i + 1);
   setitem first (i + 1) (bitwise_or a b)) h
  = Ok (tt, <[first := forward_step i u]> h).
Proof.
  intros Hu Hi. unfold mbind, M_bind, getitem, setitem. rewrite Hu.
  rewrite (list_lookup_lookup_total_lt u i) by lia.
  rewrite Hu. rewrite (list_lookup_lookup_total_lt u (i + 1)) by lia.
  rewrite Hu. by rewrite decide_True by lia.
Qed.

Lemma backward_body (second : loc) i (h : store) u :
  h !! second = Some u → i < length u →
  (a ← getitem second (i - 1); b ← getitem second i;
   setitem second (i - 1) (bitwise_or a b)) h
  = Ok (tt, <[second := backward_step i u]> h).
Proof.
  intros Hu Hi. unfold mbind, M_bind, getitem, setitem. rewrite Hu.
  rewrite (list_lookup_lookup_total_lt u (i - 1)) by lia.
  rewrite Hu. rewrite (list_lookup_lookup_total_lt u i) by lia.
  rewrite Hu. by rewrite decide_True by lia.
Qed.

Lemma merge_body (first second out : loc) f s i (h : store) u :
  h !! first = Some f → h !! second = Some s → h !! out = Some u →
  i < length f → i < length s → i < length u →
  (a ← getitem first i; b ← getitem second i;
   setitem out i (bitwise_and a b)) h
  = Ok (tt, <[out := merge_step f s i u]> h).
Proof.
  intros Hf Hs Hu Hif His Hiu.
  unfold mbind, M_bind, getitem, setitem. rewrite Hf.
  rewrite (list_lookup_lookup_total_lt f i) by lia.
  rewrite Hs. rewrite (list_lookup_lookup_total_lt s i) by lia.
  rewrite Hu. by rewrite decide_True by lia.
Qed.

Lemma forward_loop (first : loc) (h : store) v :
  h !! first = Some v →
  for_each (seq 0 (length v - 1)) (λ i,
    a ← getitem first i; b ← getitem first (i + 1);
    setitem first (i + 1) (bitwise_or a b)) h
  = Ok (tt, <[first := forward_swept v]> h).
Proof.
  intros Hv. rewrite <- forward_fold.
  apply (for_each_fold first _ forward_step (λ _, True) (λ i, i + 1)
           (length v)); try done.
  - intros. unfold forward_step. by rewrite length_insert.
  - intros i h' u _ Hu Hn Hi. apply forward_body; [done|lia].
  - apply Forall_forall. intros i Hi. apply elem_of_seq in Hi. lia.
Qed.

Lemma backward_loop (second : loc) (h : store) v :
  h !! second = Some v →
  for_each (reverse (seq 1 (length v - 1))) (λ i,
    a ← getitem second (i - 1); b ← getitem second i;
    setitem second (i - 1) (bitwise_or a b)) h
  = Ok (tt, <[second := backward_swept v]> h).
Proof.
  intros Hv. rewrite <- backward_fold.
  apply (for_each_fold second _ backward_step (λ _, True) (λ i, i)
           (length v)); try done.
  - intros. unfold backward_step. by rewrite length_insert.
  - intros i h' u _ Hu Hn Hi. apply backward_body; [done|lia].
  - apply Forall_forall. intros i Hi.
    apply elem_of_reverse, elem_of_seq in Hi. lia.
Qed.

Lemma merge_loop (first second out : loc) (h : store) f s v :
  first ≠ out → second ≠ out →
  h !! first = Some f → h !! second = Some s → h !! out = Some v →
  length f = length v → length s = length v →
  for_each (seq 0 (length v)) (λ i,
    a ← getitem first i; b ← getitem second i;
    setitem out i (bitwise_and a b)) h
  = Ok (tt, <[out := zip_with bitwise_and f s]> h).
Proof.
  intros Hfo Hso Hf Hs Hv Hlf Hls. rewrite <- (merge_fold f s v) by done.
  apply (for_each_fold out _ (merge_step f s)
           (λ h : store, h !! first = Some f ∧ h !! second = Some s)
           (λ i, i) (length v)); try done.
  - intros. unfold merge_step. by rewrite length_insert.
  - intros h' u [??]. by rewrite !lookup_insert_ne.
  - intros i h' u [??] Hu Hn Hi. apply merge_body; try done; lia.
  - apply Forall_forall. intros i Hi. apply elem_of_seq in Hi. lia.
Qed.

Lemma bind_Ok {A B : Type} (m : M A) (f : A → M B) (h h' : store) a :
  m h = Ok (a, h') → (m ≫= f) h = f a h'.
Proof. intros E. unfold mbind, M_bind. by rewrite E. Qed.

Lemma ndarray_copy_Ok (a : loc) (h : store) v :
  h !! a = Some v →
  ndarray_copy a h = Ok (fresh (dom h), <[fresh (dom h) := v]> h).
Proof. intros E. unfold ndarray_copy. by rewrite E. Qed.

Lemma shape0_Ok (a : loc) (h : store) v :
  h !! a = Some v → shape0 a h = Ok (length v, h).
Proof. intros E. unfold shape0. by rewrite E. Qed.

(** A call on a stored array runs to completion and leaves the store as
    [reconstruct_post] describes. *)
Lemma reconstruct_gg_areas_run (h : store) (mask : loc) v :
  h !! mask = Some v →
  ∃ first second out h',
    reconstruct_gg_areas mask h = Ok (out, h')
    ∧ reconstruct_post h v first second out h'.
Proof.
  intros Hv.
  set (l1 := fresh (dom h)).
  set (h1 := <[l1 := v]> h).
  set (l2 := fresh (dom h1)).
  set (h2 := <[l2 := v]> h1).
  set (l3 := fresh (dom h2)).
  set (h3 := <[l3 := v]> h2).
  assert (l1 ∉ dom h) as F1 by apply is_fresh.
  assert (l2 ∉ dom h1) as F2 by apply is_fresh.
  assert (l3 ∉ dom h2) as F3 by apply is_fresh.
  assert (mask ∈ dom h) as Dm by (apply elem_of_dom; eauto).
  unfold h2 in F3. unfold h1 in F2, F3. rewrite !dom_insert_L in F2, F3.
  assert (l1 ≠ mask) by set_solver.
  assert (l2 ≠ mask) by set_solver.
  assert (l3 ≠ mask) by set_solver.
  assert (l1 ≠ l2) by set_solver.
  assert (l1 ≠ l3) by set_solver.
  assert (l2 ≠ l3) by set_solver.
  set (f := forward_swept v). set (s := backward_swept v).
  set (h4 := <[l1 := f]> h3).
  set (h5 := <[l2 := s]> h4).
  set (h6 := <[l3 := zip_with bitwise_and f s]> h5).
  exists l1, l2, l3, h6. split.
  - unfold reconstruct_gg_areas.
    rewrite (bind_Ok _ _ h h1 l1) by by apply ndarray_copy_Ok.
    rewrite (bind_Ok _ _ h1 h2 l2).
    2:{ apply ndarray_copy_Ok. unfold h1. by rewrite lookup_insert_ne. }
    rewrite (bind_Ok _ _ h2 h3 l3).
    2:{ apply ndarray_copy_Ok. unfold h2, h1. by rewrite !lookup_insert_ne. }
    assert (h3 !! l1 = Some v) as E1.
    { unfold h3, h2, h1. rewrite !lookup_insert_ne by done.
      apply lookup_insert_eq. }
    rewrite (bind_Ok _ _ h3 h3 (length v)) by by apply shape0_Ok.
    rewrite (bind_Ok _ _ h3 h4 tt) by by apply forward_loop.
    assert (h4 !! l2 = Some v) as E2.
    { unfold h4, h3, h2. rewrite !lookup_insert_ne by done.
      apply lookup_insert_eq. }
    rewrite (bind_Ok _ _ h4 h4 (length v)) by by apply shape0_Ok.
    rewrite (bind_Ok _ _ h4 h5 tt) by by apply backward_loop.
    assert (h5 !! l3 = Some v) as E3.
    { unfold h5, h4, h3. rewrite !lookup_insert_ne by done.
      apply lookup_insert_eq. }
    rewrite (bind_Ok _ _ h5 h5 (length v)) by by apply shape0_Ok.
    rewrite (bind_Ok _ _ h5 h6 tt); [done|].
    apply merge_loop; try done.
    + unfold h5, h4. rewrite lookup_insert_ne by done. apply lookup_insert_eq.
    + unfold h5. apply lookup_insert_eq.
    + unfold f, forward_swept. by rewrite length_imap.
    + unfold s, backward_swept. by rewrite length_imap.
  - split.
    + set_solver.
    + done.
    + unfold h6, h5, h4. rewrite !lookup_insert_ne by done.
      apply lookup_insert_eq.
    + unfold h6, h5. rewrite lookup_insert_ne by done. apply lookup_insert_eq.
    + unfold h6. apply lookup_insert_eq.
    + intros l Hl. unfold h6, h5, h4, h3, h2, h1.
      rewrite !lookup_insert_ne; [done|set_solver..].
Qed.

(** ** The swept stacks, sample by sample *)

Lemma voxel_lookup_total n h w (v : volume) i r c :
  is_volume n h w v → i < n → voxel v i r c = pix (v !!! i) r c.
Proof.
  intros Hv Hi. unfold voxel.
  by rewrite (proj1 (is_volume_lookup n h w v i Hv Hi)).
Qed.

Lemma binary_pix fg (v : volume) n h w i r c x :
  is_volume n h w v → binary_volume fg v → i < n →
  pix (v !!! i) r c = Some x → x = 0%Z ∨ x = fg.
Proof.
  intros Hv Hb Hi Hx.
  destruct (is_volume_lookup n h w v i Hv Hi) as [E _].
  pose proof (Forall_lookup_1 _ _ _ _ Hb E) as Hbi.
  unfold pix in Hx. destruct ((v !!! i) !! r) as [row|] eqn:Hrow; [|done].
  simpl in Hx. pose proof (Forall_lookup_1 _ _ _ _ Hbi Hrow) as Hbr.
  apply (Forall_lookup_1 _ _ _ _ Hbr Hx).
Qed.

Lemma or_upto_is_image n h w (v : volume) j :
  is_volume n h w v → j < n → is_image h w (or_upto v j).
Proof.
  intros Hv. induction j as [|j IH]; intros Hj; simpl.
  - by apply (is_volume_lookup n h w v 0 Hv).
  - apply izip_is_image; [apply IH; lia|].
    by apply (is_volume_lookup n h w v (S j) Hv).
Qed.

Lemma or_from_dist_is_image n h w (v : volume) d : ∀ j,
  is_volume n h w v → j + d < n → is_image h w (or_from_dist v j d).
Proof.
  induction d as [|d IH]; intros j Hv Hj; simpl.
  - apply (is_volume_lookup n h w v j Hv). lia.
  - apply izip_is_image; [|apply IH; [done|lia]].
    apply (is_volume_lookup n h w v j Hv). lia.
Qed.

Lemma pix_or_upto n h w fg (v : volume) j r c :
  is_volume n h w v → j < n → r < h → c < w →
  ∃ x, pix (or_upto v j) r c = Some x
       ∧ (x ≠ 0%Z ↔ ∃ i, i ≤ j ∧ foreground v i r c)
       ∧ (binary_volume fg v → x = 0%Z ∨ x = fg).
Proof.
  intros Hv Hj Hr Hc. induction j as [|j IH]; simpl.
  - destruct (is_volume_lookup n h w v 0 Hv Hj) as [E Hi].
    destruct (pix_is_Some h w _ r c Hi Hr Hc) as [x Hx].
    exists x. split; [done|]. split; [split|].
    + intros Hne. exists 0. split; [done|]. exists x.
      by rewrite (voxel_lookup_total n h w).
    + intros (i & Hi0 & y & Hy & Hne). replace i with 0 in Hy by lia.
      rewrite (voxel_lookup_total n h w) in Hy by done. congruence.
    + intros Hb. by apply (binary_pix fg v n h w 0 r c).
  - destruct IH as (x & Hx & Hfg & Hbin); [lia|].
    destruct (is_volume_lookup n h w v (S j) Hv Hj) as [E Hi].
    destruct (pix_is_Some h w _ r c Hi Hr Hc) as [y Hy].
    exists (Z.lor x y). unfold bitwise_or. rewrite pix_izip, Hx, Hy.
    split; [done|]. split; [split|].
    + intros Hne. destruct (decide (x = 0%Z)) as [->|Hx0].
      * rewrite Z.lor_0_l in Hne. exists (S j). split; [done|]. exists y.
        by rewrite (voxel_lookup_total n h w).
      * apply Hfg in Hx0 as (i & Hi' & Hf). exists i. split; [lia|done].
    + intros (i & Hi' & Hf). rewrite Z.lor_eq_0_iff. intros [-> ->].
      destruct (decide (i = S j)) as [->|].
      * destruct Hf as (z & Hz & Hne).
        rewrite (voxel_lookup_total n h w) in Hz by done. congruence.
      * assert (0%Z ≠ 0%Z); [|done]. apply Hfg. exists i. split; [lia|done].
    + intros Hb.
      destruct (Hbin Hb) as [->| ->];
        destruct (binary_pix fg v n h w (S j) r c y Hv Hb Hj Hy) as [->| ->];
        rewrite ?Z.lor_0_l, ?Z.lor_0_r, ?Z.lor_diag; auto.
Qed.

Lemma pix_or_from_dist n h w fg (v : volume) d r c : ∀ j,
  is_volume n h w v → j + d < n → r < h → c < w →
  ∃ x, pix (or_from_dist v j d) r c = Some x
       ∧ (x ≠ 0%Z ↔ ∃ i, j ≤ i ≤ j + d ∧ foreground v i r c)
       ∧ (binary_volume fg v → x = 0%Z ∨ x = fg).
Proof.
  induction d as [|d IH]; intros j Hv Hj Hr Hc; simpl.
  - assert (j < n) as Hj' by lia.
    destruct (is_volume_lookup n h w v j Hv Hj') as [E Hi].
    destruct (pix_is_Some h w _ r c Hi Hr Hc) as [x Hx].
    exists x. split; [done|]. split; [split|].
    + intros Hne. exists j. split; [lia|]. exists x.
      by rewrite (voxel_lookup_total n h w).
    + intros (i & Hi0 & y & Hy & Hne). replace i with j in Hy by lia.
      rewrite (voxel_lookup_total n h w) in Hy by done. congruence.
    + intros Hb. by apply (binary_pix fg v n h w j r c).
  - destruct (IH (S j)) as (y & Hy & Hfg & Hbin); [done|lia|done..|].
    assert (j < n) as Hj' by lia.
    destruct (is_volume_lookup n h w v j Hv Hj') as [E Hi].
    destruct (pix_is_Some h w _ r c Hi Hr Hc) as [x Hx].
    exists (Z.lor x y). unfold bitwise_or. rewrite pix_izip, Hx, Hy.
    split; [done|]. split; [split|].
    + intros Hne. destruct (decide (y = 0%Z)) as [->|Hy0].
      * rewrite Z.lor_0_r in Hne. exists j. split; [lia|]. exists x.
        by rewrite (voxel_lookup_total n h w).
      * apply Hfg in Hy0 as (i & Hi' & Hf). exists i. split; [lia|done].
    + intros (i & Hi' & Hf). rewrite Z.lor_eq_0_iff. intros [-> ->].
      destruct (decide (i = j)) as [->|].
      * destruct Hf as (z & Hz & Hne).
        rewrite (voxel_lookup_total n h w) in Hz by done. congruence.
      * assert (0%Z ≠ 0%Z); [|done]. apply Hfg. exists i. split; [lia|done].
    + intros Hb.
      destruct (Hbin Hb) as [->| ->];
        destruct (binary_pix fg v n h w j r c x Hv Hb Hj' Hx) as [->| ->];
        rewrite ?Z.lor_0_l, ?Z.lor_0_r, ?Z.lor_diag; auto.
Qed.

Lemma foreground_lt n h w (v : volume) i r c :
  is_volume n h w v → foreground v i r c → i < n.
Proof.
  intros [Hn _] (x & Hx & _). unfold voxel in Hx.
  destruct (v !! i) eqn:E; [|done]. apply lookup_lt_Some in E. lia.
Qed.

Lemma pix_or_from n h w fg (v : volume) j r c :
  is_volume n h w v → j < n → r < h → c < w →
  ∃ x, pix (or_from v j) r c = Some x
       ∧ (x ≠ 0%Z ↔ ∃ i, j ≤ i ∧ foreground v i r c)
       ∧ (binary_volume fg v → x = 0%Z ∨ x = fg).
Proof.
  intros Hv Hj Hr Hc. unfold or_from.
  assert (length v = n) as Hn by apply Hv.
  destruct (pix_or_from_dist n h w fg v (length v - 1 - j) r c j)
    as (x & Hx & Hfg & Hbin); [done|lia|done..|].
  exists x. split; [done|]. split; [|done].
  rewrite Hfg. split.
  - intros (i & Hi & Hf). exists i. split; [lia|done].
  - intros (i & Hi & Hf). exists i. split; [|done].
    pose proof (foreground_lt n h w v i r c Hv Hf). lia.
Qed.

Lemma forward_swept_lookup n h w (v : volume) i :
  is_volume n h w v → i < n → forward_swept v !! i = Some (or_upto v i).
Proof.
  intros Hv Hi. unfold forward_swept. rewrite list_lookup_imap.
  by rewrite (proj1 (is_volume_lookup n h w v i Hv Hi)).
Qed.

Lemma backward_swept_lookup n h w (v : volume) i :
  is_volume n h w v → i < n → backward_swept v !! i = Some (or_from v i).
Proof.
  intros Hv Hi. unfold backward_swept. rewrite list_lookup_imap.
  by rewrite (proj1 (is_volume_lookup n h w v i Hv Hi)).
Qed.

Lemma merged_lookup n h w (v : volume) i :
  is_volume n h w v → i < n →
  merged v !! i = Some (bitwise_and (or_upto v i) (or_from v i)).
Proof.
  intros Hv Hi. unfold merged. rewrite lookup_zip_with.
  rewrite (forward_swept_lookup n h w), (backward_swept_lookup n h w) by done.
  done.
Qed.

Lemma or_from_is_image n h w (v : volume) j :
  is_volume n h w v → j < n → is_image h w (or_from v j).
Proof.
  intros Hv Hj. apply (or_from_dist_is_image n h w); [done|].
  destruct Hv as [Hn _]. lia.
Qed.

Lemma forward_swept_is_volume n h w (v : volume) :
  is_volume n h w v → is_volume n h w (forward_swept v).
Proof.
  intros Hv. assert (length v = n) as Hn by apply Hv. split.
  - unfold forward_swept. by rewrite length_imap.
  - apply Forall_lookup_2. intros i a Ha.
    assert (i < n) as Hi.
    { apply lookup_lt_Some in Ha. unfold forward_swept in Ha.
      rewrite length_imap in Ha. lia. }
    rewrite (forward_swept_lookup n h w) in Ha by done.
    injection Ha as <-. by apply (or_upto_is_image n).
Qed.

Lemma backward_swept_is_volume n h w (v : volume) :
  is_volume n h w v → is_volume n h w (backward_swept v).
Proof.
  intros Hv. assert (length v = n) as Hn by apply Hv. split.
  - unfold backward_swept. by rewrite length_imap.
  - apply Forall_lookup_2. intros i a Ha.
    assert (i < n) as Hi.
    { apply lookup_lt_Some in Ha. unfold backward_swept in Ha.
      rewrite length_imap in Ha. lia. }
    rewrite (backward_swept_lookup n h w) in Ha by done.
    injection Ha as <-. by apply (or_from_is_image n).
Qed.

Lemma merged_is_volume n h w (v : volume) :
  is_volume n h w v → is_volume n h w (merged v).
Proof.
  intros Hv. assert (length v = n) as Hn by apply Hv. split.
  - unfold merged, forward_swept, backward_swept.
    rewrite length_zip_with, !length_imap. lia.
  - apply Forall_lookup_2. intros i a Ha.
    assert (i < n) as Hi.
    { apply lookup_lt_Some in Ha. unfold merged, forward_swept in Ha.
      rewrite length_zip_with, length_imap in Ha. lia. }
    rewrite (merged_lookup n h w) in Ha by done.
    injection Ha as <-. apply izip_is_image.
    + by apply (or_upto_is_image n).
    + by apply (or_from_is_image n).
Qed.

(** ** Gap reconstruction: what a call computes *)

(** C2.  The call runs to completion; the forward-swept copy is
    foreground at (i, p) exactly when some slice j <= i is, the
    backward-swept copy exactly when some slice j' >= i is, and the
    returned array is their slice-wise bitwise AND.  On a mask, whose
    samples are 0 or one foreground value, the returned array is foreground
    at (i, p) exactly when some slice j <= i and some slice j' >= i are
    foreground at p; the "only if" half holds whatever the samples are. *)
Theorem reconstruct_gg_areas_foreground
    (h : store) (mask : loc) (v : volume) (n hh ww : nat) :
  h !! mask = Some v → is_volume n hh ww v →
  ∃ first second out h' f s m,
    reconstruct_gg_areas mask h = Ok (out, h')
    ∧ h' !! first = Some f ∧ h' !! second = Some s ∧ h' !! out = Some m
    ∧ m = zip_with bitwise_and f s
    ∧ ∀ i r c, i < n → r < hh → c < ww →
        (foreground f i r c ↔ ∃ j, j ≤ i ∧ foreground v j r c)
        ∧ (foreground s i r c ↔ ∃ j', i ≤ j' ∧ foreground v j' r c)
        ∧ (foreground m i r c →
             (∃ j, j ≤ i ∧ foreground v j r c)
             ∧ (∃ j', i ≤ j' ∧ foreground v j' r c))
        ∧ ∀ fg, binary_volume fg v →
            (foreground m i r c ↔
               (∃ j, j ≤ i ∧ foreground v j r c)
               ∧ (∃ j', i ≤ j' ∧ foreground v j' r c)).
Proof.
  intros Hm Hv.
  destruct (reconstruct_gg_areas_run h mask v Hm)
    as (first & second & out & h' & Hrun & Hpost).
  exists first, second, out, h', (forward_swept v), (backward_swept v),
    (merged v).
  destruct Hpost as [_ _ Hf Hs Ho _].
  do 5 (split; [done|]).
  intros i r c Hi Hr Hc.
  destruct (pix_or_upto n hh ww 0%Z v i r c Hv Hi Hr Hc)
    as (x & Hx & Hxfg & _).
  destruct (pix_or_from n hh ww 0%Z v i r c Hv Hi Hr Hc)
    as (y & Hy & Hyfg & _).
  assert (foreground (forward_swept v) i r c ↔ x ≠ 0%Z) as Ef.
  { unfold foreground, voxel.
    rewrite (forward_swept_lookup n hh ww) by done. simpl. rewrite Hx.
    split; [intros (? & [= <-] & ?); done|eauto]. }
  assert (foreground (backward_swept v) i r c ↔ y ≠ 0%Z) as Es.
  { unfold foreground, voxel.
    rewrite (backward_swept_lookup n hh ww) by done. simpl. rewrite Hy.
    split; [intros (? & [= <-] & ?); done|eauto]. }
  assert (foreground (merged v) i r c ↔ Z.land x y ≠ 0%Z) as Em.
  { unfold foreground, voxel. rewrite (merged_lookup n hh ww) by done. simpl.
    unfold bitwise_and. rewrite pix_izip, Hx, Hy. simpl.
    split; [intros (? & [= <-] & ?); done|eauto]. }
  split; [by rewrite Ef|]. split; [by rewrite Es|]. split.
  - rewrite <- Hxfg, <- Hyfg, Em.
    intros Hne. split; intros ->.
    + by rewrite Z.land_0_l in Hne.
    + by rewrite Z.land_0_r in Hne.
  - intros fg Hb. rewrite <- Hxfg, <- Hyfg, Em.
    destruct (pix_or_upto n hh ww fg v i r c Hv Hi Hr Hc)
      as (x' & Hx' & _ & Hxb).
    destruct (pix_or_from n hh ww fg v i r c Hv Hi Hr Hc)
      as (y' & Hy' & _ & Hyb).
    assert (x' = x) as -> by congruence.
    assert (y' = y) as -> by congruence.
    destruct (Hxb Hb) as [Ex|Ex]; destruct (Hyb Hb) as [Ey|Ey];
      rewrite Ex, Ey, ?Z.land_0_l, ?Z.land_0_r, ?Z.land_diag;
      (split; [intros ?; try done; tauto|intros [? ?]; done]).
Qed.

Lemma reconstruct_gg_areas_foreground_witness :
  ∃ first second out h' f s m,
    reconstruct_gg_areas 1%positive
      {[ 1%positive := [[[255; 0]]; [[0; 0]]; [[255; 255]]]%Z ]}
    = Ok (out, h')
    ∧ h' !! first = Some f ∧ h' !! second = Some s ∧ h' !! out = Some m
    ∧ m = zip_with bitwise_and f s
    ∧ ∀ i r c, i < 3 → r < 1 → c < 2 →
        (foreground f i r c ↔
           ∃ j, j ≤ i
                ∧ foreground [[[255; 0]]; [[0; 0]]; [[255; 255]]]%Z j r c)
        ∧ (foreground s i r c ↔
             ∃ j', i ≤ j'
                   ∧ foreground [[[255; 0]]; [[0; 0]]; [[255; 255]]]%Z j' r c)
        ∧ (foreground m i r c →
             (∃ j, j ≤ i
                   ∧ foreground [[[255; 0]]; [[0; 0]]; [[255; 255]]]%Z j r c)
             ∧ (∃ j', i ≤ j'
                   ∧ foreground [[[255; 0]]; [[0; 0]]; [[255; 255]]]%Z
                       j' r c))
        ∧ ∀ fg,
            binary_volume fg [[[255; 0]]; [[0; 0]]; [[255; 255]]]%Z →
            (foreground m i r c ↔
               (∃ j, j ≤ i
                     ∧ foreground [[[255; 0]]; [[0; 0]]; [[255; 255]]]%Z
                         j r c)
               ∧ (∃ j', i ≤ j'
                     ∧ foreground [[[255; 0]]; [[0; 0]]; [[255; 255]]]%Z
                         j' r c)).
Proof.
  apply (reconstruct_gg_areas_foreground _ _ _ 3 1 2).
  - apply lookup_singleton_eq.
  - compute_done.
Defined.

(** The sweeps are bitwise, so the mask matters: on a stack that is no
    mask, with 1 in the first slice, 0 in the second and 2 in the third,
    the first and the third slice are foreground, and the second slice of
    the result is not. *)
Lemma reconstruct_gg_areas_disjoint_bits :
  let v : volume := [ [[1]]; [[0]]; [[2]] ]%Z in
  is_volume 3 1 1 v
  ∧ foreground v 0 0 0 ∧ foreground v 2 0 0
  ∧ run_reconstruct v = Ok ([ [[1]]; [[0]]; [[2]] ]%Z, v)
  ∧ ¬ foreground [ [[1]]; [[0]]; [[2]] ]%Z 1 0 0.
Proof.
  cbv zeta. split; [compute_done|]. split; [compute_done|].
  split; [compute_done|]. split; [by vm_compute|]. compute_done.
Qed.

(** A slice missing between two equal slices is filled in. *)
Example reconstruct_fills_missing_slice :
  run_reconstruct [ [[255; 0]]; [[0; 0]]; [[255; 0]] ]%Z
  = Ok ([ [[255; 0]]; [[255; 0]]; [[255; 0]] ]%Z,
        [ [[255; 0]]; [[0; 0]]; [[255; 0]] ]%Z).
Proof. by vm_compute. Qed.

Lemma Forall_seq_elim (P : nat → Prop) n :
  Forall P (seq 0 n) → ∀ i, i < n → P i.
Proof.
  intros H i Hi. rewrite Forall_forall in H. apply H, elem_of_seq. lia.
Qed.

Lemma no_gaps_bounded_sound (v : volume) : no_gaps_bounded v → no_gaps v.
Proof.
  intros Hb r c j i j' Hji Hij' Hj Hj'.
  assert (j' < length v) as Lj'.
  { destruct Hj' as (x & Hx & _). unfold voxel in Hx.
    destruct (v !! j') eqn:E; [|done]. by apply lookup_lt_Some in E. }
  destruct Hj as (x & Hx & Hne). unfold voxel in Hx.
  destruct (v !! j) as [a|] eqn:Ea; [|done]. simpl in Hx.
  unfold pix in Hx. destruct (a !! r) as [row|] eqn:Er; [|done].
  simpl in Hx.
  assert (foreground v j r c) as Hj.
  { exists x. unfold voxel, pix. rewrite Ea. simpl. rewrite Er. done. }
  apply list_lookup_total_correct in Ea as Ea'.
  apply list_lookup_total_correct in Er as Er'.
  apply lookup_lt_Some in Ea, Er, Hx.
  unfold no_gaps_bounded in Hb. cbv zeta in Hb.
  pose proof (Forall_seq_elim _ _ Hb j ltac:(lia)) as H1.
  pose proof (Forall_seq_elim _ _ H1 j' ltac:(lia)) as H2.
  pose proof (Forall_seq_elim _ _ H2 i ltac:(lia) Hji Hij') as H3.
  cbv beta in H3. rewrite Ea' in H3.
  pose proof (Forall_seq_elim _ _ H3 r ltac:(lia)) as H4.
  cbv beta in H4. rewrite Er' in H4.
  by apply (Forall_seq_elim _ _ H4 c ltac:(lia)).
Qed.

(** C7.  A binary stack without gaps along the slice axis is a fixed point:
    the call runs to completion and the array it returns holds the samples
    of its argument. *)
Theorem reconstruct_gg_areas_fixed_point
    (h : store) (mask : loc) (v : volume) (n hh ww : nat) (fg : Z) :
  h !! mask = Some v → is_volume n hh ww v → binary_volume fg v →
  no_gaps v →
  ∃ out h', reconstruct_gg_areas mask h = Ok (out, h') ∧ h' !! out = Some v.
Proof.
  intros Hm Hv Hb Hg.
  destruct (reconstruct_gg_areas_run h mask v Hm)
    as (first & second & out & h' & Hrun & Hpost).
  exists out, h'. split; [done|]. rewrite (post_out_is _ _ _ _ _ _ Hpost).
  f_equal.
  pose proof (merged_is_volume n hh ww v Hv) as Hmv.
  apply (list_eq_same_length _ _ n); [apply Hv|apply Hmv|].
  intros i a b Hi Ha Hb'.
  rewrite (merged_lookup n hh ww) in Ha by done. injection Ha as <-.
  destruct (is_volume_lookup n hh ww v i Hv Hi) as [E Hib].
  assert (b = v !!! i) as -> by congruence.
  apply (pix_ext hh ww); [|done|].
  { apply izip_is_image;
      [by apply (or_upto_is_image n)|by apply (or_from_is_image n)]. }
  intros r c Hr Hc.
  destruct (pix_or_upto n hh ww fg v i r c Hv Hi Hr Hc)
    as (x & Hx & Hxfg & Hxb).
  destruct (pix_or_from n hh ww fg v i r c Hv Hi Hr Hc)
    as (y & Hy & Hyfg & Hyb).
  destruct (pix_is_Some hh ww _ r c Hib Hr Hc) as [z Hz].
  unfold bitwise_and. rewrite pix_izip, Hx, Hy, Hz. simpl. f_equal.
  assert (z ≠ 0%Z ↔ foreground v i r c) as Hzfg.
  { unfold foreground. rewrite (voxel_lookup_total n hh ww), Hz by done.
    split; [eauto|intros (? & [= <-] & ?); done]. }
  destruct (binary_pix fg v n hh ww i r c z Hv Hb Hi Hz) as [->| ->].
  - destruct (decide (x = 0%Z)) as [->|Hx0]; [by rewrite Z.land_0_l|].
    destruct (decide (y = 0%Z)) as [->|Hy0]; [by rewrite Z.land_0_r|].
    apply Hxfg in Hx0 as (j & Hj & Hfj).
    apply Hyfg in Hy0 as (j' & Hj' & Hfj').
    assert (0%Z ≠ 0%Z); [|done].
    apply Hzfg. by apply (Hg r c j i j').
  - destruct (decide (fg = 0%Z)) as [->|Hfg0].
    { destruct (Hxb Hb) as [->| ->]; by rewrite Z.land_0_l. }
    assert (foreground v i r c) as Hf by by apply Hzfg.
    assert (x ≠ 0%Z) as Hx0 by (apply Hxfg; eauto).
    assert (y ≠ 0%Z) as Hy0 by (apply Hyfg; eauto).
    destruct (Hxb Hb) as [->| ->]; [done|].
    destruct (Hyb Hb) as [->| ->]; [done|].
    apply Z.land_diag.
Qed.

Lemma reconstruct_gg_areas_fixed_point_witness :
  ∃ out h',
    reconstruct_gg_areas 1%positive
      {[ 1%positive := [[[0; 0]]; [[255; 0]]; [[255; 255]]; [[0; 255]]]%Z ]}
    = Ok (out, h')
    ∧ h' !! out = Some [[[0; 0]]; [[255; 0]]; [[255; 255]]; [[0; 255]]]%Z.
Proof.
  apply (reconstruct_gg_areas_fixed_point _ _ _ 4 1 2 255%Z).
  - apply lookup_singleton_eq.
  - compute_done.
  - compute_done.
  - apply no_gaps_bounded_sound. compute_done.
Defined.

(** C8.  The call never writes to its argument: after it the argument, and
    every other array the store held, is as before; the forward-swept, the
    backward-swept and the returned array are three fresh arrays of the
    shape of the argument. *)
Theorem reconstruct_gg_areas_frame
    (h : store) (mask : loc) (v : volume) (n hh ww : nat) :
  h !! mask = Some v → is_volume n hh ww v →
  ∃ first second out h',
    reconstruct_gg_areas mask h = Ok (out, h')
    ∧ h' !! mask = Some v
    ∧ (∀ l, l ∈ dom h → h' !! l = h !! l)
    ∧ (first ∉ dom h) ∧ (second ∉ dom h) ∧ (out ∉ dom h)
    ∧ h' !! first = Some (forward_swept v)
    ∧ h' !! second = Some (backward_swept v)
    ∧ h' !! out = Some (merged v)
    ∧ is_volume n hh ww (forward_swept v)
    ∧ is_volume n hh ww (backward_swept v)
    ∧ is_volume n hh ww (merged v).
Proof.
  intros Hm Hv.
  destruct (reconstruct_gg_areas_run h mask v Hm)
    as (first & second & out & h' & Hrun & Hpost).
  exists first, second, out, h'.
  destruct Hpost as [(? & ? & ?) _ Hf Hs Ho Hframe].
  split; [done|]. split.
  { rewrite Hframe; [done|]. apply elem_of_dom. eauto. }
  do 7 (split; [done|]).
  split; [by apply forward_swept_is_volume|].
  split; [by apply backward_swept_is_volume|].
  by apply merged_is_volume.
Qed.

Lemma reconstruct_gg_areas_frame_witness :
  ∃ first second out h',
    reconstruct_gg_areas 1%positive
      {[ 1%positive := [[[255; 0]]; [[0; 0]]; [[255; 255]]]%Z ]}
    = Ok (out, h')
    ∧ h' !! 1%positive = Some [[[255; 0]]; [[0; 0]]; [[255; 255]]]%Z
    ∧ (∀ l, l ∈ dom ({[ 1%positive :=
                          [[[255; 0]]; [[0; 0]]; [[255; 255]]]%Z ]} : store) →
         h' !! l
         = ({[ 1%positive :=
                 [[[255; 0]]; [[0; 0]]; [[255; 255]]]%Z ]} : store) !! l)
    ∧ (first ∉ dom ({[ 1%positive :=
                         [[[255; 0]]; [[0; 0]]; [[255; 255]]]%Z ]} : store))
    ∧ (second ∉ dom ({[ 1%positive :=
                          [[[255; 0]]; [[0; 0]]; [[255; 255]]]%Z ]} : store))
    ∧ (out ∉ dom ({[ 1%positive :=
                       [[[255; 0]]; [[0; 0]]; [[255; 255]]]%Z ]} : store))
    ∧ h' !! first
      = Some (forward_swept [[[255; 0]]; [[0; 0]]; [[255; 255]]]%Z)
    ∧ h' !! second
      = Some (backward_swept [[[255; 0]]; [[0; 0]]; [[255; 255]]]%Z)
    ∧ h' !! out = Some (merged [[[255; 0]]; [[0; 0]]; [[255; 255]]]%Z)
    ∧ is_volume 3 1 2 (forward_swept [[[255; 0]]; [[0; 0]]; [[255; 255]]]%Z)
    ∧ is_volume 3 1 2 (backward_swept [[[255; 0]]; [[0; 0]]; [[255; 255]]]%Z)
    ∧ is_volume 3 1 2 (merged [[[255; 0]]; [[0; 0]]; [[255; 255]]]%Z).
Proof.
  apply (reconstruct_gg_areas_frame _ _ _ 3 1 2).
  - apply lookup_singleton_eq.
  - compute_done.
Defined.

(** ** find_ROI *)

Lemma foldl_min_is_min l : ∀ x, is_min (foldl Z.min x l) (x :: l).
Proof.
  induction l as [|y l IH]; intros x; simpl.
  - split; [set_solver|]. intros z Hz. apply list_elem_of_singleton in Hz. lia.
  - destruct (IH (Z.min x y)) as [Hin Hle]. split.
    + apply elem_of_cons in Hin as [Hin|Hin]; [|set_solver].
      rewrite Hin. destruct (Z.min_spec x y) as [[_ ->]|[_ ->]]; set_solver.
    + intros z Hz.
      assert (foldl Z.min (Z.min x y) l ≤ Z.min x y)%Z as Hm
        by (apply Hle; set_solver).
      apply elem_of_cons in Hz as [->|Hz]; [lia|].
      apply elem_of_cons in Hz as [->|Hz]; [lia|].
      apply Hle. set_solver.
Qed.

Lemma foldl_max_is_max l : ∀ x, is_max (foldl Z.max x l) (x :: l).
Proof.
  induction l as [|y l IH]; intros x; simpl.
  - split; [set_solver|]. intros z Hz. apply list_elem_of_singleton in Hz. lia.
  - destruct (IH (Z.max x y)) as [Hin Hle]. split.
    + apply elem_of_cons in Hin as [Hin|Hin]; [|set_solver].
      rewrite Hin. destruct (Z.max_spec x y) as [[_ ->]|[_ ->]]; set_solver.
    + intros z Hz.
      assert (Z.max x y ≤ foldl Z.max (Z.max x y) l)%Z as Hm
        by (apply Hle; set_solver).
      apply elem_of_cons in Hz as [->|Hz]; [lia|].
      apply elem_of_cons in Hz as [->|Hz]; [lia|].
      apply Hle. set_solver.
Qed.

Lemma reduce_min_is_min l :
  l ≠ [] → ∃ x, reduce_min l = Some x ∧ is_min x l.
Proof.
  destruct l as [|x l]; [done|]. intros _. eexists. split; [done|].
  apply foldl_min_is_min.
Qed.

Lemma reduce_max_is_max l :
  l ≠ [] → ∃ x, reduce_max l = Some x ∧ is_max x l.
Proof.
  destruct l as [|x l]; [done|]. intros _. eexists. split; [done|].
  apply foldl_max_is_max.
Qed.

Lemma astype_int16_id z : (-32768 ≤ z < 32768)%Z → astype_int16 z = z.
Proof. intros Hz. unfold astype_int16. rewrite Z.mod_small; lia. Qed.

Lemma column_nil f (df : DataFrame) : df ≠ [] → column f df ≠ [].
Proof. by destruct df. Qed.

Lemma find_ROI_dropped (stats : DataFrame) :
  0%Z ∈ df_index stats →
  find_ROI stats
  = Ok ((λ x, astype_int16 (nan_to_num x)) <$>
          [ reduce_min (column LEFT (foreground_rows stats));
            reduce_min (column TOP (foreground_rows stats));
            reduce_max (column (λ r, int64_add (LEFT r) (WIDTH r))
                          (foreground_rows stats));
            reduce_max (column (λ r, int64_add (TOP r) (HEIGHT r))
                          (foreground_rows stats)) ]).
Proof.
  intros H0. unfold find_ROI, df_drop. by rewrite decide_True by done.
Qed.

(** A sum that fits 64 bits is the sum of the integers. *)
Lemma int64_add_exact a b :
  (- 2 ^ 63 ≤ a + b < 2 ^ 63)%Z → int64_add a b = (a + b)%Z.
Proof. intros H. unfold int64_add. rewrite Z.mod_small; lia. Qed.

(** Where the corners of the regions fit 16 bits no sum wraps, and the
    corners are reduced over the sums of the integers. *)
Lemma find_ROI_exact (stats : DataFrame) :
  0%Z ∈ df_index stats → corners_fit_int16 stats →
  find_ROI stats
  = Ok ((λ x, astype_int16 (nan_to_num x)) <$>
          [ reduce_min (column LEFT (foreground_rows stats));
            reduce_min (column TOP (foreground_rows stats));
            reduce_max (column (λ r, LEFT r + WIDTH r)%Z
                          (foreground_rows stats));
            reduce_max (column (λ r, TOP r + HEIGHT r)%Z
                          (foreground_rows stats)) ]).
Proof.
  intros H0 Hfit. rewrite (find_ROI_dropped stats H0).
  unfold corners_fit_int16 in Hfit. rewrite Forall_forall in Hfit.
  assert (column (λ r, int64_add (LEFT r) (WIDTH r)) (foreground_rows stats)
          = column (λ r, LEFT r + WIDTH r)%Z (foreground_rows stats)) as ->.
  { unfold column. apply list_fmap_ext. intros i r Hr.
    apply list_elem_of_lookup_2 in Hr. specialize (Hfit r Hr).
    cbv beta in *. apply int64_add_exact. lia. }
  assert (column (λ r, int64_add (TOP r) (HEIGHT r)) (foreground_rows stats)
          = column (λ r, TOP r + HEIGHT r)%Z (foreground_rows stats)) as ->.
  { unfold column. apply list_fmap_ext. intros i r Hr.
    apply list_elem_of_lookup_2 in Hr. specialize (Hfit r Hr).
    cbv beta in *. apply int64_add_exact. lia. }
  done.
Qed.

Lemma foreground_rows_background bg (bgs : list stat_row) :
  foreground_rows ((0%Z, bg) :: (pair 0%Z <$> bgs)) = [].
Proof.
  unfold foreground_rows. rewrite filter_cons_False by (simpl; lia).
  induction bgs as [|b bgs IH]; [done|].
  simpl. by rewrite filter_cons_False by (simpl; lia).
Qed.

(** C5, amended.  On a table that has its background row and at least one
    other row, and whose regions have their corners LEFT, TOP, LEFT+WIDTH
    and TOP+HEIGHT in the signed 16-bit range, the result is the minimum
    LEFT, the minimum TOP, the maximum LEFT+WIDTH and the maximum
    TOP+HEIGHT over the other rows.  A table of background rows alone gives
    all zeros.  The background row and the region (2, 3, 4, 5) give
    [2, 3, 6, 8]. *)
Theorem find_ROI_corners (stats : DataFrame) :
  0%Z ∈ df_index stats → foreground_rows stats ≠ [] →
  corners_fit_int16 stats →
  (∃ x_top y_top x_bottom y_bottom,
     find_ROI stats = Ok [x_top; y_top; x_bottom; y_bottom]
     ∧ is_min x_top (column LEFT (foreground_rows stats))
     ∧ is_min y_top (column TOP (foreground_rows stats))
     ∧ is_max x_bottom
         (column (λ r, LEFT r + WIDTH r)%Z (foreground_rows stats))
     ∧ is_max y_bottom
         (column (λ r, TOP r + HEIGHT r)%Z (foreground_rows stats)))
  ∧ (∀ background backgrounds,
       find_ROI ((0%Z, background) :: (pair 0%Z <$> backgrounds))
       = Ok [0; 0; 0; 0]%Z)
  ∧ (∀ background area,
       find_ROI [ (0%Z, background);
                  (1%Z, {| LEFT := 2; TOP := 3; WIDTH := 4; HEIGHT := 5;
                           AREA := area |}) ]
       = Ok [2; 3; 6; 8]%Z).
Proof.
  intros H0 Hne Hfit. split; [|split].
  - rewrite (find_ROI_exact stats H0 Hfit).
    destruct (reduce_min_is_min (column LEFT (foreground_rows stats)))
      as (xt & -> & Hxt); [by apply column_nil|].
    destruct (reduce_min_is_min (column TOP (foreground_rows stats)))
      as (yt & -> & Hyt); [by apply column_nil|].
    destruct (reduce_max_is_max
                (column (λ r, LEFT r + WIDTH r)%Z (foreground_rows stats)))
      as (xb & -> & Hxb); [by apply column_nil|].
    destruct (reduce_max_is_max
                (column (λ r, TOP r + HEIGHT r)%Z (foreground_rows stats)))
      as (yb & -> & Hyb); [by apply column_nil|].
    exists xt, yt, xb, yb. split; [|done].
    unfold corners_fit_int16 in Hfit. rewrite Forall_forall in Hfit.
    assert (∀ (f : stat_row → Z) z,
              z ∈ column f (foreground_rows stats) →
              ∃ r, r ∈ foreground_rows stats ∧ z = f r.2) as Hcol.
    { intros f z Hz. unfold column in Hz.
      apply list_elem_of_fmap in Hz as (r & -> & Hr). eauto. }
    destruct Hxt as [Hxt _], Hyt as [Hyt _], Hxb as [Hxb _], Hyb as [Hyb _].
    apply Hcol in Hxt as (r1 & Hr1 & ->).
    apply Hcol in Hyt as (r2 & Hr2 & ->).
    apply Hcol in Hxb as (r3 & Hr3 & ->).
    apply Hcol in Hyb as (r4 & Hr4 & ->).
    pose proof (Hfit r1 Hr1). pose proof (Hfit r2 Hr2).
    pose proof (Hfit r3 Hr3). pose proof (Hfit r4 Hr4).
    simpl. unfold mret, result_ret.
    rewrite !astype_int16_id by tauto. done.
  - intros background backgrounds. rewrite find_ROI_dropped by set_solver.
    by rewrite foreground_rows_background.
  - intros background area. by vm_compute.
Qed.

Lemma find_ROI_corners_witness :
  (∃ x_top y_top x_bottom y_bottom,
     find_ROI
       [ (0%Z, {| LEFT := 0; TOP := 0; WIDTH := 9; HEIGHT := 9; AREA := 60 |});
         (1%Z, {| LEFT := 2; TOP := 3; WIDTH := 4; HEIGHT := 5; AREA := 20 |});
         (2%Z, {| LEFT := 1; TOP := 7; WIDTH := 1; HEIGHT := 1; AREA := 1 |}) ]
     = Ok [x_top; y_top; x_bottom; y_bottom]
     ∧ is_min x_top [2; 1]%Z ∧ is_min y_top [3; 7]%Z
     ∧ is_max x_bottom [6; 2]%Z ∧ is_max y_bottom [8; 8]%Z)
  ∧ (∀ background backgrounds,
       find_ROI ((0%Z, background) :: (pair 0%Z <$> backgrounds))
       = Ok [0; 0; 0; 0]%Z)
  ∧ (∀ background area,
       find_ROI [ (0%Z, background);
                  (1%Z, {| LEFT := 2; TOP := 3; WIDTH := 4; HEIGHT := 5;
                           AREA := area |}) ]
       = Ok [2; 3; 6; 8]%Z).
Proof.
  apply (find_ROI_corners
           [ (0%Z, {| LEFT := 0; TOP := 0; WIDTH := 9; HEIGHT := 9;
                      AREA := 60 |});
             (1%Z, {| LEFT := 2; TOP := 3; WIDTH := 4; HEIGHT := 5;
                      AREA := 20 |});
             (2%Z, {| LEFT := 1; TOP := 7; WIDTH := 1; HEIGHT := 1;
                      AREA := 1 |}) ]).
  - compute_done.
  - compute_done.
  - compute_done.
Defined.

(** C5 as stated fails where a corner leaves the 16-bit range: for a region
    whose right edge is column 40000, the maximum of LEFT+WIDTH, the call
    returns -25536 as x_bottom, the result being an int16 array. *)
Lemma find_ROI_int16_wraps :
  let stats : DataFrame :=
    [ (0%Z, {| LEFT := 0; TOP := 0; WIDTH := 40000; HEIGHT := 8;
               AREA := 310000 |});
      (1%Z, {| LEFT := 30000; TOP := 3; WIDTH := 10000; HEIGHT := 1;
               AREA := 10000 |}) ] in
  0%Z ∈ df_index stats
  ∧ foreground_rows stats ≠ []
  ∧ is_max 40000%Z (column (λ r, LEFT r + WIDTH r)%Z (foreground_rows stats))
  ∧ find_ROI stats = Ok [30000; 3; -25536; 4]%Z.
Proof.
  cbv zeta. split; [compute_done|]. split; [compute_done|]. split; [|done].
  split; [compute_done|].
  intros y Hy. vm_compute in Hy. apply list_elem_of_singleton in Hy. lia.
Qed.

(** C10.  A table without a row indexed 0 makes the call fail with
    [KeyError], whatever rows it has, instead of reducing over them; once a
    background row is added the same rows are reduced.  The empty table
    fails likewise, and the all-zero result needs the background row. *)
Theorem find_ROI_requires_background (stats : DataFrame) :
  0%Z ∉ df_index stats →
  find_ROI stats = Raise KeyError
  ∧ (∀ background,
       find_ROI ((0%Z, background) :: stats)
       = Ok ((λ x, astype_int16 (nan_to_num x)) <$>
               [ reduce_min (column LEFT stats);
                 reduce_min (column TOP stats);
                 reduce_max (column (λ r, int64_add (LEFT r) (WIDTH r))
                               stats);
                 reduce_max (column (λ r, int64_add (TOP r) (HEIGHT r))
                               stats) ]))
  ∧ find_ROI [] = Raise KeyError
  ∧ (∀ background, find_ROI [(0%Z, background)] = Ok [0; 0; 0; 0]%Z).
Proof.
  intros H0. split; [|split; [|split]].
  - unfold find_ROI, df_drop. by rewrite decide_False by done.
  - intros background.
    assert (foreground_rows ((0%Z, background) :: stats) = stats) as E.
    { unfold foreground_rows. rewrite filter_cons_False by (simpl; lia).
      clear background. induction stats as [|[j row] stats IH]; [done|].
      unfold df_index in H0. simpl in H0.
      apply not_elem_of_cons in H0 as [H0 H1].
      rewrite filter_cons_True by (simpl; congruence).
      f_equal. by apply IH. }
    rewrite find_ROI_dropped by set_solver. by rewrite E.
  - done.
  - done.
Qed.

Lemma find_ROI_requires_background_witness :
  find_ROI [ (1%Z, {| LEFT := 2; TOP := 3; WIDTH := 4; HEIGHT := 5;
                      AREA := 20 |}) ]
  = Raise KeyError
  ∧ (∀ background,
       find_ROI [ (0%Z, background);
                  (1%Z, {| LEFT := 2; TOP := 3; WIDTH := 4; HEIGHT := 5;
                           AREA := 20 |}) ]
       = Ok [2; 3; 6; 8]%Z)
  ∧ find_ROI [] = Raise KeyError
  ∧ (∀ background, find_ROI [(0%Z, background)] = Ok [0; 0; 0; 0]%Z).
Proof.
  apply (find_ROI_requires_background
           [ (1%Z, {| LEFT := 2; TOP := 3; WIDTH := 4; HEIGHT := 5;
                      AREA := 20 |}) ]).
  compute_done.
Defined.

(** ** remove_spots *)

Lemma pix_imap2 f a r c : pix (imap2 f a) r c = f <$> pix a r c.
Proof.
  unfold pix, imap2. rewrite list_lookup_fmap.
  destruct (a !! r) as [row|]; [|done]. simpl. apply list_lookup_fmap.
Qed.

Lemma ishape_imap2 f a : ishape (imap2 f a) = ishape a.
Proof.
  unfold ishape, imap2. rewrite <- list_fmap_compose.
  apply list_fmap_ext. intros _ row _. simpl. apply length_fmap.
Qed.

Lemma voxel_vmap f v i r c : voxel (vmap f v) i r c = f <$> voxel v i r c.
Proof.
  unfold voxel, vmap. rewrite list_lookup_fmap.
  destruct (v !! i) as [a|]; [|done]. simpl. apply pix_imap2.
Qed.

Lemma vshape_vmap f v : vshape (vmap f v) = vshape v.
Proof.
  unfold vshape, vmap. rewrite <- list_fmap_compose.
  apply list_fmap_ext. intros _ a _. simpl. apply ishape_imap2.
Qed.

Lemma pix_erase_labels js : ∀ a r c,
  pix (erase_labels js a) r c
  = (λ x, if decide (x ∈ js) then 0%Z else x) <$> pix a r c.
Proof.
  induction js as [|j js IH]; intros a r c.
  - change (erase_labels [] a) with a. destruct (pix a r c); by simpl.
  - change (erase_labels (j :: js) a)
      with (erase_labels js (set_where_eq j 0%Z a)).
    rewrite IH. unfold set_where_eq.
    rewrite pix_imap2. destruct (pix a r c) as [x|]; [|done]. simpl.
    f_equal. destruct (decide (x = j)) as [->|Hne].
    + destruct (decide (0%Z ∈ js)), (decide (j ∈ j :: js));
        try done; set_solver.
    + destruct (decide (x ∈ js)), (decide (x ∈ j :: js));
        try done; set_solver.
Qed.

Lemma ishape_erase_labels js : ∀ a, ishape (erase_labels js a) = ishape a.
Proof.
  induction js as [|j js IH]; intros a; [done|].
  change (erase_labels (j :: js) a)
    with (erase_labels js (set_where_eq j 0%Z a)).
  rewrite IH. apply ishape_imap2.
Qed.

Lemma erase_small_Ok area (lab : volume) i stat a :
  lab !! i = Some a →
  erase_small area lab (i, stat)
  = Ok (<[i := erase_labels (small_labels area stat) a]> lab).
Proof.
  unfold erase_small, small_labels. simpl.
  generalize (df_index (query_AREA_lt area stat)). intros js.
  revert lab a. induction js as [|j js IH]; intros lab a Ha; simpl.
  - by rewrite list_insert_id.
  - rewrite Ha. simpl. unfold mbind, result_bind.
    rewrite (IH _ (set_where_eq j 0%Z a)).
    + by rewrite list_insert_insert_eq.
    + apply list_lookup_insert_eq. by apply lookup_lt_Some in Ha.
Qed.

Lemma erase_all_Ok area (stats : list DataFrame) : ∀ k (lab : volume),
  k + length stats ≤ length lab →
  ∃ lab', foldlM (erase_small area) (imap (λ i, pair (k + i)) stats) lab
          = Ok lab'
    ∧ length lab' = length lab
    ∧ ∀ j a, lab !! j = Some a →
        lab' !! j
        = Some (match stats !! (j - k) with
                | Some stat =>
                    if decide (k ≤ j)
                    then erase_labels (small_labels area stat) a else a
                | None => a
                end).
Proof.
  induction stats as [|stat stats IH]; intros k lab Hlen; simpl.
  - exists lab. split; [done|]. split; [done|]. by intros j a ->.
  - simpl in Hlen.
    destruct (lookup_lt_is_Some_2 lab k) as [a0 Ha0]; [lia|].
    replace (k + 0) with k by lia.
    rewrite (erase_small_Ok area lab k stat a0 Ha0). simpl.
    unfold mbind, result_bind.
    set (lab1 := <[k := erase_labels (small_labels area stat) a0]> lab).
    destruct (IH (S k) lab1) as (lab' & Hrun & Hl & Hlab').
    { unfold lab1. rewrite length_insert. lia. }
    exists lab'. split.
    { rewrite <- Hrun. f_equal. apply imap_ext. intros i x _. simpl.
      f_equal. lia. }
    split; [by rewrite Hl; unfold lab1; rewrite length_insert|].
    intros j a Ha. destruct (decide (j = k)) as [->|Hjk].
    + assert (a = a0) as -> by congruence.
      rewrite (Hlab' k (erase_labels (small_labels area stat) a0)).
      2:{ unfold lab1. apply list_lookup_insert_eq.
          by apply lookup_lt_Some in Ha0. }
      replace (k - k) with 0 by lia. simpl.
      rewrite decide_True by lia.
      destruct (stats !! (k - S k)); [|done].
      by rewrite decide_False by lia.
    + rewrite (Hlab' j a).
      2:{ unfold lab1. by rewrite list_lookup_insert_ne. }
      destruct (decide (k ≤ j)) as [Hle|Hgt].
      * replace (j - k) with (S (j - S k)) by lia. simpl.
        destruct (stats !! (j - S k)); [|done].
        by rewrite decide_True by lia.
      * replace (j - k) with 0 by lia. replace (j - S k) with 0 by lia.
        simpl. destruct (stats !! 0); [|done].
        by rewrite decide_False by lia.
Qed.

(** What the call computes, before any assumption on the analyzer beyond
    one table per label map: slice by slice, the labels of the small rows
    are erased and what is left becomes 1. *)
Lemma remove_spots_run cc img area :
  length (cc img).2 ≤ length (cc img).1 →
  ∃ out, remove_spots cc img area = Ok out
    ∧ length out = length (cc img).1
    ∧ ∀ i lab, (cc img).1 !! i = Some lab →
        out !! i
        = Some (imap2 (λ x, if decide (x ≠ 0%Z) then 1%Z else 0%Z)
                  (match (cc img).2 !! i with
                   | Some stat => erase_labels (small_labels area stat) lab
                   | None => lab
                   end)).
Proof.
  unfold remove_spots. destruct (cc img) as [labs stats]. simpl. intros Hlen.
  destruct (erase_all_Ok area stats 0 labs) as (lab' & Hrun & Hl & Hlab');
    [simpl; lia|].
  assert (foldlM (erase_small area) (imap pair stats) labs = Ok lab')
    as Hrun' by exact Hrun.
  rewrite Hrun'. simpl. eexists. split; [done|].
  split; [by unfold vmap; rewrite length_fmap|].
  intros i lab Hi. unfold vmap. rewrite list_lookup_fmap.
  rewrite (Hlab' i lab Hi). simpl. replace (i - 0) with i by lia.
  destruct (stats !! i); [|done]. destruct (decide (0 ≤ i)); [done|lia].
Qed.

(** ** The analyzer's contract, slice by slice *)

Lemma analyzer_contract_slice img out i lab stat :
  analyzer_contract img out →
  out.1 !! i = Some lab → out.2 !! i = Some stat →
  ∃ a, img !! i = Some a ∧ slice_contract a lab stat.
Proof.
  intros (Hall & Hl1 & Hl2) Hlab Hstat.
  destruct (lookup_lt_is_Some_2 img i) as [a Ha].
  { apply lookup_lt_Some in Hlab. lia. }
  exists a. split; [done|].
  assert (zip out.1 out.2 !! i = Some (lab, stat)) as Hz.
  { apply lookup_zip_with_Some. eauto. }
  apply (Forall2_lookup_lr _ _ _ _ _ _ Hall Ha Hz).
Qed.

Lemma analyzer_contract_img img out i a :
  analyzer_contract img out → img !! i = Some a →
  ∃ lab stat, out.1 !! i = Some lab ∧ out.2 !! i = Some stat
              ∧ slice_contract a lab stat.
Proof.
  intros Hc Ha. pose proof Hc as (_ & Hl1 & Hl2).
  apply lookup_lt_Some in Ha as Hi.
  destruct (lookup_lt_is_Some_2 out.1 i) as [lab Hlab]; [lia|].
  destruct (lookup_lt_is_Some_2 out.2 i) as [stat Hstat]; [lia|].
  exists lab, stat. split; [done|]. split; [done|].
  destruct (analyzer_contract_slice img out i lab stat Hc Hlab Hstat)
    as (a' & Ha' & Hs).
  congruence.
Qed.

Lemma range_index_lookup (stat : DataFrame) p j row :
  df_index stat = Z.of_nat <$> seq 0 (length stat) →
  stat !! p = Some (j, row) → j = Z.of_nat p.
Proof.
  intros Hidx Hp.
  assert (df_index stat !! p = Some j) as E.
  { unfold df_index. rewrite list_lookup_fmap, Hp. done. }
  rewrite Hidx, list_lookup_fmap in E.
  rewrite lookup_seq_lt in E by (by apply lookup_lt_Some in Hp).
  simpl in E. congruence.
Qed.

Lemma range_index_row (stat : DataFrame) l :
  df_index stat = Z.of_nat <$> seq 0 (length stat) →
  (0 ≤ l < Z.of_nat (length stat))%Z →
  ∃ row, stat !! Z.to_nat l = Some (l, row).
Proof.
  intros Hidx Hl.
  destruct (lookup_lt_is_Some_2 stat (Z.to_nat l)) as [[j row] Hrow]; [lia|].
  exists row. rewrite Hrow.
  rewrite (range_index_lookup stat _ j row Hidx Hrow). do 2 f_equal. lia.
Qed.

Lemma range_index_elem (stat : DataFrame) j row :
  df_index stat = Z.of_nat <$> seq 0 (length stat) →
  (j, row) ∈ stat → stat !! Z.to_nat j = Some (j, row).
Proof.
  intros Hidx Hin. apply list_elem_of_lookup in Hin as [p Hp].
  rewrite (range_index_lookup stat p j row Hidx Hp).
  by rewrite Nat2Z.id, <- (range_index_lookup stat p j row Hidx Hp).
Qed.

Lemma elem_of_small_labels area (stat : DataFrame) x :
  x ∈ small_labels area stat ↔ ∃ row, (x, row) ∈ stat ∧ (AREA row < area)%Z.
Proof.
  unfold small_labels, df_index, query_AREA_lt.
  rewrite list_elem_of_fmap. split.
  - intros ([j row] & -> & Hin). apply list_elem_of_filter in Hin as [? ?].
    by exists row.
  - intros (row & Hin & Hlt). exists (x, row). split; [done|].
    by apply list_elem_of_filter.
Qed.

Lemma pix_elem_of (a : image) r c x :
  pix a r c = Some x → ∃ row, row ∈ a ∧ x ∈ row.
Proof.
  unfold pix. intros H. destruct (a !! r) as [row|] eqn:E; [|done].
  exists row. split; by eapply list_elem_of_lookup_2.
Qed.

Lemma ishape_pix_is_Some (a b : image) r c :
  ishape a = ishape b → is_Some (pix a r c) → is_Some (pix b r c).
Proof.
  intros Hs [x Hx]. unfold pix in *.
  destruct (a !! r) as [ra|] eqn:Ea; [|done]. simpl in Hx.
  assert (ishape b !! r = Some (length ra)) as E.
  { rewrite <- Hs. unfold ishape. by rewrite list_lookup_fmap, Ea. }
  unfold ishape in E. rewrite list_lookup_fmap in E.
  destruct (b !! r) as [rb|]; [|done]. simpl in *.
  apply lookup_lt_is_Some_2. apply lookup_lt_Some in Hx.
  injection E as E. lia.
Qed.

(** ** remove_spots: what a call computes *)

(** Under the contract every sample of a label map has its row, and the
    output sample is decided by the AREA of that row. *)
Lemma remove_spots_voxels cc img area :
  analyzer_contract img (cc img) →
  ∃ out, remove_spots cc img area = Ok out
    ∧ length out = length (cc img).1
    ∧ (∀ i lab, (cc img).1 !! i = Some lab →
         ∃ lab', out !! i
                 = Some (imap2 (λ x, if decide (x ≠ 0%Z) then 1%Z else 0%Z)
                           lab')
                 ∧ ishape lab' = ishape lab)
    ∧ ∀ i lab stat,
        (cc img).1 !! i = Some lab → (cc img).2 !! i = Some stat →
        ∀ r c l, pix lab r c = Some l →
          ∃ row, stat !! Z.to_nat l = Some (l, row)
            ∧ AREA row = Z.of_nat (count_label lab l)
            ∧ (l ≠ 0%Z → 1 ≤ AREA row)%Z
            ∧ voxel out i r c
              = Some (if decide (l ≠ 0%Z ∧ (area ≤ AREA row)%Z)
                      then 1%Z else 0%Z).
Proof.
  intros Hc. pose proof Hc as (_ & Hl1 & Hl2).
  destruct (remove_spots_run cc img area) as (out & Hrun & Hlen & Hout);
    [lia|].
  exists out. split; [done|]. split; [done|]. split.
  { intros i lab Hlab. eexists. split; [by apply Hout|].
    destruct ((cc img).2 !! i); [|done]. apply ishape_erase_labels. }
  intros i lab stat Hlab Hstat r c l Hl.
  destruct (analyzer_contract_slice img (cc img) i lab stat Hc Hlab Hstat)
    as (a & Ha & _ & _ & Hidx & _ & Hrange & Harea).
  destruct (pix_elem_of lab r c l Hl) as (lrow & Hlrow & Hlin).
  rewrite Forall_forall in Hrange. specialize (Hrange lrow Hlrow).
  rewrite Forall_forall in Hrange. specialize (Hrange l Hlin).
  destruct (range_index_row stat l Hidx Hrange) as [row Hrow].
  exists row. split; [done|].
  assert ((l, row) ∈ stat) as Hin by by eapply list_elem_of_lookup_2.
  rewrite Forall_forall in Harea. destruct (Harea _ Hin) as [HA HA1].
  simpl in HA, HA1. split; [done|]. split; [done|].
  unfold voxel. rewrite (Hout i lab Hlab), Hstat. simpl.
  rewrite pix_imap2, pix_erase_labels, Hl. simpl. f_equal.
  destruct (decide (l ∈ small_labels area stat)) as [Hs|Hs].
  - apply elem_of_small_labels in Hs as (row' & Hin' & Hlt).
    apply (range_index_elem stat l row' Hidx) in Hin'.
    assert (row' = row) as -> by congruence.
    rewrite decide_False by lia. by rewrite decide_False by lia.
  - assert (¬ (AREA row < area)%Z) as Hge.
    { intros Hlt. apply Hs, elem_of_small_labels. eauto. }
    destruct (decide (l = 0%Z)) as [->|Hl0].
    + rewrite decide_False by lia. by rewrite decide_False by lia.
    + rewrite decide_True by done. by rewrite decide_True by lia.
Qed.


(** ** Regions of the output of remove_spots *)

Lemma fg_at_positions (a : image) p : fg_at a p → p ∈ positions a.
Proof.
  intros (x & Hx & _). destruct p as [r c]. unfold pix in Hx. simpl in Hx.
  destruct (a !! r) as [row|] eqn:Hrow; [|done]. simpl in Hx.
  unfold positions. apply list_elem_of_join.
  exists (pair r <$> seq 0 (length row)). split.
  - apply list_elem_of_fmap. exists c. split; [done|].
    apply elem_of_seq. apply lookup_lt_Some in Hx. lia.
  - by apply (elem_of_lookup_imap_2
                (λ r row, pair r <$> seq 0 (length row)) a row r).
Qed.

Lemma components_check_sound adj (a lab : image) :
  components_check adj a lab → labels_are_components adj a lab.
Proof.
  intros Hc.
  assert (∀ p q, fg_at a p → fg_at a q →
            (adj p q → pix lab p.1 p.2 = pix lab q.1 q.2)
            ∧ (pix lab p.1 p.2 = pix lab q.1 q.2 → p = q ∨ adj p q)) as Hpq.
  { intros p q Hp Hq. unfold components_check in Hc.
    rewrite Forall_forall in Hc.
    specialize (Hc p (fg_at_positions a p Hp)).
    rewrite Forall_forall in Hc.
    by apply (Hc q (fg_at_positions a q Hq)). }
  intros p q Hp Hq. split.
  - intros E. destruct (proj2 (Hpq p q Hp Hq) E) as [->|Hadj].
    + apply rtc_refl.
    + by apply rtc_once.
  - intros Hcon. clear Hq. induction Hcon as [p|p p' q (Hadj & _ & Hp') _ IH].
    + done.
    + rewrite (proj1 (Hpq p p' Hp Hp') Hadj). by apply IH.
Qed.

(** Erasing whole regions leaves the others as they were: if the output
    foreground is made of the pixels whose label is kept, the region of the
    output through a kept pixel is the set of pixels with its label. *)
Lemma kept_regions_are_regions adj (a lab o : image) (keep : Z → Prop) :
  labels_are_components adj a lab →
  (∀ p, fg_at o p ↔ ∃ l, pix lab p.1 p.2 = Some l ∧ keep l) →
  (∀ p l, pix lab p.1 p.2 = Some l → keep l → fg_at a p) →
  ∀ p l, pix lab p.1 p.2 = Some l → keep l →
    ∀ q, connected adj o p q ↔ pix lab q.1 q.2 = Some l.
Proof.
  intros Hcomp Ho Ha p l Hl Hk q.
  assert (∀ z, fg_at o z → fg_at a z) as Hoa.
  { intros z Hz. apply Ho in Hz as (l' & Hl' & Hk'). by apply (Ha z l'). }
  split.
  - intros Hcon. revert Hl.
    induction Hcon as [p|p p' q (Hadj & Hp & Hp') _ IH]; intros Hl; [done|].
    apply IH. rewrite <- Hl. symmetry.
    apply (Hcomp p p' (Hoa p Hp) (Hoa p' Hp')).
    apply rtc_once. split; [done|]. split; by apply Hoa.
  - intros Hq.
    assert (connected adj a p q) as Hcon.
    { apply (Hcomp p q); [by apply (Ha p l)|by apply (Ha q l)|congruence]. }
    clear Hq. revert Hl.
    induction Hcon as [p|p p' q (Hadj & Hp & Hp') Hrest IH]; intros Hl.
    + apply rtc_refl.
    + assert (pix lab p'.1 p'.2 = Some l) as Hl'.
      { rewrite <- Hl. symmetry. apply (Hcomp p p' Hp Hp').
        apply rtc_once. by split. }
      apply rtc_l with p'; [|by apply IH].
      split; [done|]. split; apply Ho; eauto.
Qed.

Lemma pix_Forall2 (R : Z → Z → Prop) (a lab : image) r c x :
  Forall2 (Forall2 R) a lab → pix a r c = Some x →
  ∃ l, pix lab r c = Some l ∧ R x l.
Proof.
  intros HF Hx. unfold pix in *.
  destruct (a !! r) as [ra|] eqn:Ea; [|done]. simpl in Hx.
  destruct (Forall2_lookup_l _ _ _ _ _ HF Ea) as (rl & -> & Hrow).
  simpl. by apply (Forall2_lookup_l _ _ _ _ _ Hrow Hx).
Qed.

Lemma pix_Forall2_r (R : Z → Z → Prop) (a lab : image) r c l :
  Forall2 (Forall2 R) a lab → pix lab r c = Some l →
  ∃ x, pix a r c = Some x ∧ R x l.
Proof.
  intros HF Hl. unfold pix in *.
  destruct (lab !! r) as [rl|] eqn:El; [|done]. simpl in Hl.
  destruct (Forall2_lookup_r _ _ _ _ _ HF El) as (ra & -> & Hrow).
  simpl. by apply (Forall2_lookup_r _ _ _ _ _ Hrow Hl).
Qed.

(** C4.  Given the analyzer's contract on the input, the call returns a
    stack of the shape of the input whose samples are 0 or 1; in each slice
    a sample is 1 exactly when its label is a region (not 0) whose AREA is
    at least [area], so every region of smaller AREA is erased.  Hence the
    region of the output through a sample that is 1 is the set of pixels
    of that label, AREA of them and so at least [area]: no region of the
    output is smaller than [area]. *)
Theorem remove_spots_erases_small
    (adj : relation pixel) (cc : volume → list image * list DataFrame)
    (img : volume) (area : Z) :
  analyzer_contract img (cc img) →
  Forall2 (labels_are_components adj) img (cc img).1 →
  ∃ out, remove_spots cc img area = Ok out
    ∧ vshape out = vshape img
    ∧ (∀ i r c x, voxel out i r c = Some x → x = 0%Z ∨ x = 1%Z)
    ∧ ∀ i lab stat o,
        (cc img).1 !! i = Some lab → (cc img).2 !! i = Some stat →
        out !! i = Some o →
        ∀ p l, pix lab p.1 p.2 = Some l →
          ∃ row, stat !! Z.to_nat l = Some (l, row)
            ∧ pix o p.1 p.2
              = Some (if decide (l ≠ 0%Z ∧ (area ≤ AREA row)%Z)
                      then 1%Z else 0%Z)
            ∧ (pix o p.1 p.2 = Some 1%Z →
               AREA row = Z.of_nat (count_label lab l)
               ∧ (area ≤ AREA row)%Z
               ∧ ∀ q, connected adj o p q ↔ pix lab q.1 q.2 = Some l).
Proof.
  intros Hc Hcomp. pose proof Hc as (_ & Hl1 & Hl2).
  destruct (remove_spots_voxels cc img area Hc)
    as (out & Hrun & Hlen & Hout & Hvox).
  exists out. split; [done|]. split; [|split].
  - apply list_eq. intros i. unfold vshape. rewrite !list_lookup_fmap.
    destruct ((cc img).1 !! i) as [lab|] eqn:Hlab.
    + destruct (lookup_lt_is_Some_2 (cc img).2 i) as [stat Hstat].
      { apply lookup_lt_Some in Hlab. lia. }
      destruct (analyzer_contract_slice img (cc img) i lab stat Hc Hlab Hstat)
        as (a & Ha & Hshape & _).
      destruct (Hout i lab Hlab) as (lab' & -> & Hs'). rewrite Ha. simpl.
      by rewrite ishape_imap2, Hs', Hshape.
    + apply lookup_ge_None in Hlab.
      rewrite (lookup_ge_None_2 out i), (lookup_ge_None_2 img i) by lia.
      done.
  - intros i r c x Hx. unfold voxel in Hx.
    destruct (out !! i) as [o|] eqn:Ho; [|done]. simpl in Hx.
    destruct (lookup_lt_is_Some_2 (cc img).1 i) as [lab Hlab].
    { apply lookup_lt_Some in Ho. lia. }
    destruct (Hout i lab Hlab) as (lab' & Ho' & _).
    rewrite Ho' in Ho. injection Ho as <-.
    rewrite pix_imap2 in Hx.
    destruct (pix _ r c) as [y|]; [|done]. simpl in Hx.
    injection Hx as <-. case_decide; auto.
  - intros i lab stat o Hlab Hstat Ho.
    assert (∀ p l, pix lab p.1 p.2 = Some l →
              ∃ row, stat !! Z.to_nat l = Some (l, row)
                ∧ AREA row = Z.of_nat (count_label lab l)
                ∧ pix o p.1 p.2
                  = Some (if decide (l ≠ 0%Z ∧ (area ≤ AREA row)%Z)
                          then 1%Z else 0%Z)) as Hpix.
    { intros p l Hl.
      destruct (Hvox i lab stat Hlab Hstat p.1 p.2 l Hl)
        as (row & Hrow & HA & _ & Hv).
      exists row. split; [done|]. split; [done|].
      unfold voxel in Hv. by rewrite Ho in Hv. }
    destruct (analyzer_contract_slice img (cc img) i lab stat Hc Hlab Hstat)
      as (a & Ha & Hshape & Hbg & _).
    assert (ishape o = ishape lab) as Hso.
    { destruct (Hout i lab Hlab) as (lab' & Ho' & Hs').
      assert (o = imap2 (λ x, if decide (x ≠ 0%Z) then 1%Z else 0%Z) lab')
        as -> by congruence.
      by rewrite ishape_imap2. }
    intros p l Hl. destruct (Hpix p l Hl) as (row & Hrow & HA & Hv).
    exists row. split; [done|]. split; [done|].
    rewrite Hv. intros [= Hone].
    destruct (decide (l ≠ 0%Z ∧ (area ≤ AREA row)%Z)) as [[Hl0 Hge]|];
      [|done].
    split; [done|]. split; [done|].
    set (keep := λ l' : Z,
           l' ≠ 0%Z ∧ ∃ row', stat !! Z.to_nat l' = Some (l', row')
                              ∧ (area ≤ AREA row')%Z).
    apply (kept_regions_are_regions adj a lab o keep).
    + apply (Forall2_lookup_lr _ _ _ _ _ _ Hcomp Ha Hlab).
    + intros z. split.
      * intros (x & Hx & Hx0).
        destruct (ishape_pix_is_Some o lab z.1 z.2 Hso) as [l' Hl'];
          [by eexists|].
        exists l'. split; [done|].
        destruct (Hpix z l' Hl') as (row' & Hrow' & _ & Hv').
        rewrite Hx in Hv'. injection Hv' as ->.
        case_decide as Hd; [|done]. destruct Hd. split; [done|]. eauto.
      * intros (l' & Hl' & Hl0' & row' & Hrow' & Hge').
        destruct (Hpix z l' Hl') as (row'' & Hrow'' & _ & Hv').
        assert (row'' = row') as -> by congruence.
        rewrite decide_True in Hv' by done. by exists 1%Z.
    + intros z l' Hl' [Hl0' _].
      destruct (pix_Forall2_r _ a lab z.1 z.2 l' Hbg Hl') as (x & Hx & Hxl).
      exists x. split; [done|]. tauto.
    + done.
    + split; [done|]. eauto.
Qed.

Lemma remove_spots_erases_small_witness :
  ∃ out, remove_spots (λ _, ones_stack_analysis) ones_stack 2 = Ok out
    ∧ vshape out = vshape ones_stack
    ∧ (∀ i r c x, voxel out i r c = Some x → x = 0%Z ∨ x = 1%Z)
    ∧ ∀ i lab stat o,
        ones_stack_analysis.1 !! i = Some lab →
        ones_stack_analysis.2 !! i = Some stat →
        out !! i = Some o →
        ∀ p l, pix lab p.1 p.2 = Some l →
          ∃ row, stat !! Z.to_nat l = Some (l, row)
            ∧ pix o p.1 p.2
              = Some (if decide (l ≠ 0%Z ∧ (2 ≤ AREA row)%Z)
                      then 1%Z else 0%Z)
            ∧ (pix o p.1 p.2 = Some 1%Z →
               AREA row = Z.of_nat (count_label lab l)
               ∧ (2 ≤ AREA row)%Z
               ∧ ∀ q, connected adjacent8 o p q ↔ pix lab q.1 q.2 = Some l).
Proof.
  apply (remove_spots_erases_small adjacent8 (λ _, ones_stack_analysis)
           ones_stack 2).
  - compute_done.
  - constructor; [apply components_check_sound; compute_done|].
    constructor; [apply components_check_sound; compute_done|].
    constructor.
Defined.

(** ** select_greater_connected_regions *)

Lemma setitem_mask_scalar (lab : image) j v :
  setitem_mask lab (map (map (λ x, bool_decide (x = j))) lab) v
  = set_where_eq j v lab.
Proof.
  unfold setitem_mask, set_where_eq, imap2.
  rewrite zip_with_fmap_r, zip_with_diag. apply list_fmap_ext.
  intros _ row _. rewrite zip_with_fmap_r, zip_with_diag.
  apply list_fmap_ext. intros _ x _. simpl.
  by case_bool_decide; case_decide.
Qed.

Lemma insert_desc_perm r (df : DataFrame) : insert_desc r df ≡ₚ r :: df.
Proof.
  induction df as [|x df IH]; simpl; [done|].
  destruct (AREA r.2 <? AREA x.2)%Z; [|done].
  rewrite IH. apply Permutation_swap.
Qed.

Lemma sort_values_perm (df : DataFrame) : sort_values_AREA_desc df ≡ₚ df.
Proof.
  induction df as [|x df IH]; simpl; [done|].
  rewrite insert_desc_perm. by rewrite IH.
Qed.

Lemma filter_none {A : Type} (P : A → Prop) `{∀ x, Decision (P x)} l :
  (∀ z, z ∈ l → ¬ P z) → filter P l = [].
Proof.
  induction l as [|z l IH]; intros Hno; [done|].
  rewrite filter_cons_False by (apply Hno; set_solver).
  apply IH. intros w Hw. apply Hno. set_solver.
Qed.

Lemma filter_unique {A B : Type} `{EqDecision B} (f : A → B) (l : list A) x :
  NoDup (f <$> l) → x ∈ l → filter (λ y, f y = f x) l = [x].
Proof.
  induction l as [|y l IH]; intros Hnd Hin; [by apply elem_of_nil in Hin|].
  rewrite fmap_cons in Hnd. apply NoDup_cons in Hnd as [Hy Hnd].
  assert (∀ z, z ∈ l → f z ≠ f y) as Hother.
  { intros z Hz E. apply Hy. rewrite <- E. apply list_elem_of_fmap. eauto. }
  apply elem_of_cons in Hin as [->|Hin].
  - rewrite filter_cons_True by done. f_equal. by apply filter_none.
  - rewrite filter_cons_False; [by apply IH|].
    intros E. by apply (Hother x Hin).
Qed.

Lemma select_pass (sorted : DataFrame) (lab : image) i :
  NoDup (column AREA sorted) → i < length sorted →
  (a ← df_iat_AREA sorted i;
   mask ← eq_broadcast lab (np_uint8 <$> df_index (query_AREA_eq a sorted));
   mret (setitem_mask lab mask 255%Z))
  = Ok (set_where_eq (pass_label sorted i) 255%Z lab).
Proof.
  intros Hnd Hi.
  destruct (lookup_lt_is_Some_2 sorted i Hi) as [r Hr].
  unfold df_iat_AREA, pass_label. rewrite Hr. simpl.
  unfold query_AREA_eq.
  rewrite (filter_unique (λ r : Z * stat_row, AREA r.2) sorted r Hnd)
    by by eapply list_elem_of_lookup_2.
  simpl. by rewrite setitem_mask_scalar.
Qed.

Lemma select_loop (sorted : DataFrame) idxs : ∀ lab : image,
  NoDup (column AREA sorted) → Forall (λ i, i < length sorted) idxs →
  foldlM (λ lab i,
            a ← df_iat_AREA sorted i;
            mask ← eq_broadcast lab
                     (np_uint8 <$> df_index (query_AREA_eq a sorted));
            mret (setitem_mask lab mask 255%Z)) idxs lab
  = Ok (mark_labels (pass_label sorted <$> idxs) lab).
Proof.
  induction idxs as [|i idxs IH]; intros lab Hnd Hall; [done|].
  apply Forall_cons in Hall as [Hi Hall].
  cbn [foldlM]. rewrite (select_pass sorted lab i Hnd Hi).
  simpl. unfold mbind, result_bind. by rewrite IH.
Qed.

Lemma df_drop_background (stat : DataFrame) :
  0%Z ∈ df_index stat → df_drop 0 stat = Ok (foreground_rows stat).
Proof. intros H. unfold df_drop. by rewrite decide_True. Qed.

(** A slice with pairwise distinct areas: every pass succeeds. *)
Lemma select_slice_distinct n_reg (stat : DataFrame) (lab : image) :
  0%Z ∈ df_index stat → distinct_areas stat →
  select_slice n_reg (stat, lab) = Ok (selected_slice n_reg (stat, lab)).
Proof.
  intros H0 Hd. unfold select_slice, selected_slice.
  rewrite (df_drop_background stat H0). simpl. unfold mbind at 1, result_bind.
  set (sorted := sort_values_AREA_desc (foreground_rows stat)).
  case_decide as Hlen; [|done].
  rewrite select_loop; [done| |].
  - unfold column, sorted. rewrite sort_values_perm. apply Hd.
  - apply Forall_forall. intros i Hi. unfold range in Hi.
    apply elem_of_seq in Hi. lia.
Qed.

(** A non-positive count: the loop has no pass, and the slice keeps only
    what already carried the value 255. *)
Lemma select_slice_nonpositive n_reg (stat : DataFrame) (lab : image) :
  (n_reg ≤ 0)%Z → 0%Z ∈ df_index stat →
  select_slice n_reg (stat, lab) = Ok (set_where_ne 255 0 lab).
Proof.
  intros Hn H0. unfold select_slice.
  rewrite (df_drop_background stat H0). simpl. unfold mbind at 1, result_bind.
  rewrite decide_True by lia.
  unfold range. by replace (Z.to_nat n_reg) with 0 by lia.
Qed.

Lemma mapM_cons {A B : Type} (f : A → result B) x (l : list A) :
  mapM f (x :: l) = (y ← f x; k ← mapM f l; mret (y :: k)).
Proof. done. Qed.

Lemma mapM_Ok {A B : Type} (f : A → result B) (g : A → B) (l : list A) :
  Forall (λ x, f x = Ok (g x)) l → mapM f l = Ok (g <$> l).
Proof.
  induction l as [|x l IH]; intros Hall; [done|].
  apply Forall_cons in Hall as [Hx Hall].
  by rewrite mapM_cons, Hx, (IH Hall).
Qed.

Lemma contract_background_row a lab (stat : DataFrame) :
  slice_contract a lab stat → 0%Z ∈ df_index stat.
Proof.
  intros (_ & _ & Hidx & Hlen & _). rewrite Hidx.
  apply list_elem_of_fmap. exists 0. split; [done|].
  apply elem_of_seq. lia.
Qed.

Lemma analyzer_contract_zip img out i stat lab :
  analyzer_contract img out → zip out.2 out.1 !! i = Some (stat, lab) →
  ∃ a, img !! i = Some a ∧ slice_contract a lab stat.
Proof.
  intros Hc Hz. apply lookup_zip_with_Some in Hz as (s & l & [= -> ->] & ? & ?).
  by apply (analyzer_contract_slice img out i).
Qed.

Lemma pix_set_where_ne j (lab : image) r c x :
  pix (set_where_ne j 0 lab) r c = Some x → x = 0%Z ∨ x = j.
Proof.
  unfold set_where_ne. rewrite pix_imap2.
  destruct (pix lab r c) as [y|]; [|done]. simpl. intros [= <-].
  case_decide; [auto|]. right. by destruct (decide (y = j)).
Qed.

Lemma pix_selected_slice n_reg sl r c x :
  pix (selected_slice n_reg sl) r c = Some x → x = 0%Z ∨ x = 255%Z.
Proof.
  unfold selected_slice. cbv zeta. case_decide; intros Hp.
  - by apply pix_set_where_ne in Hp.
  - apply pix_set_where_ne in Hp. tauto.
Qed.

Lemma ishape_mark_labels js : ∀ lab, ishape (mark_labels js lab) = ishape lab.
Proof.
  induction js as [|j js IH]; intros lab; [done|].
  change (mark_labels (j :: js) lab)
    with (mark_labels js (set_where_eq j 255%Z lab)).
  rewrite IH. apply ishape_imap2.
Qed.

Lemma ishape_selected_slice n_reg sl :
  ishape (selected_slice n_reg sl) = ishape sl.2.
Proof.
  unfold selected_slice. cbv zeta. case_decide; unfold set_where_ne.
  - by rewrite ishape_imap2, ishape_mark_labels.
  - by rewrite ishape_imap2.
Qed.

Lemma select_run cc img n_reg (g : DataFrame * image → image) :
  Forall (λ sl, select_slice n_reg sl = Ok (g sl))
    (zip (cc img).2 (cc img).1) →
  select_greater_connected_regions cc img n_reg
  = Ok (vmap np_uint8 (g <$> zip (cc img).2 (cc img).1)).
Proof.
  intros Hall. unfold select_greater_connected_regions.
  destruct (cc img) as [labs stats]. simpl in *.
  by rewrite (mapM_Ok _ g _ Hall).
Qed.

Lemma select_run_distinct cc img n_reg :
  analyzer_contract img (cc img) → Forall distinct_areas (cc img).2 →
  select_greater_connected_regions cc img n_reg
  = Ok (vmap np_uint8 (selected_slice n_reg <$> zip (cc img).2 (cc img).1)).
Proof.
  intros Hc Hd. apply select_run. apply Forall_lookup_2.
  intros i [stat lab] Hz.
  destruct (analyzer_contract_zip img (cc img) i stat lab Hc Hz)
    as (a & Ha & Hs).
  apply select_slice_distinct.
  - by apply (contract_background_row a lab).
  - apply lookup_zip_with_Some in Hz as (s & l & [= -> ->] & Hstat & _).
    apply (Forall_lookup_1 _ _ _ _ Hd Hstat).
Qed.

Lemma vshape_selected img out (g : DataFrame * image → image) :
  analyzer_contract img out →
  (∀ sl, ishape (g sl) = ishape sl.2) →
  vshape (vmap np_uint8 (g <$> zip out.2 out.1)) = vshape img.
Proof.
  intros Hc Hg. rewrite vshape_vmap. pose proof Hc as (_ & Hl1 & Hl2).
  apply list_eq. intros i. unfold vshape. rewrite !list_lookup_fmap.
  destruct (zip out.2 out.1 !! i) as [[stat lab]|] eqn:Hz.
  - destruct (analyzer_contract_zip img out i stat lab Hc Hz)
      as (a & Ha & Hshape & _).
    rewrite Ha. simpl. by rewrite Hg, <- Hshape.
  - apply lookup_ge_None in Hz. rewrite length_zip_with in Hz.
    by rewrite (lookup_ge_None_2 img i) by lia.
Qed.

Lemma mapM_Ok_inv {A B : Type} (f : A → result B) (l : list A) ys :
  mapM f l = Ok ys → Forall2 (λ x y, f x = Ok y) l ys.
Proof.
  revert ys. induction l as [|x l IH]; intros ys.
  - intros [= <-]. constructor.
  - rewrite mapM_cons. destruct (f x) as [y|e] eqn:Hx; [|done]. simpl.
    unfold mbind at 1, result_bind.
    destruct (mapM f l) as [k|e]; [|done]. simpl. intros [= <-].
    constructor; [done|]. by apply IH.
Qed.

(** Whatever the passes did, the last assignment of [select_slice] leaves
    only the values 0 and 255. *)
Lemma select_slice_values n_reg sl out r c x :
  select_slice n_reg sl = Ok out → pix out r c = Some x →
  x = 0%Z ∨ x = 255%Z.
Proof.
  destruct sl as [stat lab]. unfold select_slice.
  destruct (df_drop 0 stat) as [fgs|e]; [|done]. simpl.
  unfold mbind at 1, result_bind. case_decide.
  - destruct (foldlM _ _ lab) as [lab'|e]; [|done]. simpl.
    intros [= <-] Hx. by apply pix_set_where_ne in Hx.
  - intros [= <-] Hx. apply pix_set_where_ne in Hx. tauto.
Qed.

(** C1, at a slice with two regions of the same AREA and [n_reg = 1]: the
    analysis satisfies the contract, the slice has two regions, labels 1
    and 2, both of AREA 1, and the call keeps both of them, where the
    single largest region was asked for. *)
Theorem select_keeps_both_of_a_tie :
  analyzer_contract two_spots two_spots_analysis
  ∧ (∃ stat, two_spots_analysis.2 = [stat]
             ∧ column AREA (foreground_rows stat) = [1; 1]%Z
             ∧ df_index (foreground_rows stat) = [1; 2]%Z)
  ∧ select_greater_connected_regions (λ _, two_spots_analysis) two_spots 1
    = Ok [ [ [255; 0]; [0; 0]; [0; 255] ] ]%Z.
Proof.
  split; [compute_done|]. split; [|done].
  eexists. split; [done|]. done.
Qed.

(** ** Top-N selection when no two regions tie *)

Lemma pix_mark_labels js : ∀ (lab : image) r c,
  pix (mark_labels js lab) r c
  = (λ x, if decide (x = 255%Z ∨ x ∈ js) then 255%Z else x) <$> pix lab r c.
Proof.
  induction js as [|j js IH]; intros lab r c.
  - change (mark_labels [] lab) with lab.
    destruct (pix lab r c) as [x|]; [|done]. simpl. f_equal.
    case_decide as Hd; [|done]. destruct Hd as [->|Hd]; [done|].
    by apply elem_of_nil in Hd.
  - change (mark_labels (j :: js) lab)
      with (mark_labels js (set_where_eq j 255%Z lab)).
    rewrite IH. unfold set_where_eq. rewrite pix_imap2.
    destruct (pix lab r c) as [x|]; [|done]. simpl. f_equal.
    destruct (decide (x = j)) as [->|Hne].
    + rewrite decide_True by auto. by rewrite decide_True by set_solver.
    + destruct (decide (x = 255%Z ∨ x ∈ js)) as [Hd|Hd].
      * by rewrite decide_True by set_solver.
      * by rewrite decide_False by set_solver.
Qed.

Lemma insert_desc_sorted r (df : DataFrame) :
  StronglySorted (λ x y, AREA y.2 ≤ AREA x.2)%Z df →
  StronglySorted (λ x y, AREA y.2 ≤ AREA x.2)%Z (insert_desc r df).
Proof.
  induction df as [|x df IH]; intros Hs; simpl.
  - repeat constructor.
  - apply StronglySorted_inv in Hs as [Hs Hx].
    destruct (AREA r.2 <? AREA x.2)%Z eqn:E.
    + apply Z.ltb_lt in E. constructor; [by apply IH|].
      rewrite insert_desc_perm. constructor; [lia|done].
    + apply Z.ltb_ge in E. constructor; [by constructor|].
      constructor; [done|].
      eapply Forall_impl; [exact Hx|]. simpl. intros y Hy. lia.
Qed.

Lemma sort_values_sorted (df : DataFrame) :
  StronglySorted (λ x y, AREA y.2 ≤ AREA x.2)%Z (sort_values_AREA_desc df).
Proof.
  induction df as [|x df IH]; simpl; [constructor|].
  by apply insert_desc_sorted.
Qed.

Lemma elem_of_take_1 {A : Type} (x : A) n l : x ∈ take n l → x ∈ l.
Proof.
  intros Hx. apply elem_of_take in Hx as (i & Hi & _).
  by eapply list_elem_of_lookup_2.
Qed.

(** Below [n_reg] passes the loop looks for the labels of the first
    [n_reg] rows of the sorted table, cast to uint8. *)
Lemma pass_labels_take (sorted : DataFrame) k :
  k ≤ length sorted →
  pass_label sorted <$> seq 0 k = np_uint8 <$> df_index (take k sorted).
Proof.
  intros Hk. apply list_eq. intros i.
  unfold df_index. rewrite !list_lookup_fmap.
  destruct (decide (i < k)) as [Hi|Hi].
  - rewrite lookup_seq_lt by done. rewrite lookup_take_lt by done.
    destruct (lookup_lt_is_Some_2 sorted i) as [r Hr]; [lia|].
    simpl. unfold pass_label. by rewrite Hr.
  - rewrite lookup_seq_ge by lia. rewrite lookup_take_ge by lia. done.
Qed.

(** The [n_reg] largest regions: as many labels as asked for, each the
    label of a region, and no region left out has a larger AREA than one
    taken. *)
Lemma largest_labels_spec n_reg (stat : DataFrame) :
  (0 ≤ n_reg ≤ Z.of_nat (length (foreground_rows stat)))%Z →
  length (largest_labels n_reg stat) = Z.to_nat n_reg
  ∧ ∀ j, j ∈ largest_labels n_reg stat →
      ∃ row, (j, row) ∈ foreground_rows stat
        ∧ ∀ j' row', (j', row') ∈ foreground_rows stat →
            j' ∉ largest_labels n_reg stat → (AREA row' ≤ AREA row)%Z.
Proof.
  intros Hn. unfold largest_labels.
  set (sorted := sort_values_AREA_desc (foreground_rows stat)).
  assert (sorted ≡ₚ foreground_rows stat) as Hperm by apply sort_values_perm.
  assert (length sorted = length (foreground_rows stat)) as Hlen
    by by rewrite Hperm.
  split.
  - unfold df_index. rewrite length_fmap, length_take. lia.
  - intros j Hj. unfold df_index in Hj.
    apply list_elem_of_fmap in Hj as ([j0 row] & -> & Hin). simpl.
    exists row. split.
    { rewrite <- Hperm. by eapply elem_of_take_1. }
    intros j' row' Hin' Hout.
    rewrite <- Hperm in Hin'.
    rewrite <- (take_drop (Z.to_nat n_reg) sorted) in Hin'.
    apply elem_of_app in Hin' as [Hin'|Hin'].
    + exfalso. apply Hout. unfold df_index. apply list_elem_of_fmap.
      by exists (j', row').
    + pose proof (sort_values_sorted (foreground_rows stat)) as Hs.
      fold sorted in Hs.
      rewrite <- (take_drop (Z.to_nat n_reg) sorted) in Hs.
      apply (StronglySorted_app_1_elem_of _ _ _ _ _ Hs Hin Hin').
Qed.

Lemma contract_label_uint8 a lab (stat : DataFrame) j row :
  slice_contract a lab stat → length stat ≤ 255 →
  (j, row) ∈ foreground_rows stat → (1 ≤ j < 255)%Z ∧ np_uint8 j = j.
Proof.
  intros (_ & _ & Hidx & _) Hlen Hin.
  apply list_elem_of_filter in Hin as [Hne Hin]. simpl in Hne.
  apply list_elem_of_lookup in Hin as [p Hp].
  pose proof (range_index_lookup stat p j row Hidx Hp) as ->.
  apply lookup_lt_Some in Hp.
  split; [lia|]. unfold np_uint8. rewrite Z.mod_small; lia.
Qed.

(** With the analyzer's contract, pairwise distinct areas and at most 254
    regions in a slice, the call returns, and a sample is 255 exactly when
    the slice has at least [n_reg] regions and the sample lies in one of
    the [n_reg] largest; every other sample is 0. *)
Lemma select_keeps_largest cc img n_reg :
  analyzer_contract img (cc img) →
  Forall distinct_areas (cc img).2 →
  Forall (λ stat : DataFrame, length stat ≤ 255) (cc img).2 →
  ∃ out, select_greater_connected_regions cc img n_reg = Ok out
    ∧ vshape out = vshape img
    ∧ ∀ i lab stat,
        (cc img).1 !! i = Some lab → (cc img).2 !! i = Some stat →
        ∀ r c l, pix lab r c = Some l →
          voxel out i r c
          = Some (if decide ((n_reg ≤ Z.of_nat (length (foreground_rows stat)))%Z
                             ∧ l ∈ largest_labels n_reg stat)
                  then 255%Z else 0%Z).
Proof.
  intros Hc Hd H255. eexists. split; [by apply select_run_distinct|].
  split; [apply vshape_selected; [done|]; apply ishape_selected_slice|].
  intros i lab stat Hlab Hstat r c l Hl.
  rewrite voxel_vmap. unfold voxel. rewrite list_lookup_fmap.
  assert (zip (cc img).2 (cc img).1 !! i = Some (stat, lab)) as ->.
  { apply lookup_zip_with_Some. eauto. }
  simpl.
  destruct (analyzer_contract_slice img (cc img) i lab stat Hc Hlab Hstat)
    as (a & Ha & Hs).
  pose proof (Forall_lookup_1 _ _ _ _ H255 Hstat) as Hlen. simpl in Hlen.
  assert (0 ≤ l < 255)%Z as Hlr.
  { destruct Hs as (_ & _ & _ & _ & Hrange & _).
    destruct (pix_elem_of lab r c l Hl) as (lrow & Hlrow & Hlin).
    rewrite Forall_forall in Hrange. specialize (Hrange lrow Hlrow).
    rewrite Forall_forall in Hrange. specialize (Hrange l Hlin). lia. }
  unfold selected_slice. cbv zeta. simpl.
  set (sorted := sort_values_AREA_desc (foreground_rows stat)).
  assert (length sorted = length (foreground_rows stat)) as Hlens
    by (unfold sorted; by rewrite sort_values_perm).
  rewrite Hlens.
  destruct (decide (Z.of_nat (length (foreground_rows stat)) > n_reg - 1)%Z)
    as [Hge|Hlt].
  - unfold set_where_ne. rewrite pix_imap2, pix_mark_labels, Hl. simpl.
    f_equal. unfold range.
    rewrite pass_labels_take by lia.
    assert (np_uint8 <$> df_index (take (Z.to_nat n_reg) sorted)
            = largest_labels n_reg stat) as ->.
    { unfold largest_labels. fold sorted. unfold df_index.
      rewrite <- list_fmap_compose. apply list_fmap_ext.
      intros k [j row] Hk. simpl.
      apply (contract_label_uint8 a lab stat j row Hs Hlen).
      rewrite <- (sort_values_perm (foreground_rows stat)). fold sorted.
      apply list_elem_of_lookup_2 in Hk. by eapply elem_of_take_1. }
    destruct (decide (l = 255%Z ∨ l ∈ largest_labels n_reg stat))
      as [[?|Hin]|Hout]; [lia| |].
    + rewrite decide_False by (intros ?; done).
      by rewrite decide_True by (split; [lia|done]).
    + rewrite decide_True by lia.
      by rewrite decide_False by tauto.
  - unfold set_where_ne. rewrite pix_imap2, Hl. simpl. f_equal.
    destruct (decide (_ ∧ _)) as [[? _]|_]; [lia|].
    destruct (decide (l ≠ 0%Z)); [done|].
    by replace l with 0%Z by lia.
Qed.

(** The labels of the largest regions are labels of regions: the
    background row is dropped before the table is sorted. *)
Lemma largest_labels_regions n_reg (stat : DataFrame) j :
  j ∈ largest_labels n_reg stat → j ≠ 0%Z.
Proof.
  unfold largest_labels, df_index. intros Hj.
  apply list_elem_of_fmap in Hj as ([j' row] & -> & Hin).
  apply elem_of_take in Hin as (i & Hi & _).
  apply list_elem_of_lookup_2 in Hi. rewrite sort_values_perm in Hi.
  by apply list_elem_of_filter in Hi as [Hne _].
Qed.

(** C9, amended.  Whatever values the input uses, a result of the call
    holds the values 0 and 255 only: whenever a call returns, for any
    analyzer and input, every sample of its result is 0 or 255.  Given the
    analyzer's contract and slices whose regions have pairwise distinct
    areas, the call returns a stack of the shape of the input; when
    moreover no table has more than 255 rows, the result is 0 wherever the
    input is 0, so that 0 encodes the background and 255 is found on
    foreground pixels of the input only. *)
Theorem select_output_is_0_255
    (cc : volume → list image * list DataFrame) (img : volume) (n_reg : Z) :
  analyzer_contract img (cc img) → Forall distinct_areas (cc img).2 →
  (∃ out, select_greater_connected_regions cc img n_reg = Ok out
     ∧ vshape out = vshape img
     ∧ (∀ i r c x, voxel out i r c = Some x → x = 0%Z ∨ x = 255%Z)
     ∧ (Forall (λ stat : DataFrame, length stat ≤ 255) (cc img).2 →
        ∀ i r c, voxel img i r c = Some 0%Z → voxel out i r c = Some 0%Z))
  ∧ ∀ cc' img' n_reg' out',
      select_greater_connected_regions cc' img' n_reg' = Ok out' →
      ∀ i r c x, voxel out' i r c = Some x → x = 0%Z ∨ x = 255%Z.
Proof.
  intros Hc Hd.
  assert (∀ cc' img' n_reg' out',
            select_greater_connected_regions cc' img' n_reg' = Ok out' →
            ∀ i r c x, voxel out' i r c = Some x → x = 0%Z ∨ x = 255%Z)
    as Hany.
  { intros cc' img' n_reg' out'. unfold select_greater_connected_regions.
    destruct (cc' img') as [labs stats].
    destruct (mapM _ _) as [m|e] eqn:Hm; [|done]. simpl. intros [= <-].
    apply mapM_Ok_inv in Hm. intros i r c x. rewrite voxel_vmap.
    unfold voxel. destruct (m !! i) as [o|] eqn:Ho; [|done]. simpl.
    destruct (Forall2_lookup_r _ _ _ _ _ Hm Ho) as (sl & _ & Hsl).
    destruct (pix o r c) as [y|] eqn:Hy; [|done]. simpl. intros [= <-].
    destruct (select_slice_values n_reg' sl o r c y Hsl Hy) as [->| ->];
      auto. }
  split; [|done].
  pose proof (select_run_distinct cc img n_reg Hc Hd) as Hrun.
  eexists. split; [exact Hrun|]. split; [|split].
  - apply vshape_selected; [done|]. apply ishape_selected_slice.
  - by apply (Hany cc img n_reg).
  - intros H255 i r c Hx.
    destruct (select_keeps_largest cc img n_reg Hc Hd H255)
      as (out & Hout & _ & Hvox).
    rewrite Hrun in Hout. injection Hout as ->.
    unfold voxel in Hx. destruct (img !! i) as [a|] eqn:Ha; [|done].
    simpl in Hx.
    destruct (analyzer_contract_img img (cc img) i a Hc Ha)
      as (lab & stat & Hlab & Hstat & _ & Hbg & _).
    destruct (pix_Forall2 _ a lab r c 0%Z Hbg Hx) as (l & Hl & Hl0).
    assert (l = 0%Z) as -> by tauto.
    rewrite (Hvox i lab stat Hlab Hstat r c 0%Z Hl).
    rewrite decide_False; [done|].
    intros [_ Hin]. by apply largest_labels_regions in Hin.
Qed.

Lemma select_output_is_0_255_witness :
  (∃ out,
     select_greater_connected_regions (λ _, ones_stack_analysis) ones_stack 1
     = Ok out
     ∧ vshape out = vshape ones_stack
     ∧ (∀ i r c x, voxel out i r c = Some x → x = 0%Z ∨ x = 255%Z)
     ∧ ∀ i r c, voxel ones_stack i r c = Some 0%Z →
         voxel out i r c = Some 0%Z)
  ∧ ∀ cc' img' n_reg' out',
      select_greater_connected_regions cc' img' n_reg' = Ok out' →
      ∀ i r c x, voxel out' i r c = Some x → x = 0%Z ∨ x = 255%Z.
Proof.
  destruct (select_output_is_0_255 (λ _, ones_stack_analysis) ones_stack 1)
    as [(out & Hrun & Hshape & Hval & Hbg) Hany].
  - compute_done.
  - compute_done.
  - split; [|exact Hany]. exists out.
    split; [exact Hrun|]. split; [exact Hshape|]. split; [exact Hval|].
    apply Hbg. compute_done.
Defined.

(** C9 as stated fails: a stack that uses 0 and 1 comes back with 0 and
    255. *)
Lemma select_changes_convention :
  analyzer_contract ones_stack ones_stack_analysis
  ∧ binary_volume 1 ones_stack
  ∧ select_greater_connected_regions (λ _, ones_stack_analysis) ones_stack 1
    = Ok [ [ [255; 255; 0; 0] ]; [ [0; 0; 0; 0] ] ]%Z
  ∧ ¬ binary_volume 1 [ [ [255; 255; 0; 0] ]; [ [0; 0; 0; 0] ] ]%Z.
Proof.
  split; [compute_done|]. split; [compute_done|]. split; [done|].
  compute_done.
Qed.

(** ** bit_plane_slices *)

Lemma imap2_compose f g (a : image) : imap2 f (imap2 g a) = imap2 (f ∘ g) a.
Proof.
  unfold imap2. rewrite <- list_fmap_compose. apply list_fmap_ext.
  intros _ row _. simpl. by rewrite <- list_fmap_compose.
Qed.

Lemma vmap_compose f g (v : volume) : vmap f (vmap g v) = vmap (f ∘ g) v.
Proof.
  unfold vmap. rewrite <- list_fmap_compose. apply list_fmap_ext.
  intros _ a _. simpl. apply imap2_compose.
Qed.

Lemma vzip_vmap_diag (op : Z → Z → Z) f g (v : volume) :
  vzip op (vmap f v) (vmap g v) = vmap (λ x, op (f x) (g x)) v.
Proof.
  unfold vzip, vmap, izip, imap2.
  rewrite zip_with_fmap_l, zip_with_fmap_r, zip_with_diag.
  apply list_fmap_ext. intros _ a _.
  rewrite zip_with_fmap_l, zip_with_fmap_r, zip_with_diag.
  apply list_fmap_ext. intros _ row _.
  by rewrite zip_with_fmap_l, zip_with_fmap_r, zip_with_diag.
Qed.

Lemma take_index_gl2bit (stack : volume) k :
  (-8 ≤ k < 8)%Z →
  take_index (gl2bit stack) k
  = Ok (vmap (λ x, Z.b2z (Z.testbit x (7 - k `mod` 8))) stack).
Proof.
  intros Hk. unfold take_index.
  assert (length (gl2bit stack) = 8) as -> by done.
  set (k' := if decide (k < 0)%Z then (k + Z.of_nat 8)%Z else k).
  assert (k' = k `mod` 8)%Z as Hk'.
  { pose proof (Z.div_mod k 8 ltac:(lia)).
    pose proof (Z.mod_pos_bound k 8 ltac:(lia)).
    unfold k'. case_decide; lia. }
  assert (0 ≤ k' < 8)%Z as Hr by (rewrite Hk'; by apply Z.mod_pos_bound).
  rewrite decide_True by lia.
  unfold gl2bit. rewrite list_lookup_fmap, lookup_seq_lt by lia. simpl.
  do 2 f_equal. rewrite <- Hk'. rewrite Z2Nat.id by lia. done.
Qed.

Lemma take_indices_cons {A : Type} (l : list A) k idx :
  take_indices l (k :: idx) = mapM (take_index l) (k :: idx).
Proof. done. Qed.

(** Three bit positions between 1 and 16: the call returns, and a sample of
    the result is the sum of the three weighted bits, cast to uint8. *)
Lemma bit_plane_slices_three (stack : volume) b1 b2 b3 :
  (1 ≤ b1 ≤ 16)%Z → (1 ≤ b2 ≤ 16)%Z → (1 ≤ b3 ≤ 16)%Z →
  bit_plane_slices stack [b1; b2; b3]
  = Ok (vmap (λ x, np_uint8 (weighted_bit b1 x + weighted_bit b2 x
                             + weighted_bit b3 x)) stack).
Proof.
  intros H1 H2 H3. unfold bit_plane_slices.
  rewrite !fmap_cons, take_indices_cons, !mapM_cons.
  rewrite !take_index_gl2bit by lia.
  unfold mapM. simpl. unfold sum_axis0. simpl.
  rewrite !vmap_compose, !vzip_vmap_diag, vmap_compose. done.
Qed.

(** A bit position between 1 and 8 contributes that bit of the sample, at
    its own significance. *)
Lemma weighted_bit_in_range b x :
  (1 ≤ b ≤ 8)%Z →
  weighted_bit b x = (Z.b2z (Z.testbit x (b - 1)) * 2 ^ (b - 1))%Z.
Proof.
  intros Hb. unfold weighted_bit. rewrite Z.mod_small by lia.
  by replace (7 - (8 - b))%Z with (b - 1)%Z by lia.
Qed.

(** C3, at the selection [bits = (8,)]: whatever the stack, the call does
    not return the most significant plane scaled by 128; the weights of a
    single position do not fit the shape (3, 1, 1, 1) the code reshapes
    them to, and the call raises [ValueError]. *)
Theorem bit_plane_slices_single_position (stack : volume) :
  bit_plane_slices stack [8%Z] = Raise ValueError.
Proof.
  unfold bit_plane_slices.
  rewrite !fmap_cons, take_indices_cons, mapM_cons.
  rewrite take_index_gl2bit by lia. done.
Qed.

(** ** Parameters outside their documented range *)


Lemma np_uint8_high_bits b1 b2 b3 x :
  (9 ≤ b1 ≤ 16)%Z → (9 ≤ b2 ≤ 16)%Z → (9 ≤ b3 ≤ 16)%Z →
  np_uint8 (weighted_bit b1 x + weighted_bit b2 x + weighted_bit b3 x) = 0%Z.
Proof.
  intros H1 H2 H3.
  assert (∀ b, (9 ≤ b ≤ 16)%Z →
            ∃ q, weighted_bit b x = (q * 256)%Z) as Hw.
  { intros b Hb. unfold weighted_bit.
    exists (Z.b2z (Z.testbit x (7 - (8 - b) `mod` 8)) * 2 ^ (b - 9))%Z.
    replace (b - 1)%Z with ((b - 9) + 8)%Z by lia.
    rewrite Z.pow_add_r by lia. change (2 ^ 8)%Z with 256%Z. lia. }
  destruct (Hw b1 H1) as [q1 ->], (Hw b2 H2) as [q2 ->],
    (Hw b3 H3) as [q3 ->].
  unfold np_uint8.
  replace (q1 * 256 + q2 * 256 + q3 * 256)%Z with ((q1 + q2 + q3) * 256)%Z
    by lia.
  by apply Z_mod_mult.
Qed.

(** C6, amended.  None of the three functions validates its parameter.
    With a non-positive [area], [remove_spots] returns the input made
    binary, nothing erased; with a non-positive [n_reg],
    [select_greater_connected_regions] returns a stack of the shape of the
    input that is background wherever the label is not 255; with three bit
    positions between 9 and 16, [bit_plane_slices] returns the all-zero
    stack. *)
Theorem invalid_parameters_return
    (cc : volume → list image * list DataFrame) (img : volume)
    (area n_reg : Z) (stack : volume) (b1 b2 b3 : Z) :
  analyzer_contract img (cc img) →
  (area ≤ 0)%Z → (n_reg ≤ 0)%Z →
  (9 ≤ b1 ≤ 16)%Z → (9 ≤ b2 ≤ 16)%Z → (9 ≤ b3 ≤ 16)%Z →
  (∃ out, remove_spots cc img area = Ok out
     ∧ ∀ i r c x, voxel img i r c = Some x →
         voxel out i r c = Some (if decide (x ≠ 0%Z) then 1%Z else 0%Z))
  ∧ (∃ out, select_greater_connected_regions cc img n_reg = Ok out
       ∧ vshape out = vshape img
       ∧ ∀ i r c l, voxel (cc img).1 i r c = Some l →
           voxel out i r c
           = Some (if decide (l = 255%Z) then 255%Z else 0%Z))
  ∧ bit_plane_slices stack [b1; b2; b3] = Ok (vmap (λ _, 0%Z) stack).
Proof.
  intros Hc Harea Hn H1 H2 H3. split; [|split].
  - destruct (remove_spots_voxels cc img area Hc)
      as (out & Hrun & _ & _ & Hvox).
    exists out. split; [done|]. intros i r c x Hx. unfold voxel in Hx.
    destruct (img !! i) as [a|] eqn:Ha; [|done]. simpl in Hx.
    destruct (analyzer_contract_img img (cc img) i a Hc Ha)
      as (lab & stat & Hlab & Hstat & _ & Hbg & _).
    destruct (pix_Forall2 _ a lab r c x Hbg Hx) as (l & Hl & Hl0).
    destruct (Hvox i lab stat Hlab Hstat r c l Hl)
      as (row & _ & _ & Hpos & ->).
    f_equal. destruct (decide (x = 0%Z)) as [->|Hx0].
    + rewrite decide_False by tauto. by rewrite decide_False by lia.
    + assert (l ≠ 0%Z) as Hl' by tauto. specialize (Hpos Hl').
      rewrite decide_True by (split; [done|lia]).
      by rewrite decide_True by done.
  - eexists. split.
    { apply (select_run cc img n_reg (λ sl, set_where_ne 255 0 sl.2)).
      apply Forall_lookup_2. intros i [stat lab] Hz.
      destruct (analyzer_contract_zip img (cc img) i stat lab Hc Hz)
        as (a & Ha & Hs).
      apply select_slice_nonpositive; [done|].
      by apply (contract_background_row a lab). }
    split.
    { apply vshape_selected; [done|]. intros sl. apply ishape_imap2. }
    intros i r c l Hl. rewrite voxel_vmap. unfold voxel in *.
    rewrite list_lookup_fmap.
    destruct ((cc img).1 !! i) as [lab|] eqn:Hlab; [|done]. simpl in Hl.
    destruct (lookup_lt_is_Some_2 (cc img).2 i) as [stat Hstat].
    { apply lookup_lt_Some in Hlab. destruct Hc as (_ & ? & ?). lia. }
    assert (zip (cc img).2 (cc img).1 !! i = Some (stat, lab)) as ->.
    { apply lookup_zip_with_Some. eauto. }
    simpl. unfold set_where_ne. rewrite pix_imap2, Hl. simpl. f_equal.
    destruct (decide (l = 255%Z)) as [->|Hne].
    + by rewrite decide_False by lia.
    + by rewrite decide_True by done.
  - rewrite bit_plane_slices_three by lia. f_equal.
    unfold vmap, imap2. apply list_fmap_ext. intros _ a _.
    apply list_fmap_ext. intros _ row _. apply list_fmap_ext. intros _ x _.
    by apply np_uint8_high_bits.
Qed.

Lemma invalid_parameters_return_witness :
  (∃ out, remove_spots (λ _, ones_stack_analysis) ones_stack (-3) = Ok out
     ∧ ∀ i r c x, voxel ones_stack i r c = Some x →
         voxel out i r c = Some (if decide (x ≠ 0%Z) then 1%Z else 0%Z))
  ∧ (∃ out,
       select_greater_connected_regions (λ _, ones_stack_analysis)
         ones_stack 0 = Ok out
       ∧ vshape out = vshape ones_stack
       ∧ ∀ i r c l, voxel ones_stack_analysis.1 i r c = Some l →
           voxel out i r c
           = Some (if decide (l = 255%Z) then 255%Z else 0%Z))
  ∧ bit_plane_slices [ [ [255; 128; 127] ] ]%Z [9; 10; 16]%Z
    = Ok (vmap (λ _, 0%Z) [ [ [255; 128; 127] ] ]%Z).
Proof.
  apply (invalid_parameters_return (λ _, ones_stack_analysis) ones_stack
           (-3) 0 [ [ [255; 128; 127] ] ]%Z 9 10 16).
  - compute_done.
  - lia.
  - lia.
  - lia.
  - lia.
  - lia.
Defined.

(** C6 as stated fails: with a negative area, a zero count of regions and a
    bit position 9, each call returns a stack instead of aborting. *)
Lemma invalid_parameters_do_not_abort :
  analyzer_contract ones_stack ones_stack_analysis
  ∧ remove_spots (λ _, ones_stack_analysis) ones_stack (-3)
    = Ok [ [ [1; 1; 0; 1] ]; [ [0; 0; 0; 0] ] ]%Z
  ∧ select_greater_connected_regions (λ _, ones_stack_analysis) ones_stack 0
    = Ok [ [ [0; 0; 0; 0] ]; [ [0; 0; 0; 0] ] ]%Z
  ∧ bit_plane_slices [ [ [255; 128; 127] ] ]%Z [9; 7; 1]%Z
    = Ok [ [ [65; 0; 65] ] ]%Z.
Proof. split; [compute_done|]. by repeat split. Qed.

(** * Further properties *)

(** ** Gap reconstruction, bit by bit *)

Lemma pix_or_upto_bits n h w (v : volume) j r c :
  is_volume n h w v → j < n → r < h → c < w →
  ∃ x, pix (or_upto v j) r c = Some x
       ∧ ∀ k, Z.testbit x k = true ↔ ∃ i, i ≤ j ∧ bit_at v i r c k.
Proof.
  intros Hv Hj Hr Hc. induction j as [|j IH]; simpl.
  - destruct (is_volume_lookup n h w v 0 Hv Hj) as [E Hi].
    destruct (pix_is_Some h w _ r c Hi Hr Hc) as [x Hx].
    exists x. split; [done|]. intros k. split.
    + intros Hk. exists 0. split; [done|]. exists x.
      by rewrite (voxel_lookup_total n h w).
    + intros (i & Hi0 & y & Hy & Hk). replace i with 0 in Hy by lia.
      rewrite (voxel_lookup_total n h w) in Hy by done. congruence.
  - destruct IH as (x & Hx & Hbits); [lia|].
    destruct (is_volume_lookup n h w v (S j) Hv Hj) as [E Hi].
    destruct (pix_is_Some h w _ r c Hi Hr Hc) as [y Hy].
    exists (Z.lor x y). unfold bitwise_or. rewrite pix_izip, Hx, Hy.
    split; [done|]. intros k. rewrite Z.lor_spec, orb_true_iff, Hbits.
    split.
    + intros [(i & Hi' & Hb)|Hk].
      * exists i. split; [lia|done].
      * exists (S j). split; [done|]. exists y.
        by rewrite (voxel_lookup_total n h w).
    + intros (i & Hi' & Hb). destruct (decide (i = S j)) as [->|].
      * right. destruct Hb as (z & Hz & Hk).
        rewrite (voxel_lookup_total n h w) in Hz by done. congruence.
      * left. exists i. split; [lia|done].
Qed.

Lemma pix_or_from_dist_bits n h w (v : volume) d r c : ∀ j,
  is_volume n h w v → j + d < n → r < h → c < w →
  ∃ x, pix (or_from_dist v j d) r c = Some x
       ∧ ∀ k, Z.testbit x k = true ↔ ∃ i, j ≤ i ≤ j + d ∧ bit_at v i r c k.
Proof.
  induction d as [|d IH]; intros j Hv Hj Hr Hc; simpl.
  - assert (j < n) as Hj' by lia.
    destruct (is_volume_lookup n h w v j Hv Hj') as [E Hi].
    destruct (pix_is_Some h w _ r c Hi Hr Hc) as [x Hx].
    exists x. split; [done|]. intros k. split.
    + intros Hk. exists j. split; [lia|]. exists x.
      by rewrite (voxel_lookup_total n h w).
    + intros (i & Hi0 & y & Hy & Hk). replace i with j in Hy by lia.
      rewrite (voxel_lookup_total n h w) in Hy by done. congruence.
  - destruct (IH (S j)) as (y & Hy & Hbits); [done|lia|done..|].
    assert (j < n) as Hj' by lia.
    destruct (is_volume_lookup n h w v j Hv Hj') as [E Hi].
    destruct (pix_is_Some h w _ r c Hi Hr Hc) as [x Hx].
    exists (Z.lor x y). unfold bitwise_or. rewrite pix_izip, Hx, Hy.
    split; [done|]. intros k. rewrite Z.lor_spec, orb_true_iff, Hbits.
    split.
    + intros [Hk|(i & Hi' & Hb)].
      * exists j. split; [lia|]. exists x.
        by rewrite (voxel_lookup_total n h w).
      * exists i. split; [lia|done].
    + intros (i & Hi' & Hb). destruct (decide (i = j)) as [->|].
      * left. destruct Hb as (z & Hz & Hk).
        rewrite (voxel_lookup_total n h w) in Hz by done. congruence.
      * right. exists i. split; [lia|done].
Qed.

Lemma bit_at_lt n h w (v : volume) i r c k :
  is_volume n h w v → bit_at v i r c k → i < n.
Proof.
  intros [Hn _] (x & Hx & _). unfold voxel in Hx.
  destruct (v !! i) eqn:E; [|done]. apply lookup_lt_Some in E. lia.
Qed.

(** Every bit plane is reconstructed on its own: a bit of the merged stack
    is set exactly when it is set in some earlier or equal slice and in
    some later or equal slice. *)
Lemma merged_bits n h w (v : volume) i r c :
  is_volume n h w v → i < n → r < h → c < w →
  ∃ z, voxel (merged v) i r c = Some z
       ∧ ∀ k, Z.testbit z k = true ↔
              (∃ j, j ≤ i ∧ bit_at v j r c k)
              ∧ (∃ j', i ≤ j' ∧ bit_at v j' r c k).
Proof.
  intros Hv Hi Hr Hc.
  destruct (pix_or_upto_bits n h w v i r c Hv Hi Hr Hc) as (x & Hx & Hxb).
  assert (length v = n) as Hn by apply Hv.
  destruct (pix_or_from_dist_bits n h w v (length v - 1 - i) r c i)
    as (y & Hy & Hyb); [done|lia|done..|].
  exists (Z.land x y). split.
  - unfold voxel. rewrite (merged_lookup n h w) by done. simpl.
    unfold bitwise_and, or_from. by rewrite pix_izip, Hx, Hy.
  - intros k. rewrite Z.land_spec, andb_true_iff, Hxb, Hyb.
    split; intros [H1 (j' & Hj' & Hb)]; (split; [done|]);
      exists j'; (split; [|done]).
    + lia.
    + pose proof (bit_at_lt n h w v j' r c k Hv Hb). lia.
Qed.

Lemma voxel_is_Some n h w (v : volume) i r c :
  is_volume n h w v → i < n → r < h → c < w → is_Some (voxel v i r c).
Proof.
  intros Hv Hi Hr Hc. rewrite (voxel_lookup_total n h w) by done.
  apply (pix_is_Some h w); [|done..].
  by apply (is_volume_lookup n h w v i Hv).
Qed.

Lemma voxel_in_range n h w (v : volume) i r c x :
  is_volume n h w v → voxel v i r c = Some x → i < n ∧ r < h ∧ c < w.
Proof.
  intros [Hn Hall] Hx. unfold voxel in Hx.
  destruct (v !! i) as [a|] eqn:Ea; [|done]. simpl in Hx.
  pose proof (Forall_lookup_1 _ _ _ _ Hall Ea) as [Hh Hrows].
  apply lookup_lt_Some in Ea. unfold pix in Hx.
  destruct (a !! r) as [row|] eqn:Er; [|done]. simpl in Hx.
  pose proof (Forall_lookup_1 _ _ _ _ Hrows Er) as Hw. simpl in Hw.
  apply lookup_lt_Some in Er, Hx. lia.
Qed.


Lemma testbit_iff_eq x y :
  (∀ k, Z.testbit x k = true ↔ Z.testbit y k = true) → x = y.
Proof.
  intros H. apply Z.bits_inj. intros k. specialize (H k).
  destruct (Z.testbit x k), (Z.testbit y k); try done.
  - symmetry. by apply H.
  - by apply H.
Qed.


Lemma merged_foreground n h w (v : volume) i r c :
  is_volume n h w v → i < n → r < h → c < w →
  (foreground (merged v) i r c →
     (∃ j, j ≤ i ∧ foreground v j r c) ∧ (∃ j', i ≤ j' ∧ foreground v j' r c))
  ∧ ∀ fg, binary_volume fg v →
      (∃ z, voxel (merged v) i r c = Some z ∧ (z = 0%Z ∨ z = fg))
      ∧ ((∃ j, j ≤ i ∧ foreground v j r c)
         ∧ (∃ j', i ≤ j' ∧ foreground v j' r c) →
         foreground (merged v) i r c).
Proof.
  intros Hv Hi Hr Hc.
  destruct (pix_or_upto n h w 0%Z v i r c Hv Hi Hr Hc) as (x & Hx & Hxfg & _).
  destruct (pix_or_from n h w 0%Z v i r c Hv Hi Hr Hc) as (y & Hy & Hyfg & _).
  assert (voxel (merged v) i r c = Some (Z.land x y)) as Hz.
  { unfold voxel. rewrite (merged_lookup n h w) by done. simpl.
    unfold bitwise_and. by rewrite pix_izip, Hx, Hy. }
  assert (foreground (merged v) i r c ↔ Z.land x y ≠ 0%Z) as Em.
  { unfold foreground. rewrite Hz.
    split; [intros (? & [= <-] & ?); done|eauto]. }
  split.
  - rewrite Em, <- Hxfg, <- Hyfg. intros Hne. split; intros ->.
    + by rewrite Z.land_0_l in Hne.
    + by rewrite Z.land_0_r in Hne.
  - intros fg Hb.
    destruct (pix_or_upto n h w fg v i r c Hv Hi Hr Hc)
      as (x' & Hx' & _ & Hxb).
    destruct (pix_or_from n h w fg v i r c Hv Hi Hr Hc)
      as (y' & Hy' & _ & Hyb).
    assert (x' = x) as -> by congruence.
    assert (y' = y) as -> by congruence.
    rewrite Em, <- Hxfg, <- Hyfg. split.
    + exists (Z.land x y). split; [done|].
      destruct (Hxb Hb) as [Ex|Ex]; destruct (Hyb Hb) as [Ey|Ey];
        rewrite Ex, Ey, ?Z.land_0_l, ?Z.land_0_r, ?Z.land_diag; auto.
    + intros [Hx0 Hy0].
      destruct (Hxb Hb) as [Ex|Ex]; [done|].
      destruct (Hyb Hb) as [Ey|Ey]; [done|].
      rewrite Ex, Ey, Z.land_diag. congruence.
Qed.

Lemma binary_volume_intro n h w fg (m : volume) :
  is_volume n h w m →
  (∀ i r c x, voxel m i r c = Some x → x = 0%Z ∨ x = fg) →
  binary_volume fg m.
Proof.
  intros Hm Hall. apply Forall_lookup_2. intros i a Ha.
  apply Forall_lookup_2. intros r row Hrow.
  apply Forall_lookup_2. intros c x Hx.
  apply (Hall i r c). unfold voxel, pix. rewrite Ha. simpl.
  by rewrite Hrow.
Qed.

(** X1.  Reconstruction never erases: every sample of the returned array
    has all the bits of the sample of the argument at the same place, so
    what was foreground stays foreground. *)
Theorem reconstruct_gg_areas_keeps_input
    (h : store) (mask : loc) (v : volume) (n hh ww : nat) :
  h !! mask = Some v → is_volume n hh ww v →
  ∃ out h' m,
    reconstruct_gg_areas mask h = Ok (out, h') ∧ h' !! out = Some m
    ∧ (∀ i r c x, voxel v i r c = Some x →
         ∃ y, voxel m i r c = Some y ∧ Z.land y x = x)
    ∧ foreground_within v m.
Proof.
  intros Hm Hv.
  destruct (reconstruct_gg_areas_run h mask v Hm)
    as (first & second & out & h' & Hrun & Hpost).
  exists out, h', (merged v). split; [done|].
  split; [apply (post_out_is _ _ _ _ _ _ Hpost)|].
  assert (∀ i r c x, voxel v i r c = Some x →
            ∃ y, voxel (merged v) i r c = Some y ∧ Z.land y x = x) as Hkeep.
  { intros i r c x Hx.
    destruct (voxel_in_range n hh ww v i r c x Hv Hx) as (Hi & Hr & Hc).
    destruct (merged_bits n hh ww v i r c Hv Hi Hr Hc) as (y & Hy & Hyb).
    exists y. split; [done|]. apply Z.bits_inj. intros k.
    rewrite Z.land_spec. destruct (Z.testbit x k) eqn:Hk.
    - rewrite andb_true_r. apply Hyb.
      split; exists i; (split; [done|]); by exists x.
    - apply andb_false_r. }
  split; [done|].
  intros i r c (x & Hx & Hne). destruct (Hkeep i r c x Hx) as (y & Hy & Hl).
  exists y. split; [done|]. intros ->. by rewrite Z.land_0_l in Hl.
Qed.

Lemma reconstruct_gg_areas_keeps_input_witness :
  ∃ out h' m,
    reconstruct_gg_areas 1%positive
      {[ 1%positive := [[[3; 0]]; [[0; 0]]; [[5; 255]]]%Z ]} = Ok (out, h')
    ∧ h' !! out = Some m
    ∧ (∀ i r c x,
         voxel [[[3; 0]]; [[0; 0]]; [[5; 255]]]%Z i r c = Some x →
         ∃ y, voxel m i r c = Some y ∧ Z.land y x = x)
    ∧ foreground_within [[[3; 0]]; [[0; 0]]; [[5; 255]]]%Z m.
Proof.
  apply (reconstruct_gg_areas_keeps_input _ _ _ 3 1 2).
  - apply lookup_singleton_eq.
  - compute_done.
Defined.

(** X2.  The first and the last slice are never changed: a region present
    at one end of the stack only is not carried into it or out of it. *)
Theorem reconstruct_gg_areas_end_slices
    (h : store) (mask : loc) (v : volume) (n hh ww : nat) :
  h !! mask = Some v → is_volume n hh ww v → 0 < n →
  ∃ out h' m,
    reconstruct_gg_areas mask h = Ok (out, h') ∧ h' !! out = Some m
    ∧ m !! 0 = v !! 0 ∧ m !! (n - 1) = v !! (n - 1).
Proof.
  intros Hm Hv Hn.
  destruct (reconstruct_gg_areas_run h mask v Hm)
    as (first & second & out & h' & Hrun & Hpost).
  exists out, h', (merged v). split; [done|].
  split; [apply (post_out_is _ _ _ _ _ _ Hpost)|].
  pose proof (merged_is_volume n hh ww v Hv) as Hmv.
  assert (∀ i, i < n → (i = 0 ∨ i = n - 1) → merged v !! i = v !! i) as Hend.
  { intros i Hi Hends.
    destruct (is_volume_lookup n hh ww v i Hv Hi) as [Ev Hiv].
    destruct (is_volume_lookup n hh ww _ i Hmv Hi) as [Em Him].
    rewrite Ev, Em. f_equal. apply (pix_ext hh ww); [done..|].
    intros r c Hr Hc. rewrite <- !(voxel_lookup_total n hh ww) by done.
    destruct (merged_bits n hh ww v i r c Hv Hi Hr Hc) as (z & -> & Hzb).
    destruct (voxel_is_Some n hh ww v i r c Hv Hi Hr Hc) as [x Hx].
    rewrite Hx. f_equal. apply testbit_iff_eq. intros k. rewrite Hzb.
    split.
    - intros [(j & Hj & y & Hy & Hk) (j' & Hj' & y' & Hy' & Hk')].
      destruct (voxel_in_range n hh ww v j' r c y' Hv Hy') as (Hjn' & _).
      destruct Hends as [->| ->].
      + replace j with 0 in Hy by lia. congruence.
      + replace j' with (n - 1) in Hy' by lia. congruence.
    - intros Hk. split; exists i; (split; [done|]); by exists x. }
  split; apply Hend; lia.
Qed.

Lemma reconstruct_gg_areas_end_slices_witness :
  ∃ out h' m,
    reconstruct_gg_areas 1%positive
      {[ 1%positive := [[[3; 0]]; [[0; 0]]; [[5; 255]]]%Z ]} = Ok (out, h')
    ∧ h' !! out = Some m
    ∧ m !! 0 = [[[3; 0]]; [[0; 0]]; [[5; 255]]]%Z !! 0
    ∧ m !! (3 - 1) = [[[3; 0]]; [[0; 0]]; [[5; 255]]]%Z !! (3 - 1).
Proof.
  apply (reconstruct_gg_areas_end_slices _ _ _ 3 1 2).
  - apply lookup_singleton_eq.
  - compute_done.
  - lia.
Defined.



(** X4.  On a binary mask the returned array is again binary, with the
    same foreground value, and has no gap along the slice axis. *)
Theorem reconstruct_gg_areas_closes_gaps
    (h : store) (mask : loc) (v : volume) (n hh ww : nat) (fg : Z) :
  h !! mask = Some v → is_volume n hh ww v → binary_volume fg v →
  ∃ out h' m,
    reconstruct_gg_areas mask h = Ok (out, h') ∧ h' !! out = Some m
    ∧ binary_volume fg m ∧ no_gaps m.
Proof.
  intros Hm Hv Hb.
  destruct (reconstruct_gg_areas_run h mask v Hm)
    as (first & second & out & h' & Hrun & Hpost).
  exists out, h', (merged v). split; [done|].
  split; [apply (post_out_is _ _ _ _ _ _ Hpost)|].
  pose proof (merged_is_volume n hh ww v Hv) as Hmv. split.
  - apply (binary_volume_intro n hh ww); [done|].
    intros i r c x Hx.
    destruct (voxel_in_range n hh ww _ i r c x Hmv Hx) as (Hi & Hr & Hc).
    destruct (proj2 (merged_foreground n hh ww v i r c Hv Hi Hr Hc) fg Hb)
      as [(z & Hz & Hz01) _].
    congruence.
  - intros r c j i j' Hji Hij' Hj Hj'.
    destruct Hj as (x & Hx & Hx0). destruct Hj' as (x' & Hx' & Hx0').
    destruct (voxel_in_range n hh ww _ j r c x Hmv Hx) as (Hjn & Hr & Hc).
    destruct (voxel_in_range n hh ww _ j' r c x' Hmv Hx') as (Hjn' & _).
    assert (i < n) as Hi by lia.
    destruct (proj1 (merged_foreground n hh ww v j r c Hv Hjn Hr Hc))
      as [(a & Ha & Hfa) _]; [by exists x|].
    destruct (proj1 (merged_foreground n hh ww v j' r c Hv Hjn' Hr Hc))
      as [_ (b & Hb' & Hfb)]; [by exists x'|].
    apply (proj2 (merged_foreground n hh ww v i r c Hv Hi Hr Hc) fg Hb).
    split; [exists a|exists b]; (split; [lia|done]).
Qed.

Lemma reconstruct_gg_areas_closes_gaps_witness :
  ∃ out h' m,
    reconstruct_gg_areas 1%positive
      {[ 1%positive := [[[255; 0]]; [[0; 0]]; [[255; 255]]]%Z ]}
    = Ok (out, h')
    ∧ h' !! out = Some m
    ∧ binary_volume 255 m ∧ no_gaps m.
Proof.
  apply (reconstruct_gg_areas_closes_gaps _ _
           [[[255; 0]]; [[0; 0]]; [[255; 255]]]%Z 3 1 2).
  - apply lookup_singleton_eq.
  - compute_done.
  - compute_done.
Defined.

(** X5.  The returned foreground lies within every gap-free stack that
    contains the foreground of the argument: reconstruction adds nothing
    beyond what closing the gaps needs. *)
Theorem reconstruct_gg_areas_least
    (h : store) (mask : loc) (v : volume) (n hh ww : nat) :
  h !! mask = Some v → is_volume n hh ww v →
  ∃ out h' m,
    reconstruct_gg_areas mask h = Ok (out, h') ∧ h' !! out = Some m
    ∧ ∀ w : volume, no_gaps w → foreground_within v w →
        foreground_within m w.
Proof.
  intros Hm Hv.
  destruct (reconstruct_gg_areas_run h mask v Hm)
    as (first & second & out & h' & Hrun & Hpost).
  exists out, h', (merged v). split; [done|].
  split; [apply (post_out_is _ _ _ _ _ _ Hpost)|].
  pose proof (merged_is_volume n hh ww v Hv) as Hmv.
  intros w Hgap Hvw i r c Hf. pose proof Hf as (x & Hx & _).
  destruct (voxel_in_range n hh ww _ i r c x Hmv Hx) as (Hi & Hr & Hc).
  destruct (proj1 (merged_foreground n hh ww v i r c Hv Hi Hr Hc) Hf)
    as [(j & Hj & Hfj) (j' & Hj' & Hfj')].
  apply (Hgap r c j i j'); [done|done|by apply Hvw..].
Qed.

Lemma reconstruct_gg_areas_least_witness :
  ∃ out h' m,
    reconstruct_gg_areas 1%positive
      {[ 1%positive := [[[3; 0]]; [[0; 0]]; [[5; 255]]]%Z ]} = Ok (out, h')
    ∧ h' !! out = Some m
    ∧ ∀ w : volume, no_gaps w →
        foreground_within [[[3; 0]]; [[0; 0]]; [[5; 255]]]%Z w →
        foreground_within m w.
Proof.
  apply (reconstruct_gg_areas_least _ _ _ 3 1 2).
  - apply lookup_singleton_eq.
  - compute_done.
Defined.

(** ** find_ROI: enclosure and row order *)

Lemma is_min_unique x y l : is_min x l → is_min y l → x = y.
Proof.
  intros [Hx Hxl] [Hy Hyl]. pose proof (Hxl y Hy). pose proof (Hyl x Hx). lia.
Qed.

Lemma is_max_unique x y l : is_max x l → is_max y l → x = y.
Proof.
  intros [Hx Hxl] [Hy Hyl]. pose proof (Hxl y Hy). pose proof (Hyl x Hx). lia.
Qed.

Lemma reduce_min_perm l l' : l ≡ₚ l' → reduce_min l = reduce_min l'.
Proof.
  intros Hp. destruct (decide (l = [])) as [->|Hne].
  - by apply Permutation_nil_l in Hp as ->.
  - assert (l' ≠ []) as Hne'.
    { intros ->. by apply Permutation_nil_r in Hp. }
    destruct (reduce_min_is_min l Hne) as (x & -> & Hx).
    destruct (reduce_min_is_min l' Hne') as (y & -> & Hy).
    f_equal. apply (is_min_unique x y l'); [|done].
    destruct Hx as [Hin Hle]. split.
    + by rewrite <- Hp.
    + intros z Hz. apply Hle. by rewrite Hp.
Qed.

Lemma reduce_max_perm l l' : l ≡ₚ l' → reduce_max l = reduce_max l'.
Proof.
  intros Hp. destruct (decide (l = [])) as [->|Hne].
  - by apply Permutation_nil_l in Hp as ->.
  - assert (l' ≠ []) as Hne'.
    { intros ->. by apply Permutation_nil_r in Hp. }
    destruct (reduce_max_is_max l Hne) as (x & -> & Hx).
    destruct (reduce_max_is_max l' Hne') as (y & -> & Hy).
    f_equal. apply (is_max_unique x y l'); [|done].
    destruct Hx as [Hin Hle]. split.
    + by rewrite <- Hp.
    + intros z Hz. apply Hle. by rewrite Hp.
Qed.

Lemma column_perm f (df df' : DataFrame) :
  df ≡ₚ df' → column f df ≡ₚ column f df'.
Proof. intros Hp. unfold column. by rewrite Hp. Qed.

(** X6.  The result does not depend on the order of the rows of the table:
    a table and any rearrangement of its rows give the same corners, or
    fail alike. *)
Theorem find_ROI_row_order (stats stats' : DataFrame) :
  stats ≡ₚ stats' → find_ROI stats = find_ROI stats'.
Proof.
  intros Hp. unfold find_ROI, df_drop.
  assert (0%Z ∈ df_index stats ↔ 0%Z ∈ df_index stats') as Hidx.
  { unfold df_index. by rewrite Hp. }
  destruct (decide (0%Z ∈ df_index stats)) as [H0|H0].
  - rewrite decide_True by by apply Hidx. simpl.
    assert (filter (λ r : Z * stat_row, r.1 ≠ 0%Z) stats
            ≡ₚ filter (λ r : Z * stat_row, r.1 ≠ 0%Z) stats') as Hf
      by by rewrite Hp.
    by rewrite (reduce_min_perm _ _ (column_perm LEFT _ _ Hf)),
      (reduce_min_perm _ _ (column_perm TOP _ _ Hf)),
      (reduce_max_perm _ _
         (column_perm (λ r, int64_add (LEFT r) (WIDTH r)) _ _ Hf)),
      (reduce_max_perm _ _
         (column_perm (λ r, int64_add (TOP r) (HEIGHT r)) _ _ Hf)).
  - rewrite decide_False; [done|]. intros ?. by apply H0, Hidx.
Qed.

Lemma find_ROI_row_order_witness :
  find_ROI
    [ (0%Z, {| LEFT := 0; TOP := 0; WIDTH := 9; HEIGHT := 9; AREA := 60 |});
      (1%Z, {| LEFT := 2; TOP := 3; WIDTH := 4; HEIGHT := 5; AREA := 20 |});
      (2%Z, {| LEFT := 1; TOP := 7; WIDTH := 1; HEIGHT := 1; AREA := 1 |}) ]
  = find_ROI
      [ (2%Z, {| LEFT := 1; TOP := 7; WIDTH := 1; HEIGHT := 1; AREA := 1 |});
        (0%Z, {| LEFT := 0; TOP := 0; WIDTH := 9; HEIGHT := 9; AREA := 60 |});
        (1%Z, {| LEFT := 2; TOP := 3; WIDTH := 4; HEIGHT := 5; AREA := 20 |})
      ].
Proof.
  apply find_ROI_row_order.
  etrans; [apply perm_skip, Permutation_swap|]. apply Permutation_swap.
Defined.

(** X7.  When the corners of the regions fit 16 bits, the returned
    rectangle encloses the bounding box of every region of the table; and
    it is well formed (left of and above its far corner) as soon as one
    region has a non-negative width and height. *)
Theorem find_ROI_encloses (stats : DataFrame) :
  0%Z ∈ df_index stats → corners_fit_int16 stats →
  ∃ x_top y_top x_bottom y_bottom,
    find_ROI stats = Ok [x_top; y_top; x_bottom; y_bottom]
    ∧ (∀ j row, (j, row) ∈ stats → j ≠ 0%Z →
         (x_top ≤ LEFT row)%Z ∧ (y_top ≤ TOP row)%Z
         ∧ (LEFT row + WIDTH row ≤ x_bottom)%Z
         ∧ (TOP row + HEIGHT row ≤ y_bottom)%Z)
    ∧ (∀ j row, (j, row) ∈ stats → j ≠ 0%Z →
         (0 ≤ WIDTH row)%Z → (0 ≤ HEIGHT row)%Z →
         (x_top ≤ x_bottom)%Z ∧ (y_top ≤ y_bottom)%Z).
Proof.
  intros H0 Hfit. rewrite (find_ROI_exact stats H0 Hfit).
  destruct (decide (foreground_rows stats = [])) as [Hnil|Hne].
  - rewrite Hnil. exists 0%Z, 0%Z, 0%Z, 0%Z. split; [done|].
    assert (∀ j row, (j, row) ∈ stats → j ≠ 0%Z → False) as Hno.
    { intros j row Hin Hj.
      assert ((j, row) ∈ foreground_rows stats) as Hf
        by by apply list_elem_of_filter.
      rewrite Hnil in Hf. by apply elem_of_nil in Hf. }
    split; intros j row Hin Hj; by destruct (Hno j row Hin Hj).
  - unfold corners_fit_int16 in Hfit. rewrite Forall_forall in Hfit.
    assert (∀ (f : stat_row → Z) z,
              z ∈ column f (foreground_rows stats) →
              ∃ r, r ∈ foreground_rows stats ∧ z = f r.2) as Hcol.
    { intros f z Hz. unfold column in Hz.
      apply list_elem_of_fmap in Hz as (r & -> & Hr). eauto. }
    assert (∀ (f : stat_row → Z) r,
              r ∈ foreground_rows stats →
              f r.2 ∈ column f (foreground_rows stats)) as Hmem.
    { intros f r Hr. unfold column. apply list_elem_of_fmap. eauto. }
    destruct (reduce_min_is_min (column LEFT (foreground_rows stats)))
      as (xt & -> & Hxt & Hxtl); [by apply column_nil|].
    destruct (reduce_min_is_min (column TOP (foreground_rows stats)))
      as (yt & -> & Hyt & Hytl); [by apply column_nil|].
    destruct (reduce_max_is_max
                (column (λ r, LEFT r + WIDTH r)%Z (foreground_rows stats)))
      as (xb & -> & Hxb & Hxbl); [by apply column_nil|].
    destruct (reduce_max_is_max
                (column (λ r, TOP r + HEIGHT r)%Z (foreground_rows stats)))
      as (yb & -> & Hyb & Hybl); [by apply column_nil|].
    exists xt, yt, xb, yb. split.
    { simpl. unfold mret, result_ret.
      apply Hcol in Hxt as (r1 & Hr1 & ->).
      apply Hcol in Hyt as (r2 & Hr2 & ->).
      apply Hcol in Hxb as (r3 & Hr3 & ->).
      apply Hcol in Hyb as (r4 & Hr4 & ->).
      pose proof (Hfit r1 Hr1). pose proof (Hfit r2 Hr2).
      pose proof (Hfit r3 Hr3). pose proof (Hfit r4 Hr4).
      rewrite !astype_int16_id by tauto. done. }
    assert (∀ j row, (j, row) ∈ stats → j ≠ 0%Z →
              (xt ≤ LEFT row)%Z ∧ (yt ≤ TOP row)%Z
              ∧ (LEFT row + WIDTH row ≤ xb)%Z
              ∧ (TOP row + HEIGHT row ≤ yb)%Z) as Hbox.
    { intros j row Hin Hj.
      assert ((j, row) ∈ foreground_rows stats) as Hf
        by by apply list_elem_of_filter.
      split; [apply Hxtl, (Hmem LEFT _ Hf)|].
      split; [apply Hytl, (Hmem TOP _ Hf)|].
      split; [apply Hxbl, (Hmem (λ r, LEFT r + WIDTH r)%Z _ Hf)|].
      apply Hybl, (Hmem (λ r, TOP r + HEIGHT r)%Z _ Hf). }
    split; [done|].
    intros j row Hin Hj Hw Hh. destruct (Hbox j row Hin Hj) as (?&?&?&?).
    lia.
Qed.

Lemma find_ROI_encloses_witness :
  ∃ x_top y_top x_bottom y_bottom,
    find_ROI
      [ (0%Z, {| LEFT := 0; TOP := 0; WIDTH := 9; HEIGHT := 9; AREA := 60 |});
        (1%Z, {| LEFT := 2; TOP := 3; WIDTH := 4; HEIGHT := 5; AREA := 20 |});
        (2%Z, {| LEFT := 1; TOP := 7; WIDTH := 1; HEIGHT := 1; AREA := 1 |}) ]
    = Ok [x_top; y_top; x_bottom; y_bottom]
    ∧ (∀ j row,
         (j, row) ∈
           [ (0%Z, {| LEFT := 0; TOP := 0; WIDTH := 9; HEIGHT := 9;
                      AREA := 60 |});
             (1%Z, {| LEFT := 2; TOP := 3; WIDTH := 4; HEIGHT := 5;
                      AREA := 20 |});
             (2%Z, {| LEFT := 1; TOP := 7; WIDTH := 1; HEIGHT := 1;
                      AREA := 1 |}) ] →
         j ≠ 0%Z →
         (x_top ≤ LEFT row)%Z ∧ (y_top ≤ TOP row)%Z
         ∧ (LEFT row + WIDTH row ≤ x_bottom)%Z
         ∧ (TOP row + HEIGHT row ≤ y_bottom)%Z)
    ∧ (∀ j row,
         (j, row) ∈
           [ (0%Z, {| LEFT := 0; TOP := 0; WIDTH := 9; HEIGHT := 9;
                      AREA := 60 |});
             (1%Z, {| LEFT := 2; TOP := 3; WIDTH := 4; HEIGHT := 5;
                      AREA := 20 |});
             (2%Z, {| LEFT := 1; TOP := 7; WIDTH := 1; HEIGHT := 1;
                      AREA := 1 |}) ] →
         j ≠ 0%Z →
         (0 ≤ WIDTH row)%Z → (0 ≤ HEIGHT row)%Z →
         (x_top ≤ x_bottom)%Z ∧ (y_top ≤ y_bottom)%Z).
Proof.
  apply find_ROI_encloses.
  - compute_done.
  - compute_done.
Defined.

(** ** remove_spots: what it never does *)

Lemma vshape_voxel_is_Some (u v : volume) i r c :
  vshape u = vshape v → is_Some (voxel u i r c) → is_Some (voxel v i r c).
Proof.
  intros Hs [x Hx]. unfold voxel in *.
  destruct (u !! i) as [a|] eqn:Ea; [|done]. simpl in Hx.
  assert (vshape v !! i = Some (ishape a)) as E.
  { rewrite <- Hs. unfold vshape. by rewrite list_lookup_fmap, Ea. }
  unfold vshape in E. rewrite list_lookup_fmap in E.
  destruct (v !! i) as [b|]; [|done]. simpl in *.
  apply (ishape_pix_is_Some a b); [congruence|by eexists].
Qed.

(** The call on an input with the analyzer's contract, read sample by
    sample of the input. *)
Lemma remove_spots_pointwise cc img area :
  analyzer_contract img (cc img) →
  ∃ out, remove_spots cc img area = Ok out
    ∧ vshape out = vshape img
    ∧ ∀ i r c x, voxel img i r c = Some x →
        ∃ l stat row,
          (cc img).2 !! i = Some stat
          ∧ voxel (cc img).1 i r c = Some l
          ∧ (l = 0%Z ↔ x = 0%Z)
          ∧ stat !! Z.to_nat l = Some (l, row)
          ∧ (l ≠ 0%Z → 1 ≤ AREA row)%Z
          ∧ voxel out i r c
            = Some (if decide (l ≠ 0%Z ∧ (area ≤ AREA row)%Z)
                    then 1%Z else 0%Z).
Proof.
  intros Hc. pose proof Hc as (_ & Hl1 & Hl2).
  destruct (remove_spots_voxels cc img area Hc)
    as (out & Hrun & Hlen & Hout & Hvox).
  exists out. split; [done|]. split.
  - apply list_eq. intros i. unfold vshape. rewrite !list_lookup_fmap.
    destruct ((cc img).1 !! i) as [lab|] eqn:Hlab.
    + destruct (lookup_lt_is_Some_2 (cc img).2 i) as [stat Hstat].
      { apply lookup_lt_Some in Hlab. lia. }
      destruct (analyzer_contract_slice img (cc img) i lab stat Hc Hlab Hstat)
        as (a & Ha & Hshape & _).
      destruct (Hout i lab Hlab) as (lab' & -> & Hs'). rewrite Ha. simpl.
      by rewrite ishape_imap2, Hs', Hshape.
    + apply lookup_ge_None in Hlab.
      rewrite (lookup_ge_None_2 out i), (lookup_ge_None_2 img i) by lia.
      done.
  - intros i r c x Hx. unfold voxel in Hx.
    destruct (img !! i) as [a|] eqn:Ha; [|done]. simpl in Hx.
    destruct (analyzer_contract_img img (cc img) i a Hc Ha)
      as (lab & stat & Hlab & Hstat & _ & Hbg & _).
    destruct (pix_Forall2 _ a lab r c x Hbg Hx) as (l & Hl & Hl0).
    destruct (Hvox i lab stat Hlab Hstat r c l Hl)
      as (row & Hrow & _ & Hpos & Hv).
    exists l, stat, row. split; [done|]. split.
    { unfold voxel. by rewrite Hlab. }
    done.
Qed.

(** X8.  The call never creates foreground: its result is 0 or 1 at every
    sample of the input, and 0 wherever the input is 0. *)
Theorem remove_spots_within_input
    (cc : volume → list image * list DataFrame) (img : volume) (area : Z) :
  analyzer_contract img (cc img) →
  ∃ out, remove_spots cc img area = Ok out
    ∧ ∀ i r c x, voxel img i r c = Some x →
        ∃ y, voxel out i r c = Some y
          ∧ (y = 0%Z ∨ y = 1%Z) ∧ (x = 0%Z → y = 0%Z).
Proof.
  intros Hc.
  destruct (remove_spots_pointwise cc img area Hc) as (out & Hrun & _ & Hpt).
  exists out. split; [done|]. intros i r c x Hx.
  destruct (Hpt i r c x Hx) as (l & stat & row & _ & _ & Hl0 & _ & _ & ->).
  eexists. split; [done|]. split; [case_decide; auto|].
  intros Hx0. rewrite decide_False; [done|]. tauto.
Qed.

Lemma remove_spots_within_input_witness :
  ∃ out, remove_spots (λ _, ones_stack_analysis) ones_stack 2 = Ok out
    ∧ ∀ i r c x, voxel ones_stack i r c = Some x →
        ∃ y, voxel out i r c = Some y
          ∧ (y = 0%Z ∨ y = 1%Z) ∧ (x = 0%Z → y = 0%Z).
Proof.
  apply (remove_spots_within_input (λ _, ones_stack_analysis) ones_stack 2).
  compute_done.
Defined.

(** X9.  A larger threshold removes more: whatever survives the call with
    the larger [area] survives the call with the smaller one. *)
Theorem remove_spots_monotone
    (cc : volume → list image * list DataFrame) (img : volume)
    (area area' : Z) :
  analyzer_contract img (cc img) → (area ≤ area')%Z →
  ∃ out out',
    remove_spots cc img area = Ok out
    ∧ remove_spots cc img area' = Ok out'
    ∧ ∀ i r c, voxel out' i r c = Some 1%Z → voxel out i r c = Some 1%Z.
Proof.
  intros Hc Hle.
  destruct (remove_spots_pointwise cc img area Hc)
    as (out & Hrun & Hs & Hpt).
  destruct (remove_spots_pointwise cc img area' Hc)
    as (out' & Hrun' & Hs' & Hpt').
  exists out, out'. split; [done|]. split; [done|].
  intros i r c Hone.
  destruct (vshape_voxel_is_Some out' img i r c Hs') as [x Hx];
    [by eexists|].
  destruct (Hpt i r c x Hx)
    as (l & stat & row & Hstat & Hl & _ & Hrow & _ & Hv).
  destruct (Hpt' i r c x Hx)
    as (l' & stat' & row' & Hstat' & Hl' & _ & Hrow' & _ & Hv').
  assert (l' = l) as -> by congruence.
  assert (stat' = stat) as -> by congruence.
  assert (row' = row) as -> by congruence.
  rewrite Hv. rewrite Hv' in Hone.
  destruct (decide (l ≠ 0%Z ∧ (area' ≤ AREA row)%Z)) as [[? ?]|]; [|done].
  by rewrite decide_True by (split; [done|lia]).
Qed.

Lemma remove_spots_monotone_witness :
  ∃ out out',
    remove_spots (λ _, ones_stack_analysis) ones_stack 1 = Ok out
    ∧ remove_spots (λ _, ones_stack_analysis) ones_stack 2 = Ok out'
    ∧ ∀ i r c, voxel out' i r c = Some 1%Z → voxel out i r c = Some 1%Z.
Proof.
  apply (remove_spots_monotone (λ _, ones_stack_analysis) ones_stack 1 2).
  - compute_done.
  - lia.
Defined.

(** X10.  When every region of every slice is smaller than [area], the
    result is the all-zero stack of the shape of the input. *)
Theorem remove_spots_all_small
    (cc : volume → list image * list DataFrame) (img : volume) (area : Z) :
  analyzer_contract img (cc img) →
  Forall (Forall (λ r : Z * stat_row, r.1 ≠ 0%Z → (AREA r.2 < area)%Z))
    (cc img).2 →
  ∃ out, remove_spots cc img area = Ok out
    ∧ vshape out = vshape img
    ∧ ∀ i r c y, voxel out i r c = Some y → y = 0%Z.
Proof.
  intros Hc Hsmall.
  destruct (remove_spots_pointwise cc img area Hc)
    as (out & Hrun & Hs & Hpt).
  exists out. split; [done|]. split; [done|].
  intros i r c y Hy.
  destruct (vshape_voxel_is_Some out img i r c Hs) as [x Hx];
    [by eexists|].
  destruct (Hpt i r c x Hx)
    as (l & stat & row & Hstat & Hl & _ & Hrow & _ & Hv).
  rewrite Hv in Hy. injection Hy as <-.
  case_decide as Hd; [|done]. destruct Hd as [Hl0 Hge].
  pose proof (Forall_lookup_1 _ _ _ _ Hsmall Hstat) as Hst.
  pose proof (Forall_lookup_1 _ _ _ _ Hst Hrow) as Hr. simpl in Hr.
  specialize (Hr Hl0). lia.
Qed.

Lemma remove_spots_all_small_witness :
  ∃ out, remove_spots (λ _, ones_stack_analysis) ones_stack 3 = Ok out
    ∧ vshape out = vshape ones_stack
    ∧ ∀ i r c y, voxel out i r c = Some y → y = 0%Z.
Proof.
  apply (remove_spots_all_small (λ _, ones_stack_analysis) ones_stack 3).
  - compute_done.
  - compute_done.
Defined.

(** ** remove_spots twice *)

Lemma count_row_ext (ra rb : list Z) a b :
  length ra = length rb →
  (∀ c, ra !! c = Some a ↔ rb !! c = Some b) →
  length (filter (λ x, x = a) ra) = length (filter (λ x, x = b) rb).
Proof.
  revert rb. induction ra as [|x ra IH]; intros [|y rb] Hlen Hiff;
    try done.
  simpl in Hlen.
  assert (x = a ↔ y = b) as H0.
  { specialize (Hiff 0). simpl in Hiff. split; intros ->.
    - assert (Some y = Some b) by by apply Hiff. congruence.
    - assert (Some x = Some a) by by apply Hiff. congruence. }
  assert (length (filter (λ x, x = a) ra) = length (filter (λ x, x = b) rb))
    as Htl.
  { apply IH; [lia|]. intros c. apply (Hiff (S c)). }
  rewrite !filter_cons.
  destruct (decide (x = a)), (decide (y = b)); simpl; try lia; tauto.
Qed.

Lemma count_label_ext (A B : image) a b :
  ishape A = ishape B →
  (∀ r c, pix A r c = Some a ↔ pix B r c = Some b) →
  count_label A a = count_label B b.
Proof.
  unfold count_label. revert B.
  induction A as [|ra A IH]; intros [|rb B] Hs Hiff; try done.
  unfold ishape in Hs. simpl in Hs. injection Hs as Hlen Hs.
  simpl. rewrite !filter_app, !length_app. f_equal.
  - apply count_row_ext; [done|]. intros c. apply (Hiff 0 c).
  - apply IH; [done|]. intros r c. apply (Hiff (S r) c).
Qed.

Lemma vshape_ext (u v : volume) :
  vshape u = vshape v →
  (∀ i r c x, voxel v i r c = Some x → voxel u i r c = Some x) → u = v.
Proof.
  intros Hs Hvox.
  assert (length u = length v) as Hlen.
  { apply (f_equal length) in Hs. unfold vshape in Hs.
    by rewrite !length_fmap in Hs. }
  apply (list_eq_same_length _ _ (length v)); [done..|].
  intros i a b Hi Ha Hb.
  assert (ishape a = ishape b) as Hab.
  { apply (f_equal (λ s, s !! i)) in Hs. unfold vshape in Hs.
    rewrite !list_lookup_fmap, Ha, Hb in Hs. simpl in Hs. congruence. }
  assert (length a = length b) as Hlab.
  { apply (f_equal length) in Hab. unfold ishape in Hab.
    by rewrite !length_fmap in Hab. }
  apply (list_eq_same_length _ _ (length b)); [done..|].
  intros r ra rb Hr Hra Hrb.
  assert (length ra = length rb) as Hlr.
  { apply (f_equal (λ s, s !! r)) in Hab. unfold ishape in Hab.
    rewrite !list_lookup_fmap, Hra, Hrb in Hab. simpl in Hab. congruence. }
  apply (list_eq_same_length _ _ (length rb)); [done..|].
  intros c x y Hc Hx Hy.
  specialize (Hvox i r c y). unfold voxel, pix in Hvox.
  rewrite Ha, Hb in Hvox. simpl in Hvox. rewrite Hra, Hrb in Hvox.
  simpl in Hvox. specialize (Hvox Hy). congruence.
Qed.

(** The regions of the output, slice by slice: a sample that is 1 lies in
    the region made of the pixels of its label, of which there are AREA,
    at least [area]. *)
Lemma remove_spots_regions adj cc img area :
  analyzer_contract img (cc img) →
  Forall2 (labels_are_components adj) img (cc img).1 →
  ∃ out, remove_spots cc img area = Ok out
    ∧ vshape out = vshape img
    ∧ (∀ i r c x, voxel out i r c = Some x → x = 0%Z ∨ x = 1%Z)
    ∧ ∀ i lab o,
        (cc img).1 !! i = Some lab → out !! i = Some o →
        ishape o = ishape lab
        ∧ ∀ p, pix o p.1 p.2 = Some 1%Z →
            ∃ l, pix lab p.1 p.2 = Some l
              ∧ (area ≤ Z.of_nat (count_label lab l))%Z
              ∧ ∀ q, connected adj o p q ↔ pix lab q.1 q.2 = Some l.
Proof.
  intros Hc Hcomp. pose proof Hc as (_ & Hl1 & Hl2).
  destruct (remove_spots_voxels cc img area Hc)
    as (out & Hrun & Hlen & Hout & Hvox).
  destruct (remove_spots_pointwise cc img area Hc)
    as (out' & Hrun' & Hs & _).
  assert (out' = out) as -> by congruence.
  exists out. split; [done|]. split; [done|]. split.
  { intros i r c x Hx. unfold voxel in Hx.
    destruct (out !! i) as [o|] eqn:Ho; [|done]. simpl in Hx.
    destruct (lookup_lt_is_Some_2 (cc img).1 i) as [lab Hlab].
    { apply lookup_lt_Some in Ho. lia. }
    destruct (Hout i lab Hlab) as (lab' & Ho' & _).
    rewrite Ho' in Ho. injection Ho as <-.
    rewrite pix_imap2 in Hx.
    destruct (pix _ r c) as [y|]; [|done]. simpl in Hx.
    injection Hx as <-. case_decide; auto. }
  intros i lab o Hlab Ho.
  destruct (lookup_lt_is_Some_2 (cc img).2 i) as [stat Hstat].
  { apply lookup_lt_Some in Hlab. lia. }
  assert (∀ p l, pix lab p.1 p.2 = Some l →
            ∃ row, stat !! Z.to_nat l = Some (l, row)
              ∧ AREA row = Z.of_nat (count_label lab l)
              ∧ pix o p.1 p.2
                = Some (if decide (l ≠ 0%Z ∧ (area ≤ AREA row)%Z)
                        then 1%Z else 0%Z)) as Hpix.
  { intros p l Hl.
    destruct (Hvox i lab stat Hlab Hstat p.1 p.2 l Hl)
      as (row & Hrow & HA & _ & Hv).
    exists row. split; [done|]. split; [done|].
    unfold voxel in Hv. by rewrite Ho in Hv. }
  destruct (analyzer_contract_slice img (cc img) i lab stat Hc Hlab Hstat)
    as (a & Ha & Hshape & Hbg & _).
  assert (ishape o = ishape lab) as Hso.
  { destruct (Hout i lab Hlab) as (lab' & Ho' & Hs').
    assert (o = imap2 (λ x, if decide (x ≠ 0%Z) then 1%Z else 0%Z) lab')
      as -> by congruence.
    by rewrite ishape_imap2. }
  split; [done|]. intros p Hone.
  destruct (ishape_pix_is_Some o lab p.1 p.2 Hso) as [l Hl]; [by eexists|].
  exists l. split; [done|].
  destruct (Hpix p l Hl) as (row & Hrow & HA & Hv).
  rewrite Hv in Hone.
  destruct (decide (l ≠ 0%Z ∧ (area ≤ AREA row)%Z)) as [[Hl0 Hge]|];
    [|done].
  split; [lia|].
  set (keep := λ l' : Z,
         l' ≠ 0%Z ∧ ∃ row', stat !! Z.to_nat l' = Some (l', row')
                            ∧ (area ≤ AREA row')%Z).
  apply (kept_regions_are_regions adj a lab o keep).
  - apply (Forall2_lookup_lr _ _ _ _ _ _ Hcomp Ha Hlab).
  - intros z. split.
    + intros (x & Hx & Hx0).
      destruct (ishape_pix_is_Some o lab z.1 z.2 Hso) as [l' Hl'];
        [by eexists|].
      exists l'. split; [done|].
      destruct (Hpix z l' Hl') as (row' & Hrow' & _ & Hv').
      rewrite Hx in Hv'. injection Hv' as ->.
      case_decide as Hd; [|done]. destruct Hd. split; [done|]. eauto.
    + intros (l' & Hl' & Hl0' & row' & Hrow' & Hge').
      destruct (Hpix z l' Hl') as (row'' & Hrow'' & _ & Hv').
      assert (row'' = row') as -> by congruence.
      rewrite decide_True in Hv' by done. by exists 1%Z.
  - intros z l' Hl' [Hl0' _].
    destruct (pix_Forall2_r _ a lab z.1 z.2 l' Hbg Hl') as (x & Hx & Hxl).
    exists x. split; [done|]. tauto.
  - done.
  - split; [done|]. eauto.
Qed.

(** X11.  Removing spots twice is removing them once: when the analyzer
    keeps its contract on the output too, a second call with the same
    [area] returns the output unchanged, every region left having at
    least [area] pixels. *)
Theorem remove_spots_idempotent
    (adj : relation pixel) (cc : volume → list image * list DataFrame)
    (img out : volume) (area : Z) :
  analyzer_contract img (cc img) →
  Forall2 (labels_are_components adj) img (cc img).1 →
  remove_spots cc img area = Ok out →
  analyzer_contract out (cc out) →
  Forall2 (labels_are_components adj) out (cc out).1 →
  remove_spots cc out area = Ok out.
Proof.
  intros Hc Hcomp Hrun Hc2 Hcomp2.
  destruct (remove_spots_regions adj cc img area Hc Hcomp)
    as (out1 & Hrun1 & Hs1 & H01 & Hreg).
  assert (out1 = out) as -> by congruence.
  destruct (remove_spots_pointwise cc out area Hc2)
    as (out2 & Hrun2 & Hs2 & Hpt2).
  rewrite Hrun2. f_equal. apply vshape_ext; [done|].
  intros i r c y Hy.
  destruct (Hpt2 i r c y Hy)
    as (l2 & stat2 & row2 & Hstat2 & Hl2 & Hl20 & Hrow2 & _ & ->).
  f_equal. destruct (H01 i r c y Hy) as [->| ->].
  { rewrite decide_False; [done|]. tauto. }
  assert (l2 ≠ 0%Z) as Hne2 by (intros ?; by apply (proj1 Hl20) in H).
  rewrite decide_True; [done|]. split; [done|].
  (* the slice and its two label maps *)
  unfold voxel in Hy, Hl2.
  destruct (out !! i) as [o|] eqn:Ho; [|done]. simpl in Hy.
  destruct ((cc out).1 !! i) as [lab2|] eqn:Hlab2; [|done]. simpl in Hl2.
  destruct (lookup_lt_is_Some_2 (cc img).1 i) as [lab Hlab].
  { apply lookup_lt_Some in Ho. apply (f_equal length) in Hs1.
    unfold vshape in Hs1. rewrite !length_fmap in Hs1.
    destruct Hc as (_ & ? & _). lia. }
  destruct (Hreg i lab o Hlab Ho) as [Hso Hp].
  destruct (Hp (r, c) Hy) as (l & Hl & Hge & Hconn).
  destruct (analyzer_contract_slice out (cc out) i lab2 stat2 Hc2 Hlab2 Hstat2)
    as (o' & Ho' & Hshape2 & Hbg2 & Hidx2 & _ & _ & Harea2).
  assert (o' = o) as -> by congruence.
  pose proof (Forall2_lookup_lr _ _ _ _ _ _ Hcomp2 Ho Hlab2) as Hcmp2.
  assert ((l2, row2) ∈ stat2) as Hin2 by by eapply list_elem_of_lookup_2.
  rewrite Forall_forall in Harea2. destruct (Harea2 _ Hin2) as [HA2 _].
  simpl in HA2. rewrite HA2.
  assert (fg_at o (r, c)) as Hfp by by exists 1%Z.
  rewrite (count_label_ext lab2 lab l2 l); [done|congruence|].
  intros r' c'. split.
  - intros Hq.
    destruct (pix_Forall2_r _ o lab2 r' c' l2 Hbg2 Hq) as (x & Hx & Hx0).
    assert (fg_at o (r', c')) as Hfq by (exists x; split; [done|tauto]).
    apply (Hconn (r', c')). apply (Hcmp2 (r, c) (r', c') Hfp Hfq).
    simpl. congruence.
  - intros Hq.
    assert (connected adj o (r, c) (r', c')) as Hcon
      by by apply (Hconn (r', c')).
    assert (fg_at o (r', c')) as Hfq.
    { apply rtc_inv_r in Hcon as [E|(z & _ & _ & _ & Hfz)]; [|done].
      by rewrite <- E. }
    pose proof (proj2 (Hcmp2 (r, c) (r', c') Hfp Hfq) Hcon) as E.
    simpl in E. congruence.
Qed.

Lemma remove_spots_idempotent_witness :
  remove_spots ones_stack_analyzer [ [ [1; 1; 0; 0] ]; [ [0; 0; 0; 0] ] ]%Z 2
  = Ok [ [ [1; 1; 0; 0] ]; [ [0; 0; 0; 0] ] ]%Z.
Proof.
  apply (remove_spots_idempotent adjacent8 ones_stack_analyzer ones_stack).
  - compute_done.
  - constructor; [apply components_check_sound; compute_done|].
    constructor; [apply components_check_sound; compute_done|].
    constructor.
  - by vm_compute.
  - compute_done.
  - constructor; [apply components_check_sound; compute_done|].
    constructor; [apply components_check_sound; compute_done|].
    constructor.
Defined.

(** ** select_greater_connected_regions: counts of regions *)

(** X12.  With the analyzer's contract, pairwise distinct areas and at
    most 254 regions in each slice, the call returns a stack of the shape
    of the input in which a sample is 255 exactly when its slice has at
    least [n_reg] regions and the sample lies in one of the [n_reg] regions
    of largest AREA, and 0 otherwise: there are [n_reg] such regions, and
    no region left out is larger than one of them. *)
Theorem select_n_largest
    (cc : volume → list image * list DataFrame) (img : volume) (n_reg : Z) :
  analyzer_contract img (cc img) →
  Forall distinct_areas (cc img).2 →
  Forall (λ stat : DataFrame, length stat ≤ 255) (cc img).2 →
  ∃ out, select_greater_connected_regions cc img n_reg = Ok out
    ∧ vshape out = vshape img
    ∧ ∀ i lab stat,
        (cc img).1 !! i = Some lab → (cc img).2 !! i = Some stat →
        (∀ r c l, pix lab r c = Some l →
           voxel out i r c
           = Some (if decide
                        ((n_reg ≤ Z.of_nat (length (foreground_rows stat)))%Z
                         ∧ l ∈ largest_labels n_reg stat)
                   then 255%Z else 0%Z))
        ∧ ((0 ≤ n_reg ≤ Z.of_nat (length (foreground_rows stat)))%Z →
           length (largest_labels n_reg stat) = Z.to_nat n_reg
           ∧ ∀ j, j ∈ largest_labels n_reg stat →
               ∃ row, (j, row) ∈ stat ∧ j ≠ 0%Z
                 ∧ ∀ j' row', (j', row') ∈ stat → j' ≠ 0%Z →
                     j' ∉ largest_labels n_reg stat →
                     (AREA row' ≤ AREA row)%Z).
Proof.
  intros Hc Hd H255.
  destruct (select_keeps_largest cc img n_reg Hc Hd H255)
    as (out & Hrun & Hs & Hvox).
  exists out. split; [done|]. split; [done|].
  intros i lab stat Hlab Hstat. split; [by apply Hvox|].
  intros Hn. destruct (largest_labels_spec n_reg stat Hn) as [Hlen Hlab'].
  split; [done|]. intros j Hj. destruct (Hlab' j Hj) as (row & Hin & Hmax).
  apply list_elem_of_filter in Hin as [Hj0 Hin]. simpl in Hj0.
  exists row. split; [done|]. split; [done|].
  intros j' row' Hin' Hj0' Hout. apply (Hmax j' row'); [|done].
  by apply list_elem_of_filter.
Qed.

Lemma select_n_largest_witness :
  ∃ out,
    select_greater_connected_regions (λ _, ones_stack_analysis) ones_stack 1
    = Ok out
    ∧ vshape out = vshape ones_stack
    ∧ ∀ i lab stat,
        ones_stack_analysis.1 !! i = Some lab →
        ones_stack_analysis.2 !! i = Some stat →
        (∀ r c l, pix lab r c = Some l →
           voxel out i r c
           = Some (if decide
                        ((1 ≤ Z.of_nat (length (foreground_rows stat)))%Z
                         ∧ l ∈ largest_labels 1 stat)
                   then 255%Z else 0%Z))
        ∧ ((0 ≤ 1 ≤ Z.of_nat (length (foreground_rows stat)))%Z →
           length (largest_labels 1 stat) = Z.to_nat 1
           ∧ ∀ j, j ∈ largest_labels 1 stat →
               ∃ row, (j, row) ∈ stat ∧ j ≠ 0%Z
                 ∧ ∀ j' row', (j', row') ∈ stat → j' ≠ 0%Z →
                     j' ∉ largest_labels 1 stat →
                     (AREA row' ≤ AREA row)%Z).
Proof.
  apply (select_n_largest (λ _, ones_stack_analysis) ones_stack 1).
  - compute_done.
  - compute_done.
  - compute_done.
Defined.

Lemma select_slice_too_few n_reg (stat : DataFrame) (lab : image) :
  0%Z ∈ df_index stat →
  (Z.of_nat (length (foreground_rows stat)) < n_reg)%Z →
  select_slice n_reg (stat, lab) = Ok (set_where_ne 0 0 lab).
Proof.
  intros H0 Hn. unfold select_slice.
  rewrite (df_drop_background stat H0). simpl. unfold mbind at 1, result_bind.
  rewrite decide_False; [done|].
  rewrite (Permutation_length (sort_values_perm (foreground_rows stat))).
  lia.
Qed.

(** X13.  When every slice has fewer than [n_reg] regions, whether or not
    their areas tie, the call returns the all-zero stack of the shape of
    the input. *)
Theorem select_too_few_regions
    (cc : volume → list image * list DataFrame) (img : volume) (n_reg : Z) :
  analyzer_contract img (cc img) →
  Forall (λ stat : DataFrame,
            (Z.of_nat (length (foreground_rows stat)) < n_reg)%Z)
    (cc img).2 →
  ∃ out, select_greater_connected_regions cc img n_reg = Ok out
    ∧ vshape out = vshape img
    ∧ ∀ i r c y, voxel out i r c = Some y → y = 0%Z.
Proof.
  intros Hc Hfew. eexists. split.
  { apply (select_run cc img n_reg (λ sl, set_where_ne 0 0 sl.2)).
    apply Forall_lookup_2. intros i [stat lab] Hz.
    destruct (analyzer_contract_zip img (cc img) i stat lab Hc Hz)
      as (a & Ha & Hs).
    apply select_slice_too_few; [by apply (contract_background_row a lab)|].
    apply lookup_zip_with_Some in Hz as (s & l & [= -> ->] & Hstat & _).
    apply (Forall_lookup_1 _ _ _ _ Hfew Hstat). }
  split.
  { apply vshape_selected; [done|]. intros sl. apply ishape_imap2. }
  intros i r c y. rewrite voxel_vmap. unfold voxel.
  rewrite list_lookup_fmap.
  destruct (zip _ _ !! i) as [sl|]; [|done]. simpl.
  destruct (pix _ r c) as [z|] eqn:Hz; [|done]. simpl. intros [= <-].
  apply pix_set_where_ne in Hz. by destruct Hz as [->| ->].
Qed.

Lemma select_too_few_regions_witness :
  ∃ out,
    select_greater_connected_regions (λ _, two_spots_analysis) two_spots 3
    = Ok out
    ∧ vshape out = vshape two_spots
    ∧ ∀ i r c y, voxel out i r c = Some y → y = 0%Z.
Proof.
  apply (select_too_few_regions (λ _, two_spots_analysis) two_spots 3).
  - compute_done.
  - compute_done.
Defined.

(** X14.  A slice whose table has no row indexed 0 makes the call fail:
    the call never returns a stack, and raises [KeyError] when that slice
    is the first one. *)
Theorem select_missing_background_row
    (cc : volume → list image * list DataFrame) (img : volume) (n_reg : Z)
    (i : nat) (stat : DataFrame) (lab : image) :
  zip (cc img).2 (cc img).1 !! i = Some (stat, lab) →
  0%Z ∉ df_index stat →
  (∀ out, select_greater_connected_regions cc img n_reg ≠ Ok out)
  ∧ (i = 0 → select_greater_connected_regions cc img n_reg = Raise KeyError).
Proof.
  intros Hz H0.
  assert (select_slice n_reg (stat, lab) = Raise KeyError) as Hsl.
  { unfold select_slice, df_drop. by rewrite decide_False. }
  unfold select_greater_connected_regions.
  destruct (cc img) as [labs stats]. simpl in Hz. split.
  - intros out.
    destruct (mapM (select_slice n_reg) (zip stats labs)) as [m|e] eqn:Hm;
      [|done].
    apply mapM_Ok_inv in Hm.
    destruct (Forall2_lookup_l _ _ _ _ _ Hm Hz) as (y & _ & Hy).
    congruence.
  - intros ->. destruct (zip stats labs) as [|sl rest]; [done|].
    injection Hz as ->. by rewrite mapM_cons, Hsl.
Qed.

Lemma select_missing_background_row_witness :
  (∀ out,
     select_greater_connected_regions
       (λ _, ([ [ [1] ] ]%Z,
              [ [ (1%Z, {| LEFT := 0; TOP := 0; WIDTH := 1; HEIGHT := 1;
                           AREA := 1 |}) ] ]))
       [ [ [255] ] ]%Z 1 ≠ Ok out)
  ∧ (0 = 0 →
     select_greater_connected_regions
       (λ _, ([ [ [1] ] ]%Z,
              [ [ (1%Z, {| LEFT := 0; TOP := 0; WIDTH := 1; HEIGHT := 1;
                           AREA := 1 |}) ] ]))
       [ [ [255] ] ]%Z 1 = Raise KeyError).
Proof.
  apply (select_missing_background_row
           (λ _, ([ [ [1] ] ]%Z,
                  [ [ (1%Z, {| LEFT := 0; TOP := 0; WIDTH := 1; HEIGHT := 1;
                               AREA := 1 |}) ] ]))
           [ [ [255] ] ]%Z 1 0
           [ (1%Z, {| LEFT := 0; TOP := 0; WIDTH := 1; HEIGHT := 1;
                      AREA := 1 |}) ]
           [ [1] ]%Z).
  - done.
  - compute_done.
Defined.

Lemma largest_labels_all (stat : DataFrame) l :
  l ∈ largest_labels (Z.of_nat (length (foreground_rows stat))) stat
  ↔ ∃ row, (l, row) ∈ stat ∧ l ≠ 0%Z.
Proof.
  unfold largest_labels. rewrite Nat2Z.id.
  set (sorted := sort_values_AREA_desc (foreground_rows stat)).
  assert (sorted ≡ₚ foreground_rows stat) as Hp by apply sort_values_perm.
  replace (length (foreground_rows stat)) with (length sorted)
    by by rewrite Hp.
  rewrite firstn_all. unfold df_index. rewrite list_elem_of_fmap. split.
  - intros ([j row] & -> & Hin). rewrite Hp in Hin.
    apply list_elem_of_filter in Hin as [? ?]. by exists row.
  - intros (row & Hin & Hl). exists (l, row). split; [done|].
    rewrite Hp. by apply list_elem_of_filter.
Qed.

(** X15.  Asking for exactly as many regions as every slice has keeps them
    all, under the conditions of X12: the result is 255 wherever the input
    is not zero, and 0 elsewhere. *)
Theorem select_all_regions
    (cc : volume → list image * list DataFrame) (img : volume) (n_reg : Z) :
  analyzer_contract img (cc img) →
  Forall distinct_areas (cc img).2 →
  Forall (λ stat : DataFrame, length stat ≤ 255) (cc img).2 →
  Forall (λ stat : DataFrame,
            Z.of_nat (length (foreground_rows stat)) = n_reg) (cc img).2 →
  ∃ out, select_greater_connected_regions cc img n_reg = Ok out
    ∧ ∀ i r c x, voxel img i r c = Some x →
        voxel out i r c = Some (if decide (x ≠ 0%Z) then 255%Z else 0%Z).
Proof.
  intros Hc Hd H255 Hall.
  destruct (select_keeps_largest cc img n_reg Hc Hd H255)
    as (out & Hrun & Hs & Hvox).
  exists out. split; [done|]. intros i r c x Hx. unfold voxel in Hx.
  destruct (img !! i) as [a|] eqn:Ha; [|done]. simpl in Hx.
  destruct (analyzer_contract_img img (cc img) i a Hc Ha)
    as (lab & stat & Hlab & Hstat & _ & Hbg & Hidx & _ & Hrange & _).
  destruct (pix_Forall2 _ a lab r c x Hbg Hx) as (l & Hl & Hl0).
  rewrite (Hvox i lab stat Hlab Hstat r c l Hl). f_equal.
  pose proof (Forall_lookup_1 _ _ _ _ Hall Hstat) as Hn. simpl in Hn.
  pose proof (largest_labels_all stat l) as HL. rewrite Hn in HL.
  destruct (decide (x = 0%Z)) as [->|Hx0].
  - rewrite (decide_False (P := (0%Z ≠ 0%Z))) by tauto.
    rewrite decide_False; [done|].
    intros [_ HlL]. apply HL in HlL as (row & _ & Hne). tauto.
  - rewrite (decide_True (P := (x ≠ 0%Z))) by done.
    rewrite decide_True; [done|].
    split; [lia|]. apply HL.
    destruct (pix_elem_of lab r c l Hl) as (lrow & Hlrow & Hlin).
    rewrite Forall_forall in Hrange. specialize (Hrange lrow Hlrow).
    rewrite Forall_forall in Hrange. specialize (Hrange l Hlin).
    destruct (range_index_row stat l Hidx Hrange) as [row Hrow].
    exists row. split; [by eapply list_elem_of_lookup_2|tauto].
Qed.

Lemma select_all_regions_witness :
  ∃ out,
    select_greater_connected_regions
      (λ _, (take 1 ones_stack_analysis.1, take 1 ones_stack_analysis.2))
      (take 1 ones_stack) 2 = Ok out
    ∧ ∀ i r c x, voxel (take 1 ones_stack) i r c = Some x →
        voxel out i r c = Some (if decide (x ≠ 0%Z) then 255%Z else 0%Z).
Proof.
  apply (select_all_regions
           (λ _, (take 1 ones_stack_analysis.1, take 1 ones_stack_analysis.2))
           (take 1 ones_stack) 2).
  - compute_done.
  - compute_done.
  - compute_done.
  - compute_done.
Defined.

(** ** bit_plane_slices, further *)

Lemma take_index_out_of_range {A : Type} (l : list A) k :
  ¬ (- Z.of_nat (length l) ≤ k < Z.of_nat (length l))%Z →
  take_index l k = Raise IndexError.
Proof.
  intros Hk. unfold take_index. cbv zeta.
  destruct (decide (k < 0)%Z); rewrite decide_False; done || lia.
Qed.

Lemma take_index_raises {A : Type} (l : list A) k e :
  take_index l k = Raise e → e = IndexError.
Proof.
  unfold take_index. cbv zeta.
  destruct (decide (0 ≤ _ < _)%Z); [|congruence].
  destruct (l !! _); congruence.
Qed.

(** An index array with one index out of range raises [IndexError],
    wherever the index stands. *)
Lemma mapM_take_index_raises {A : Type} (l : list A) idx k :
  k ∈ idx → take_index l k = Raise IndexError →
  mapM (take_index l) idx = Raise IndexError.
Proof.
  intros Hin Hk. induction idx as [|j idx IH]; [by inversion Hin|].
  rewrite mapM_cons. destruct (take_index l j) as [y|e] eqn:Hj.
  - apply elem_of_cons in Hin as [->|Hin]; [congruence|].
    unfold mbind at 1, result_bind at 1. cbv beta iota.
    by rewrite (IH Hin).
  - apply take_index_raises in Hj as ->. done.
Qed.

Lemma bit_plane_slices_index_error (stack : volume) bits b :
  b ∈ bits → ¬ (1 ≤ b ≤ 16)%Z →
  bit_plane_slices stack bits = Raise IndexError.
Proof.
  intros Hin Hb. unfold bit_plane_slices. cbv zeta.
  assert (take_indices (gl2bit stack) ((λ b, 8 - b)%Z <$> bits)
          = Raise IndexError) as ->; [|done].
  destruct bits as [|b0 bits]; [done|].
  rewrite fmap_cons, take_indices_cons, <- fmap_cons.
  apply (mapM_take_index_raises _ _ (8 - b)%Z).
  - apply list_elem_of_fmap. by exists b.
  - apply take_index_out_of_range.
    assert (length (gl2bit stack) = 8) as -> by done. lia.
Qed.

Lemma bit_plane_slices_value_error (stack : volume) bits :
  bits ≠ [] → Forall (λ b, 1 ≤ b ≤ 16)%Z bits → length bits ≠ 3 →
  bit_plane_slices stack bits = Raise ValueError.
Proof.
  intros Hne Hall Hlen. unfold bit_plane_slices. cbv zeta.
  assert (take_indices (gl2bit stack) ((λ b, 8 - b)%Z <$> bits)
          = Ok ((λ k, vmap (λ x, Z.b2z (Z.testbit x (7 - k `mod` 8))) stack)
                  <$> ((λ b, 8 - b)%Z <$> bits))) as ->.
  { destruct bits as [|b0 bits]; [done|].
    rewrite fmap_cons, take_indices_cons, <- fmap_cons.
    apply mapM_Ok. apply Forall_fmap. eapply Forall_impl; [exact Hall|].
    intros b Hb. cbv beta in *. apply take_index_gl2bit. lia. }
  simpl. unfold reshape_3111.
  rewrite decide_False by (by rewrite length_fmap). done.
Qed.

Lemma vmap_ext f g (v : volume) : (∀ x, f x = g x) → vmap f v = vmap g v.
Proof.
  intros Hfg. unfold vmap, imap2.
  apply list_fmap_ext. intros _ a _. apply list_fmap_ext. intros _ row _.
  apply list_fmap_ext. intros _ x _. apply Hfg.
Qed.

Lemma sum_permutation (l l' : list Z) :
  l ≡ₚ l' → foldr Z.add 0%Z l = foldr Z.add 0%Z l'.
Proof. induction 1; simpl; lia. Qed.

(** Three positions between 1 and 16, with the sum of the weighted bits
    written as a sum over the list of positions. *)
Lemma bit_plane_slices_three_sum (stack : volume) bits :
  length bits = 3 → Forall (λ b, 1 ≤ b ≤ 16)%Z bits →
  bit_plane_slices stack bits
  = Ok (vmap (λ x, np_uint8
                     (foldr Z.add 0%Z ((λ b, weighted_bit b x) <$> bits)))
             stack).
Proof.
  intros Hlen Hall.
  destruct bits as [|b1 [|b2 [|b3 [|]]]]; try done.
  apply Forall_cons in Hall as [H1 Hall].
  apply Forall_cons in Hall as [H2 Hall].
  apply Forall_cons in Hall as [H3 _].
  rewrite bit_plane_slices_three by done. f_equal.
  apply vmap_ext. intros x. simpl. f_equal. lia.
Qed.

(** X16. The result of [bit_plane_slices], an exception included, does not
    depend on the order in which the bit positions are given. *)
Theorem bit_plane_slices_order (stack : volume) (bits bits' : list Z) :
  bits ≡ₚ bits' →
  bit_plane_slices stack bits = bit_plane_slices stack bits'.
Proof.
  intros Hp.
  destruct (decide (Forall (λ b, 1 ≤ b ≤ 16)%Z bits)) as [Hall|Hnot].
  - assert (Forall (λ b, 1 ≤ b ≤ 16)%Z bits') as Hall'
      by (by rewrite <- Hp).
    destruct (decide (length bits = 3)) as [Hlen|Hlen].
    + assert (length bits' = 3) as Hlen' by (by rewrite <- Hp).
      rewrite !bit_plane_slices_three_sum by done. f_equal.
      apply vmap_ext. intros x. f_equal.
      apply sum_permutation. by apply fmap_Permutation.
    + assert (length bits' ≠ 3) as Hlen' by (by rewrite <- Hp).
      destruct bits as [|b0 bits].
      { apply Permutation_nil_l in Hp as ->. done. }
      assert (bits' ≠ []) as Hne'.
      { intros ->. by apply Permutation_nil_r in Hp. }
      by rewrite !bit_plane_slices_value_error.
  - apply not_Forall_Exists in Hnot; [|apply _].
    apply Exists_exists in Hnot as (b & Hin & Hb).
    rewrite (bit_plane_slices_index_error stack bits b) by done.
    rewrite (bit_plane_slices_index_error stack bits' b); [done| |done].
    by rewrite <- Hp.
Qed.

Lemma bit_plane_slices_order_witness :
  [1; 7; 8]%Z ≡ₚ [8; 1; 7]%Z
  ∧ bit_plane_slices [ [ [255; 128; 127] ] ]%Z [1; 7; 8]%Z
    = bit_plane_slices [ [ [255; 128; 127] ] ]%Z [8; 1; 7]%Z.
Proof.
  assert ([1; 7; 8]%Z ≡ₚ [8; 1; 7]%Z) as Hp.
  { etrans; [apply perm_skip, Permutation_swap|]. apply Permutation_swap. }
  split; [exact Hp|]. by apply bit_plane_slices_order.
Defined.

(** X17. A bit position outside 1..16 anywhere among the positions makes
    [bit_plane_slices] raise [IndexError], whatever the stack and the other
    positions are. *)
Theorem bit_plane_slices_position_out_of_range
    (stack : volume) (bits : list Z) (b : Z) :
  b ∈ bits → ¬ (1 ≤ b ≤ 16)%Z →
  bit_plane_slices stack bits = Raise IndexError.
Proof. apply bit_plane_slices_index_error. Qed.

Lemma bit_plane_slices_position_out_of_range_witness :
  (17%Z ∈ [1; 17; 3; 4]%Z) ∧ ¬ (1 ≤ 17 ≤ 16)%Z
  ∧ bit_plane_slices [ [ [255; 128; 127] ] ]%Z [1; 17; 3; 4]%Z
    = Raise IndexError.
Proof.
  assert (17%Z ∈ [1; 17; 3; 4]%Z) as Hin by compute_done.
  assert (¬ (1 ≤ 17 ≤ 16)%Z) as Hb by lia.
  split; [exact Hin|]. split; [exact Hb|].
  exact (bit_plane_slices_position_out_of_range _ _ _ Hin Hb).
Defined.

(** X18. With every position between 1 and 16, a selection of one, two,
    four or more positions makes [bit_plane_slices] raise [ValueError]:
    only selections of exactly three positions return. *)
Theorem bit_plane_slices_wrong_count (stack : volume) (bits : list Z) :
  bits ≠ [] → Forall (λ b, 1 ≤ b ≤ 16)%Z bits →
  (bit_plane_slices stack bits = Raise ValueError ↔ length bits ≠ 3).
Proof.
  intros Hne Hall. split.
  - intros Hr Hlen.
    rewrite bit_plane_slices_three_sum in Hr by done. done.
  - by apply bit_plane_slices_value_error.
Qed.

Lemma bit_plane_slices_wrong_count_witness :
  [5; 6; 7; 8]%Z ≠ [] ∧ Forall (λ b, 1 ≤ b ≤ 16)%Z [5; 6; 7; 8]%Z
  ∧ (bit_plane_slices [ [ [255; 128; 127] ] ]%Z [5; 6; 7; 8]%Z
     = Raise ValueError ↔ length [5; 6; 7; 8]%Z ≠ 3).
Proof.
  assert ([5; 6; 7; 8]%Z ≠ []) as Hne by done.
  assert (Forall (λ b, 1 ≤ b ≤ 16)%Z [5; 6; 7; 8]%Z) as Hall
    by (repeat constructor; lia).
  split; [exact Hne|]. split; [exact Hall|].
  exact (bit_plane_slices_wrong_count _ _ Hne Hall).
Defined.

(** *** Distinct positions between 1 and 8 *)

Lemma land_pow2 x k :
  (0 ≤ k)%Z → Z.land x (2 ^ k) = (Z.b2z (Z.testbit x k) * 2 ^ k)%Z.
Proof.
  intros Hk. apply Z.bits_inj'. intros n Hn.
  rewrite Z.land_spec, Z.pow2_bits_eqb, Z.mul_pow2_bits by lia.
  destruct (Z.eqb_spec k n) as [->|Hkn].
  - by rewrite Z.sub_diag, Z.b2z_bit0, andb_true_r.
  - rewrite andb_false_r. destruct (Z.testbit x k); simpl.
    + change 1%Z with (2 ^ 0)%Z. rewrite Z.pow2_bits_eqb by lia.
      symmetry. apply Z.eqb_neq. lia.
    + by rewrite Z.bits_0.
Qed.

Lemma add_disjoint a b : Z.land a b = 0%Z → (a + b)%Z = Z.lor a b.
Proof.
  intros H. rewrite Z.add_nocarry_lxor by done. by apply Z.lxor_lor.
Qed.

Lemma pow2_sum_bits k1 k2 k3 n :
  (0 ≤ k1)%Z → (0 ≤ k2)%Z → (0 ≤ k3)%Z → k1 ≠ k2 → k1 ≠ k3 → k2 ≠ k3 →
  Z.testbit (2 ^ k1 + 2 ^ k2 + 2 ^ k3) n
  = (k1 =? n)%Z || (k2 =? n)%Z || (k3 =? n)%Z.
Proof.
  intros H1 H2 H3 H12 H13 H23.
  assert (2 ^ k1 + 2 ^ k2 = Z.lor (2 ^ k1) (2 ^ k2))%Z as E12.
  { apply add_disjoint. apply Z.bits_inj'. intros m Hm.
    rewrite Z.land_spec, !Z.pow2_bits_eqb, Z.bits_0 by lia.
    destruct (Z.eqb_spec k1 m), (Z.eqb_spec k2 m); simpl; congruence. }
  assert (Z.lor (2 ^ k1) (2 ^ k2) + 2 ^ k3
          = Z.lor (Z.lor (2 ^ k1) (2 ^ k2)) (2 ^ k3))%Z as E123.
  { apply add_disjoint. apply Z.bits_inj'. intros m Hm.
    rewrite Z.land_spec, Z.lor_spec, !Z.pow2_bits_eqb, Z.bits_0 by lia.
    destruct (Z.eqb_spec k1 m), (Z.eqb_spec k2 m), (Z.eqb_spec k3 m);
      simpl; congruence. }
  rewrite E12, E123, !Z.lor_spec, !Z.pow2_bits_eqb by lia. done.
Qed.

Lemma weighted_bits_mask x k1 k2 k3 :
  (0 ≤ k1)%Z → (0 ≤ k2)%Z → (0 ≤ k3)%Z → k1 ≠ k2 → k1 ≠ k3 → k2 ≠ k3 →
  (Z.b2z (Z.testbit x k1) * 2 ^ k1 + Z.b2z (Z.testbit x k2) * 2 ^ k2
   + Z.b2z (Z.testbit x k3) * 2 ^ k3)%Z
  = Z.land x (2 ^ k1 + 2 ^ k2 + 2 ^ k3).
Proof.
  intros H1 H2 H3 H12 H13 H23. rewrite <- !land_pow2 by done.
  assert (Z.land x (2 ^ k1) + Z.land x (2 ^ k2)
          = Z.lor (Z.land x (2 ^ k1)) (Z.land x (2 ^ k2)))%Z as ->.
  { apply add_disjoint. apply Z.bits_inj'. intros m Hm.
    rewrite !Z.land_spec, !Z.pow2_bits_eqb, Z.bits_0 by lia.
    destruct (Z.testbit x m), (Z.eqb_spec k1 m), (Z.eqb_spec k2 m);
      simpl; congruence. }
  rewrite add_disjoint.
  2:{ apply Z.bits_inj'. intros m Hm.
      rewrite Z.land_spec, Z.lor_spec, !Z.land_spec, !Z.pow2_bits_eqb,
        Z.bits_0 by lia.
      destruct (Z.testbit x m), (Z.eqb_spec k1 m), (Z.eqb_spec k2 m),
        (Z.eqb_spec k3 m); simpl; congruence. }
  apply Z.bits_inj'. intros m Hm.
  rewrite !Z.lor_spec, !Z.land_spec, pow2_sum_bits, !Z.pow2_bits_eqb by lia.
  destruct (Z.testbit x m), (k1 =? m)%Z, (k2 =? m)%Z, (k3 =? m)%Z; done.
Qed.

Lemma np_uint8_land_mask x k1 k2 k3 :
  (0 ≤ k1 < 8)%Z → (0 ≤ k2 < 8)%Z → (0 ≤ k3 < 8)%Z →
  k1 ≠ k2 → k1 ≠ k3 → k2 ≠ k3 →
  np_uint8 (Z.land x (2 ^ k1 + 2 ^ k2 + 2 ^ k3))
  = Z.land x (2 ^ k1 + 2 ^ k2 + 2 ^ k3).
Proof.
  intros H1 H2 H3 H12 H13 H23. unfold np_uint8.
  change 256%Z with (2 ^ 8)%Z. rewrite <- Z.land_ones by lia.
  apply Z.bits_inj'. intros m Hm.
  rewrite !Z.land_spec, pow2_sum_bits, Z.testbit_ones_nonneg by lia.
  destruct (Z.eqb_spec k1 m), (Z.eqb_spec k2 m), (Z.eqb_spec k3 m),
    (Z.ltb_spec m 8); rewrite ?andb_false_r, ?andb_true_r; simpl;
    try done; lia.
Qed.

(** The selection mask of three positions: the bits at these positions. *)
Lemma bit_plane_slices_mask (stack : volume) b1 b2 b3 :
  (1 ≤ b1 ≤ 8)%Z → (1 ≤ b2 ≤ 8)%Z → (1 ≤ b3 ≤ 8)%Z →
  b1 ≠ b2 → b1 ≠ b3 → b2 ≠ b3 →
  bit_plane_slices stack [b1; b2; b3]
  = Ok (vmap (λ x, Z.land x (2 ^ (b1 - 1) + 2 ^ (b2 - 1) + 2 ^ (b3 - 1)))
             stack).
Proof.
  intros H1 H2 H3 H12 H13 H23.
  rewrite bit_plane_slices_three by lia. f_equal.
  apply vmap_ext. intros x.
  rewrite !weighted_bit_in_range by done.
  rewrite weighted_bits_mask by lia.
  apply np_uint8_land_mask; lia.
Qed.

(** X19. Three distinct bit positions between 1 and 8: the call returns a
    stack of the shape of the input, and every sample of it is the input
    sample with the three selected bits kept and all other bits cleared. *)
Theorem bit_plane_slices_keeps_selected_bits
    (stack : volume) (b1 b2 b3 : Z) :
  (1 ≤ b1 ≤ 8)%Z → (1 ≤ b2 ≤ 8)%Z → (1 ≤ b3 ≤ 8)%Z →
  b1 ≠ b2 → b1 ≠ b3 → b2 ≠ b3 →
  ∃ out, bit_plane_slices stack [b1; b2; b3] = Ok out
    ∧ vshape out = vshape stack
    ∧ ∀ i r c x, voxel stack i r c = Some x →
        ∃ y, voxel out i r c = Some y
          ∧ ∀ k, (0 ≤ k)%Z →
              Z.testbit y k
              = Z.testbit x k
                && bool_decide (k + 1 ∈ [b1; b2; b3])%Z.
Proof.
  intros H1 H2 H3 H12 H13 H23. eexists. split; [|split].
  - by apply bit_plane_slices_mask.
  - apply vshape_vmap.
  - intros i r c x Hx. eexists. split.
    + by rewrite voxel_vmap, Hx.
    + intros k Hk. rewrite Z.land_spec, pow2_sum_bits by lia. f_equal.
      destruct (decide (k + 1 ∈ [b1; b2; b3])%Z) as [Hin|Hin].
      * rewrite (bool_decide_eq_true_2 _ Hin).
        rewrite !elem_of_cons, elem_of_nil in Hin.
        destruct (Z.eqb_spec (b1 - 1) k), (Z.eqb_spec (b2 - 1) k),
          (Z.eqb_spec (b3 - 1) k); simpl; try done; lia.
      * rewrite (bool_decide_eq_false_2 _ Hin).
        rewrite !elem_of_cons, elem_of_nil in Hin.
        destruct (Z.eqb_spec (b1 - 1) k), (Z.eqb_spec (b2 - 1) k),
          (Z.eqb_spec (b3 - 1) k); simpl; try done;
          exfalso; apply Hin; lia.
Qed.

Lemma bit_plane_slices_keeps_selected_bits_witness :
  ∃ out, bit_plane_slices [ [ [255; 128; 127] ] ]%Z [8; 7; 1]%Z = Ok out
    ∧ vshape out = vshape [ [ [255; 128; 127] ] ]%Z
    ∧ ∀ i r c x, voxel [ [ [255; 128; 127] ] ]%Z i r c = Some x →
        ∃ y, voxel out i r c = Some y
          ∧ ∀ k, (0 ≤ k)%Z →
              Z.testbit y k
              = Z.testbit x k && bool_decide (k + 1 ∈ [8; 7; 1])%Z.
Proof.
  apply (bit_plane_slices_keeps_selected_bits _ 8 7 1); lia.
Defined.

(** X20. Selecting the same three distinct positions between 1 and 8 from
    the result of [bit_plane_slices] changes nothing. *)
Theorem bit_plane_slices_idempotent
    (stack out : volume) (b1 b2 b3 : Z) :
  (1 ≤ b1 ≤ 8)%Z → (1 ≤ b2 ≤ 8)%Z → (1 ≤ b3 ≤ 8)%Z →
  b1 ≠ b2 → b1 ≠ b3 → b2 ≠ b3 →
  bit_plane_slices stack [b1; b2; b3] = Ok out →
  bit_plane_slices out [b1; b2; b3] = Ok out.
Proof.
  intros H1 H2 H3 H12 H13 H23.
  rewrite !bit_plane_slices_mask by done. intros [= <-]. f_equal.
  rewrite vmap_compose. apply vmap_ext. intros x. simpl.
  by rewrite <- Z.land_assoc, Z.land_diag.
Qed.

Lemma bit_plane_slices_idempotent_witness :
  bit_plane_slices [ [ [255; 128; 127] ] ]%Z [8; 7; 1]%Z
  = Ok [ [ [193; 128; 65] ] ]%Z
  ∧ bit_plane_slices [ [ [193; 128; 65] ] ]%Z [8; 7; 1]%Z
    = Ok [ [ [193; 128; 65] ] ]%Z.
Proof.
  assert (bit_plane_slices [ [ [255; 128; 127] ] ]%Z [8; 7; 1]%Z
          = Ok [ [ [193; 128; 65] ] ]%Z) as Hrun by reflexivity.
  split; [exact Hrun|].
  apply (bit_plane_slices_idempotent _ _ 8 7 1 ltac:(lia) ltac:(lia)
           ltac:(lia) ltac:(lia) ltac:(lia) ltac:(lia) Hrun).
Defined.
